(** * Tempwallets backend: send path of the wallet service and the
      Yellow Network RPC transport / channel service.

    Shallow embedding of
    - [WalletService.sendCrypto] (amount conversion, balance pre-check,
      token transfer dispatch),
    - [WebSocketManager] (connection life cycle, offline queue, request
      correlation, reconnection back-off),
    - [ChannelService] (channel id, initial state, custody calls). *)

From Stdlib Require Import ZArith List Ascii String DecimalString QArith Qround Lia Bool.
From stdpp Require Import base option gmap.
Import ListNotations.

Local Open Scope Z_scope.

(** ** JavaScript strings

    A JS string is modelled as the list of its characters (code units in
    the Latin-1 range); string literals of the source are written with
    [lit]. *)

Module Js.

Abbreviation str := (list ascii).

Definition lit (s : string) : str := list_ascii_of_string s.

Definition isDigit (c : ascii) : bool :=
  ((48 <=? nat_of_ascii c) && (nat_of_ascii c <=? 57))%nat.

Definition digitVal (c : ascii) : Z := Z.of_nat (nat_of_ascii c) - 48.

Definition allDigits (s : str) : bool := forallb isDigit s.

(** [/^[0-9]+$/.test(s)] *)
Definition testDigits (s : str) : bool :=
  match s with [] => false | _ => allDigits s end.

(** Numeric value of a run of decimal digits, most significant first. *)
Definition digitsValue (s : str) : Z :=
  fold_left (fun acc c => 10 * acc + digitVal c) s 0.

(** White space and line terminators removed by [String.prototype.trim]
    (those that fit in one Latin-1 code unit). *)
Definition isSpace (c : ascii) : bool :=
  let n := nat_of_ascii c in
  ((n =? 9) || (n =? 10) || (n =? 11) || (n =? 12) || (n =? 13)
   || (n =? 32) || (n =? 160))%nat.

Fixpoint dropWhile (p : ascii -> bool) (s : str) : str :=
  match s with
  | [] => []
  | c :: r => if p c then dropWhile p r else s
  end.

Definition trim (s : str) : str :=
  rev (dropWhile isSpace (rev (dropWhile isSpace s))).

(** [s.split(sep)] for a one-character separator: never empty. *)
Fixpoint split (sep : ascii) (s : str) : list str :=
  match s with
  | [] => [[]]
  | c :: r =>
      if Ascii.eqb c sep then [] :: split sep r
      else match split sep r with
           | h :: t => (c :: h) :: t
           | [] => [[c]]
           end
  end.

Definition isZeroChar (c : ascii) : bool := Ascii.eqb c "0"%char.

(** [s.replace(/^0+/, '')] *)
Definition stripLeadingZeros (s : str) : str := dropWhile isZeroChar s.

(** [s || '0'] on strings: the empty string is falsy. *)
Definition orZero (s : str) : str :=
  match s with [] => lit "0" | _ => s end.

(** ['0'.repeat(n)] *)
Definition zeros (n : nat) : str := repeat "0"%char n.

(** [s.slice(0, n)] for [n >= 0] *)
Definition slice0 (n : nat) (s : str) : str := firstn n s.

Fixpoint eqb (a b : str) : bool :=
  match a, b with
  | [], [] => true
  | x :: a', y :: b' => Ascii.eqb x y && eqb a' b'
  | _, _ => false
  end.

Fixpoint startsWith (prefix s : str) : bool :=
  match prefix, s with
  | [], _ => true
  | x :: p', y :: s' => Ascii.eqb x y && startsWith p' s'
  | _ :: _, [] => false
  end.

(** [hay.includes(needle)] *)
Fixpoint includes (needle hay : str) : bool :=
  startsWith needle hay
  || match hay with
     | [] => false
     | _ :: rest => includes needle rest
     end.

(** The lower-case form of a Latin-1 code unit: the letters A-Z and the
    accented capitals U+00C0-U+00DE (the multiplication sign U+00D7
    apart) move up by 32. *)
Definition toLowerChar (c : ascii) : ascii :=
  let n := nat_of_ascii c in
  if (((65 <=? n) && (n <=? 90))
      || ((192 <=? n) && (n <=? 222) && negb (n =? 215)))%nat
  then ascii_of_nat (n + 32) else c.

(** [s.toLowerCase()] *)
Definition toLowerCase (s : str) : str := map toLowerChar s.

(** [s.padStart(n, '0')] *)
Definition padStart0 (n : nat) (s : str) : str := zeros (n - length s) ++ s.

(** [s.replace(/^0x/, '')] *)
Definition strip0x (s : str) : str :=
  if startsWith (lit "0x") s then skipn 2 s else s.

(** Value of a digit in radix up to 16. *)
Definition hexVal (c : ascii) : option Z :=
  let n := nat_of_ascii c in
  if ((48 <=? n) && (n <=? 57))%nat then Some (Z.of_nat n - 48)
  else if ((97 <=? n) && (n <=? 102))%nat then Some (Z.of_nat n - 87)
  else if ((65 <=? n) && (n <=? 70))%nat then Some (Z.of_nat n - 55)
  else None.

Definition radixStep (radix : Z) (acc : option Z) (c : ascii) : option Z :=
  match acc, hexVal c with
  | Some a, Some v => if v <? radix then Some (radix * a + v) else None
  | _, _ => None
  end.

(** A non-empty run of digits of the given radix. *)
Definition radixValue (radix : Z) (s : str) : option Z :=
  match s with
  | [] => None
  | _ => fold_left (radixStep radix) s (Some 0)
  end.

Definition isOneOf (c a b : ascii) : bool := Ascii.eqb c a || Ascii.eqb c b.

(** [BigInt(s)] on a string (StringToBigInt): [None] is the SyntaxError.
    Surrounding white space is ignored, the empty string is 0, a sign is
    allowed on decimal literals only, and the prefixes 0x, 0o and 0b
    select the radix. *)
Definition BigInt (s : str) : option Z :=
  let t := trim s in
  match t with
  | [] => Some 0
  | c0 :: r0 =>
      if Ascii.eqb c0 "-"%char then option_map Z.opp (radixValue 10 r0)
      else if Ascii.eqb c0 "+"%char then radixValue 10 r0
      else
        match r0 with
        | c1 :: r1 =>
            if isZeroChar c0 && isOneOf c1 "x"%char "X"%char
            then radixValue 16 r1
            else if isZeroChar c0 && isOneOf c1 "o"%char "O"%char
            then radixValue 8 r1
            else if isZeroChar c0 && isOneOf c1 "b"%char "B"%char
            then radixValue 2 r1
            else radixValue 10 t
        | [] => radixValue 10 t
        end
  end.

(** [v.toString()] of a bigint *)
Definition bigintToString (v : Z) : str :=
  list_ascii_of_string (NilZero.string_of_int (Z.to_int v)).

End Js.

(** ** Wallet service: amount conversion *)

Module Wallet.
Import Js.

(** [toSmallest] of [sendCrypto]. The array destructuring
    [[wholeRaw, fracRaw]] reads positions 0 and 1 of the split, which are
    [undefined] (here [None]) when absent. *)
Definition toSmallest (val : str) (decimals : nat) : str :=
  let parts := split "."%char (trim val) in
  let wholeRaw := nth_error parts 0 in
  let fracRaw := nth_error parts 1 in
  let whole := match wholeRaw with Some w => w | None => lit "0" end in
  let frac := match fracRaw with Some f => f | None => [] end in
  let cleanWhole := orZero (stripLeadingZeros whole) in
  let fracPadded := slice0 decimals (frac ++ zeros decimals) in
  let combined := orZero (stripLeadingZeros (cleanWhole ++ fracPadded)) in
  combined.

(** A decimal numeral: integer digits and, after an optional point, the
    fractional digits. *)
Record decimal := { intDigits : str; fracDigits : option str }.

Definition render (a : decimal) : str :=
  match fracDigits a with
  | Some f => intDigits a ++ "."%char :: f
  | None => intDigits a
  end.

Definition fracOf (a : decimal) : str :=
  match fracDigits a with Some f => f | None => [] end.

Definition wellFormed (a : decimal) : bool :=
  allDigits (intDigits a) && allDigits (fracOf a).

(** The rational the numeral denotes. *)
Definition amountValue (a : decimal) : Q :=
  Qmake (digitsValue (intDigits a) * 10 ^ Z.of_nat (length (fracOf a))
         + digitsValue (fracOf a))
        (Z.to_pos (10 ^ Z.of_nat (length (fracOf a)))).

Definition pow10 (d : nat) : Q := inject_Z (10 ^ Z.of_nat d).

(** The fraction brought to exactly [d] digits, as the specification
    words it: truncated when too long, padded with zeros on the right
    when too short. *)
Definition padOrTruncate (f : str) (d : nat) : str :=
  if (d <=? length f)%nat then firstn d f else f ++ zeros (d - length f).

(** Canonical decimal output: digits only, no leading zero except for
    the numeral 0 itself. *)
Definition canonical (s : str) : bool :=
  testDigits s &&
  match s with
  | c :: _ :: _ => negb (isZeroChar c)
  | _ => true
  end.

(** *** Exceptions and results of awaited calls *)

Inductive exn :=
| BadRequestException (message : str)
| UnprocessableEntityException (message : str)
| ServiceUnavailableException (message : str)
| Error (message : str)            (* any other [Error] instance *)
| NonError.                        (* a thrown value that is no [Error] *)

Inductive outcome (A : Type) :=
| Returns (a : A)
| Throws (e : exn).
Arguments Returns {A} a.
Arguments Throws {A} e.

(** [error instanceof Error ? error.message : 'Unknown error'] *)
Definition messageOf (e : exn) : str :=
  match e with
  | BadRequestException m | UnprocessableEntityException m
  | ServiceUnavailableException m | Error m => m
  | NonError => lit "Unknown error"
  end.

(** The JS values the send path inspects. *)
Inductive jsval :=
| VUndefined
| VString (s : str)
| VOther (truthy : bool).          (* any other value, with its truthiness *)

Definition truthy (v : jsval) : bool :=
  match v with
  | VUndefined => false
  | VString [] => false
  | VString (_ :: _) => true
  | VOther b => b
  end.

(** [a || b] *)
Definition jsOr (a b : jsval) : jsval := if truthy a then a else b.

(** What a transfer entry point resolves to: a string, [null] or
    [undefined], or another value with its [hash] and [txHash]
    properties and its [String(...)] rendering. *)
Inductive jsresult :=
| ResString (s : str)
| ResNullish (isNull : bool)
| ResOther (hash txHash : jsval) (shown : str).

(** [typeof result === 'string' ? result
      : (result?.hash || result?.txHash || String(result))] *)
Definition hashOfResult (r : jsresult) : jsval :=
  match r with
  | ResString s => VString s
  | ResNullish isNull =>
      VString (if isNull then lit "null" else lit "undefined")
  | ResOther h t shown => jsOr h (jsOr t (VString shown))
  end.

(** The native branch reads [result.hash] without optional chaining: a
    nullish result raises a TypeError. *)
Definition hashOfResultStrict (r : jsresult) : outcome jsval :=
  match r with
  | ResNullish isNull =>
      Throws (Error (lit "Cannot read properties of "
                     ++ (if isNull then lit "null" else lit "undefined")
                     ++ lit " (reading 'hash')"))
  | _ => Returns (hashOfResult r)
  end.

(** *** The signer account, as [sendCrypto] probes it *)

Inductive call :=
| Transfer_token_recipient (token recipient : str) (amount : Z)
| Transfer_token_to (token to : str) (amount : Z)
| SendToken (token recipient : str) (amount : Z)
| TransferToken (token recipient : str) (amount : Z)
| Send_with_tokenAddress (recipient : str) (amount : Z) (tokenAddress : str)
| Send_native (recipient amount : str)
| Transfer_native (to : str) (amount : Z).

Record Account := {
  hasTransfer : bool;              (* typeof account.transfer === 'function' *)
  hasSendToken : bool;
  hasTransferToken : bool;
  hasSend : bool;
  respond : call -> outcome jsresult;
  getAddress : outcome str;
  getBalance : outcome str;        (* rendered by toString / String *)
  getTokenBalance : option (str -> outcome str);
  balanceOf : option (str -> outcome str);
  (** [provider.request] for [eth_call] with [to] and [data], when the
      account exposes a provider with a [request] function; [Returns
      None] is a result that is not a string. *)
  ethCall : option (str -> str -> outcome (option str));
}.

(** One entry of the indexer's any-chain positions. *)
Record Position := {
  implementation : option str;     (* fungible_info.implementations[0].address *)
  positionChain : option str;      (* relationships.chain.data.id *)
  quantityInt : option str;        (* attributes.quantity.int *)
}.

(** [zerionService.getPositionsAnyChain(addr)], then [?.data]. *)
Definition Indexer := str -> outcome (option (list Position)).

(** [decimals[chain] || 18] for the chain names the service is called
    with; a property name that every object inherits ([constructor],
    [toString] and the like) is no chain name and is left out. *)
Definition getNativeTokenDecimals (chain : str) : nat :=
  if eqb chain (lit "tron") then 6
  else if eqb chain (lit "bitcoin") then 8
  else if eqb chain (lit "solana") then 9
  else 18.

(** [zerionChainMap[chain] || chain], on chain names as above. *)
Definition zerionChain (chain : str) : str :=
  if eqb chain (lit "ethereumErc4337") then lit "ethereum"
  else if eqb chain (lit "baseErc4337") then lit "base"
  else if eqb chain (lit "arbitrumErc4337") then lit "arbitrum"
  else if eqb chain (lit "polygonErc4337") then lit "polygon"
  else chain.

(** *** Balance pre-check *)

Record Balance := { availableSmallest : str; balanceSource : str }.

Definition numericNonZero (s : str) : bool :=
  testDigits s && negb (eqb s (lit "0")).

(** Steps whose exceptions are swallowed by a [catch] leave the balance
    as it was. *)
Definition fromWdk (source : str) (r : outcome str) (b : Balance) : Balance :=
  match r with
  | Returns bal =>
      {| availableSmallest := bal;
         balanceSource := if numericNonZero bal then source
                          else balanceSource b |}
  | Throws _ => b
  end.

Definition wdkTokenBalance (account : Account) (token : str) (b : Balance)
  : Balance :=
  match getTokenBalance account, balanceOf account with
  | Some f, _ => fromWdk (lit "wdk-getTokenBalance") (f token) b
  | None, Some g => fromWdk (lit "wdk-balanceOf") (g token) b
  | None, None => b
  end.

Definition rpcTokenBalance (account : Account) (token : str) (b : Balance)
  : Balance :=
  match ethCall account, getAddress account with
  | Some request, Returns owner =>
      let data := lit "0x70a08231" ++ padStart0 64 (strip0x owner) in
      match request token data with
      | Returns (Some result) =>
          if startsWith (lit "0x") result then
            match BigInt result with
            | Some v =>
                let shown := bigintToString v in
                {| availableSmallest := shown;
                   balanceSource := if eqb shown (lit "0") then balanceSource b
                                    else lit "rpc-balanceOf" |}
            | None => b
            end
          else b
      | _ => b
      end
  | _, _ => b
  end.

Definition optEqb (o : option str) (s : str) : bool :=
  match o with Some x => eqb x s | None => false end.

Definition zerionTokenBalance (account : Account) (indexer : Indexer)
    (chain token : str) (b : Balance) : Balance :=
  match getAddress account with
  | Returns addr =>
      match indexer addr with
      | Returns data =>
          let found :=
            match data with
            | Some positions =>
                find (fun p =>
                        optEqb (option_map toLowerCase (implementation p))
                               (toLowerCase token)
                        && optEqb (positionChain p) (zerionChain chain))
                     positions
            | None => None
            end in
          let smallest :=
            match found with
            | Some p => match quantityInt p with
                        | Some (c :: r) => c :: r
                        | _ => lit "0"
                        end
            | None => lit "0"
            end in
          if numericNonZero smallest
          then {| availableSmallest := smallest;
                  balanceSource := lit "zerion-positions-any" |}
          else b
      | Throws _ => b
      end
  | Throws _ => b
  end.

Definition needsFallback (b : Balance) : bool :=
  negb (testDigits (availableSmallest b))
  || eqb (availableSmallest b) (lit "0").

Definition nativeBalance (account : Account) (b : Balance) : Balance :=
  match getBalance account with
  | Returns bal =>
      {| availableSmallest := bal;
         balanceSource := if testDigits bal then lit "wdk-native"
                          else balanceSource b |}
  | Throws _ => b
  end.

(** A token address is used when the optional argument is truthy. *)
Definition tokenOf (tokenAddress : option str) : option str :=
  match tokenAddress with
  | Some (c :: r) => Some (c :: r)
  | _ => None
  end.

Definition determineBalance (account : Account) (indexer : Indexer)
    (chain : str) (tokenAddress : option str) : Balance :=
  let b0 := {| availableSmallest := lit "0"; balanceSource := lit "unknown" |} in
  match tokenOf tokenAddress with
  | Some token =>
      let b1 := wdkTokenBalance account token b0 in
      let b2 := if needsFallback b1 then rpcTokenBalance account token b1
                else b1 in
      let b3 := if needsFallback b2
                then zerionTokenBalance account indexer chain token b2
                else b2 in
      b3
  | None => nativeBalance account b0
  end.

Definition insufficientMessage (b : Balance) (requestedSmallest : str) : str :=
  lit "Insufficient balance. Available: " ++ availableSmallest b
  ++ lit " (" ++ balanceSource b ++ lit "), Requested: " ++ requestedSmallest.

(** The comparison of the pre-check. A SyntaxError of [BigInt] lands in
    the handler that logs and lets the send proceed. *)
Definition balancePrecheck (b : Balance) (requestedSmallest : str)
  : outcome unit :=
  if testDigits (availableSmallest b) then
    match BigInt (availableSmallest b), BigInt requestedSmallest with
    | Some available, Some requested =>
        if available <? requested
        then Throws (UnprocessableEntityException
                       (insufficientMessage b requestedSmallest))
        else Returns tt
    | _, _ => Returns tt
    end
  else Returns tt.

(** *** Transfer dispatch *)

Record progress := { calls : list call; sent : bool; txHash : jsval }.

Definition notStarted : progress :=
  {| calls := []; sent := false; txHash := VString [] |}.

(** One awaited entry point: the call is recorded; on success the hash
    is taken from the result and [sent] is set. *)
Definition tryCall (account : Account) (c : call) (p : progress)
  : progress * option exn :=
  match respond account c with
  | Returns result =>
      ({| calls := calls p ++ [c]; sent := true;
          txHash := hashOfResult result |}, None)
  | Throws e =>
      ({| calls := calls p ++ [c]; sent := sent p; txHash := txHash p |},
       Some e)
  end.

Definition unsupported : exn :=
  ServiceUnavailableException
    (lit "Token transfer method not supported by this account").

(** The SyntaxError of [BigInt(requestedSmallest)]. *)
Definition notBigInt (s : str) : exn :=
  Error (lit "Cannot convert " ++ s ++ lit " to a BigInt").

Definition tokenTransfer (account : Account) (token recipient : str)
    (requestedSmallest : str) : progress * option exn :=
  match BigInt requestedSmallest with
  | None => (notStarted, Some (notBigInt requestedSmallest))
  | Some amount =>
      let p1 :=
        if hasTransfer account then
          match tryCall account
                  (Transfer_token_recipient token recipient amount)
                  notStarted with
          | (p, None) => p
          | (p, Some _) =>
              fst (tryCall account (Transfer_token_to token recipient amount) p)
          end
        else notStarted in
      let p2 :=
        if negb (sent p1) && hasSendToken account
        then fst (tryCall account (SendToken token recipient amount) p1)
        else p1 in
      let p3 :=
        if negb (sent p2) && hasTransferToken account
        then fst (tryCall account (TransferToken token recipient amount) p2)
        else p2 in
      let last :=
        if negb (sent p3) && hasSend account
        then tryCall account (Send_with_tokenAddress recipient amount token) p3
        else (p3, None) in
      match last with
      | (p4, Some e) => (p4, Some e)
      | (p4, None) =>
          if negb (sent p4) || negb (truthy (txHash p4))
          then (p4, Some unsupported)
          else (p4, None)
      end
  end.

Definition nativeTransfer (account : Account) (chain recipient : str)
    (requestedSmallest : str) : progress * option exn :=
  let finish (c : call) :=
    match respond account c with
    | Returns result =>
        match hashOfResultStrict result with
        | Returns h => ({| calls := [c]; sent := false; txHash := h |}, None)
        | Throws e => ({| calls := [c]; sent := false;
                          txHash := VString [] |}, Some e)
        end
    | Throws e =>
        ({| calls := [c]; sent := false; txHash := VString [] |}, Some e)
    end in
  if hasSend account then finish (Send_native recipient requestedSmallest)
  else if hasTransfer account then
    match BigInt requestedSmallest with
    | Some amount => finish (Transfer_native recipient amount)
    | None => (notStarted, Some (notBigInt requestedSmallest))
    end
  else (notStarted,
        Some (BadRequestException
                (lit "Chain " ++ chain
                 ++ lit " does not support send operation"))).

(** The handler around the transfer: HTTP exceptions for bad requests
    and unprocessable entities pass, everything else is classified by
    its message. *)
Definition classify (e : exn) : exn :=
  match e with
  | BadRequestException _ | UnprocessableEntityException _ => e
  | _ =>
      let m := messageOf e in
      if includes (lit "insufficient") m || includes (lit "balance") m
      then UnprocessableEntityException
             (lit "Insufficient balance for this transaction")
      else if includes (lit "network") m || includes (lit "timeout") m
              || includes (lit "RPC") m
      then ServiceUnavailableException
             (lit "Blockchain network is unavailable. Please try again later.")
      else if includes (lit "invalid address") m || includes (lit "address") m
      then BadRequestException (lit "Invalid recipient address: " ++ m)
      else ServiceUnavailableException (lit "Transaction failed: " ++ m)
  end.

(** The outermost handler of [sendCrypto]. *)
Definition outerCatch (e : exn) : exn :=
  match e with
  | BadRequestException _ | UnprocessableEntityException _
  | ServiceUnavailableException _ => e
  | _ => ServiceUnavailableException
           (lit "Failed to send crypto: " ++ messageOf e)
  end.

Definition noHash : exn :=
  ServiceUnavailableException
    (lit "Transaction submitted but no transaction hash returned").

(** The transfer block with its handler: the calls made on the signer
    and the hash returned or the exception raised. *)
Definition transferBlock (account : Account) (chain recipient : str)
    (tokenAddress : option str) (requestedSmallest : str)
  : list call * outcome str :=
  let '(p, thrown) :=
    match tokenOf tokenAddress with
    | Some token => tokenTransfer account token recipient requestedSmallest
    | None => nativeTransfer account chain recipient requestedSmallest
    end in
  match thrown with
  | Some e => (calls p, Throws (classify e))
  | None =>
      match txHash p with
      | VString (c :: r) => (calls p, Returns (c :: r))
      | _ => (calls p, Throws (classify noHash))
      end
  end.

(** [sendCrypto] from the conversion of the amount on, given the signer
    account, the indexer and the decimals resolved for the token. *)
Definition sendCrypto (account : Account) (indexer : Indexer)
    (chain recipientAddress amount : str) (tokenAddress : option str)
    (tokenDecimals : nat) : list call * outcome str :=
  let decimals :=
    match tokenOf tokenAddress with
    | Some _ => tokenDecimals
    | None => getNativeTokenDecimals chain
    end in
  let requestedSmallest := toSmallest amount decimals in
  match trim recipientAddress with
  | [] => ([], Throws (outerCatch
                         (BadRequestException
                            (lit "Recipient address is required"))))
  | _ :: _ =>
      let b := determineBalance account indexer chain tokenAddress in
      match balancePrecheck b requestedSmallest with
      | Throws e => ([], Throws (outerCatch e))
      | Returns _ =>
          match transferBlock account chain recipientAddress tokenAddress
                  requestedSmallest with
          | (cs, Returns h) => (cs, Returns h)
          | (cs, Throws e) => (cs, Throws (outerCatch e))
          end
      end
  end.

(** The smallest-unit amount [sendCrypto] computes for its arguments. *)
Definition requestedFor (chain amount : str) (tokenAddress : option str)
    (tokenDecimals : nat) : str :=
  toSmallest amount
    match tokenOf tokenAddress with
    | Some _ => tokenDecimals
    | None => getNativeTokenDecimals chain
    end.

(** What [sendCrypto] returns when the pre-check lets the send through:
    the outcome of the transfer block. *)
Definition proceeds (account : Account) (chain recipient : str)
    (tokenAddress : option str) (requested : str) : list call * outcome str :=
  match transferBlock account chain recipient tokenAddress requested with
  | (cs, Returns h) => (cs, Returns h)
  | (cs, Throws e) => (cs, Throws (outerCatch e))
  end.

(** The token entry points in their order of preference, as the
    specification lists them. *)
Definition entryPoints (token recipient : str) (amount : Z) : list call :=
  [ Transfer_token_recipient token recipient amount;
    Transfer_token_to token recipient amount;
    SendToken token recipient amount;
    TransferToken token recipient amount;
    Send_with_tokenAddress recipient amount token ].

(** Whether the account has the method an entry point calls. *)
Definition supported (account : Account) (c : call) : bool :=
  match c with
  | Transfer_token_recipient _ _ _ | Transfer_token_to _ _ _
  | Transfer_native _ _ => hasTransfer account
  | SendToken _ _ _ => hasSendToken account
  | TransferToken _ _ _ => hasTransferToken account
  | Send_with_tokenAddress _ _ _ | Send_native _ _ => hasSend account
  end.

(** The hash the specification promises for the result of the winning
    call: the result itself when it is a string, otherwise its [hash]
    or [txHash] property. *)
Definition promisedHash (r : jsresult) (h : str) : Prop :=
  match r with
  | ResString s => h = s
  | ResNullish _ => False
  | ResOther hash txHash _ => hash = VString h \/ txHash = VString h
  end.

(** "First success wins": the candidates are called in order up to and
    including the first that returns. *)
Fixpoint attempts (account : Account) (candidates : list call)
  : list call * option jsresult :=
  match candidates with
  | [] => ([], None)
  | c :: rest =>
      match respond account c with
      | Returns result => ([c], Some result)
      | Throws _ =>
          let '(tried, won) := attempts account rest in (c :: tried, won)
      end
  end.

End Wallet.

(** ** RPC transport: [WebSocketManager]

    The manager is a record of the fields of the class; its methods and
    the listeners that [connect] installs on the socket are functions
    from a state to the next state and the events they cause. The
    listeners registered with [on] are opaque: an execution records that
    they are called, not what they do. Socket events are those of the
    socket held in [ws]; timers that fire are events of the
    environment. *)

Module Transport.
Import Js.

(** Modelled from the spec: the enumeration [ConnectionState] is declared
    in [types.js], which is not part of the sources; its members are the
    ones the class uses. *)
Inductive ConnectionState :=
| DISCONNECTED | CONNECTING | CONNECTED | RECONNECTING | FAILED.

(** [readyState] of the underlying socket. *)
Inductive ReadyState := WS_CONNECTING | WS_OPEN | WS_CLOSING | WS_CLOSED.

(** [{ req: [id, method, params, timestamp], sig }] *)
Record RPCRequest := {
  reqId : Z;
  reqMethod : str;
  reqParams : list (str * str);    (* the fields of the params object *)
  reqTimestamp : Z;
  reqSig : list str;
}.

(** [{ res: [id, method, data, timestamp], error? }]; [resAssets] is
    [data.assets] when that is an array, [resError] the message of a
    truthy [error] (empty when the message is missing). *)
Record RPCResponse := {
  resId : Z;
  resMethod : str;
  resAssets : option (list str);
  resError : option str;
}.

(** The socket: its ready state and, for each request, whether
    [ws.send(JSON.stringify(request))] returns ([true]) or throws. *)
Record Socket := { readyState : ReadyState; accepts : RPCRequest -> bool }.

Record WebSocketConfig := {
  url : str;
  cfgReconnectAttempts : option Z;
  cfgReconnectDelay : option Z;
  cfgMaxReconnectDelay : option Z;
  cfgRequestTimeout : option Z;
}.

Record Settings := {
  maxReconnectAttempts : Z;
  reconnectDelay : Z;
  maxReconnectDelay : Z;
  requestTimeout : Z;
}.

(** Which of the optional listeners are registered. *)
Record Handlers := {
  onConnect : bool; onDisconnect : bool; onError : bool; onMessage : bool
}.

Inductive hook := OnConnect | OnDisconnect | OnError | OnMessage.

(** How the promise returned by a [send] call ended. *)
Inductive settlement :=
| Resolved (response : RPCResponse)
| Rejected (message : str).

(** The fields of the class, followed by the closures that [send]
    creates: each call of [send] gets the next call number, which names
    its promise and its timer. *)
Record Manager := {
  ws : option Socket;   (* this.ws *)
  settings : Settings;   (* constructor arguments after defaults *)
  connectionState : ConnectionState;
  reconnectAttempts : Z;
  messageQueue : list RPCRequest;
  responseHandlers : gmap Z nat;   (* request id -> send call whose closure is registered *)
  requestIdCounter : Z;
  assetsCache : list str;
  reconnectTimer : option Z;   (* delay of the pending reconnect timer *)
  eventHandlers : Handlers;
  timers : gmap nat Z;   (* armed request timers: send call -> request id *)
  promises : gmap nat settlement;   (* settled promises of send calls *)
  sendCalls : nat;   (* number of send calls so far *)
}.

(** What the manager does to the outside, in order. *)
Inductive event :=
| Wrote (r : RPCRequest)           (* ws.send returned *)
| WriteFailed (r : RPCRequest)     (* ws.send threw *)
| Invoked (h : hook)               (* a registered listener was called *)
| ReconnectIn (delay : Z)          (* setTimeout of scheduleReconnect *)
| Notified (method : str)          (* handleNotification *)
| ConnectResolved
| ConnectRejected
| CloseSent                        (* ws.close(1000, ...) *)
| Terminated                       (* ws.terminate() *)
| IdIssued (id : Z).               (* value returned by getNextRequestId *)

Definition set_ws (v : option Socket) (s : Manager) : Manager :=
  {| ws := v;
     settings := settings s;
     connectionState := connectionState s;
     reconnectAttempts := reconnectAttempts s;
     messageQueue := messageQueue s;
     responseHandlers := responseHandlers s;
     requestIdCounter := requestIdCounter s;
     assetsCache := assetsCache s;
     reconnectTimer := reconnectTimer s;
     eventHandlers := eventHandlers s;
     timers := timers s;
     promises := promises s;
     sendCalls := sendCalls s |}.

Definition set_connectionState (v : ConnectionState) (s : Manager) : Manager :=
  {| ws := ws s;
     settings := settings s;
     connectionState := v;
     reconnectAttempts := reconnectAttempts s;
     messageQueue := messageQueue s;
     responseHandlers := responseHandlers s;
     requestIdCounter := requestIdCounter s;
     assetsCache := assetsCache s;
     reconnectTimer := reconnectTimer s;
     eventHandlers := eventHandlers s;
     timers := timers s;
     promises := promises s;
     sendCalls := sendCalls s |}.

Definition set_reconnectAttempts (v : Z) (s : Manager) : Manager :=
  {| ws := ws s;
     settings := settings s;
     connectionState := connectionState s;
     reconnectAttempts := v;
     messageQueue := messageQueue s;
     responseHandlers := responseHandlers s;
     requestIdCounter := requestIdCounter s;
     assetsCache := assetsCache s;
     reconnectTimer := reconnectTimer s;
     eventHandlers := eventHandlers s;
     timers := timers s;
     promises := promises s;
     sendCalls := sendCalls s |}.

Definition set_messageQueue (v : list RPCRequest) (s : Manager) : Manager :=
  {| ws := ws s;
     settings := settings s;
     connectionState := connectionState s;
     reconnectAttempts := reconnectAttempts s;
     messageQueue := v;
     responseHandlers := responseHandlers s;
     requestIdCounter := requestIdCounter s;
     assetsCache := assetsCache s;
     reconnectTimer := reconnectTimer s;
     eventHandlers := eventHandlers s;
     timers := timers s;
     promises := promises s;
     sendCalls := sendCalls s |}.

Definition set_responseHandlers (v : gmap Z nat) (s : Manager) : Manager :=
  {| ws := ws s;
     settings := settings s;
     connectionState := connectionState s;
     reconnectAttempts := reconnectAttempts s;
     messageQueue := messageQueue s;
     responseHandlers := v;
     requestIdCounter := requestIdCounter s;
     assetsCache := assetsCache s;
     reconnectTimer := reconnectTimer s;
     eventHandlers := eventHandlers s;
     timers := timers s;
     promises := promises s;
     sendCalls := sendCalls s |}.

Definition set_requestIdCounter (v : Z) (s : Manager) : Manager :=
  {| ws := ws s;
     settings := settings s;
     connectionState := connectionState s;
     reconnectAttempts := reconnectAttempts s;
     messageQueue := messageQueue s;
     responseHandlers := responseHandlers s;
     requestIdCounter := v;
     assetsCache := assetsCache s;
     reconnectTimer := reconnectTimer s;
     eventHandlers := eventHandlers s;
     timers := timers s;
     promises := promises s;
     sendCalls := sendCalls s |}.

Definition set_assetsCache (v : list str) (s : Manager) : Manager :=
  {| ws := ws s;
     settings := settings s;
     connectionState := connectionState s;
     reconnectAttempts := reconnectAttempts s;
     messageQueue := messageQueue s;
     responseHandlers := responseHandlers s;
     requestIdCounter := requestIdCounter s;
     assetsCache := v;
     reconnectTimer := reconnectTimer s;
     eventHandlers := eventHandlers s;
     timers := timers s;
     promises := promises s;
     sendCalls := sendCalls s |}.

Definition set_reconnectTimer (v : option Z) (s : Manager) : Manager :=
  {| ws := ws s;
     settings := settings s;
     connectionState := connectionState s;
     reconnectAttempts := reconnectAttempts s;
     messageQueue := messageQueue s;
     responseHandlers := responseHandlers s;
     requestIdCounter := requestIdCounter s;
     assetsCache := assetsCache s;
     reconnectTimer := v;
     eventHandlers := eventHandlers s;
     timers := timers s;
     promises := promises s;
     sendCalls := sendCalls s |}.

Definition set_eventHandlers (v : Handlers) (s : Manager) : Manager :=
  {| ws := ws s;
     settings := settings s;
     connectionState := connectionState s;
     reconnectAttempts := reconnectAttempts s;
     messageQueue := messageQueue s;
     responseHandlers := responseHandlers s;
     requestIdCounter := requestIdCounter s;
     assetsCache := assetsCache s;
     reconnectTimer := reconnectTimer s;
     eventHandlers := v;
     timers := timers s;
     promises := promises s;
     sendCalls := sendCalls s |}.

Definition set_timers (v : gmap nat Z) (s : Manager) : Manager :=
  {| ws := ws s;
     settings := settings s;
     connectionState := connectionState s;
     reconnectAttempts := reconnectAttempts s;
     messageQueue := messageQueue s;
     responseHandlers := responseHandlers s;
     requestIdCounter := requestIdCounter s;
     assetsCache := assetsCache s;
     reconnectTimer := reconnectTimer s;
     eventHandlers := eventHandlers s;
     timers := v;
     promises := promises s;
     sendCalls := sendCalls s |}.

Definition set_promises (v : gmap nat settlement) (s : Manager) : Manager :=
  {| ws := ws s;
     settings := settings s;
     connectionState := connectionState s;
     reconnectAttempts := reconnectAttempts s;
     messageQueue := messageQueue s;
     responseHandlers := responseHandlers s;
     requestIdCounter := requestIdCounter s;
     assetsCache := assetsCache s;
     reconnectTimer := reconnectTimer s;
     eventHandlers := eventHandlers s;
     timers := timers s;
     promises := v;
     sendCalls := sendCalls s |}.

Definition set_sendCalls (v : nat) (s : Manager) : Manager :=
  {| ws := ws s;
     settings := settings s;
     connectionState := connectionState s;
     reconnectAttempts := reconnectAttempts s;
     messageQueue := messageQueue s;
     responseHandlers := responseHandlers s;
     requestIdCounter := requestIdCounter s;
     assetsCache := assetsCache s;
     reconnectTimer := reconnectTimer s;
     eventHandlers := eventHandlers s;
     timers := timers s;
     promises := promises s;
     sendCalls := v |}.

Definition orDefault (o : option Z) (d : Z) : Z :=
  match o with Some v => v | None => d end.

(** The constructor. *)
Definition new (config : WebSocketConfig) : Manager :=
  {| ws := None;
     settings :=
       {| maxReconnectAttempts := orDefault (cfgReconnectAttempts config) 5;
          reconnectDelay := orDefault (cfgReconnectDelay config) 1000;
          maxReconnectDelay := orDefault (cfgMaxReconnectDelay config) 30000;
          requestTimeout := orDefault (cfgRequestTimeout config) 30000 |};
     connectionState := DISCONNECTED;
     reconnectAttempts := 0;
     messageQueue := [];
     responseHandlers := ∅;
     requestIdCounter := 1;
     assetsCache := [];
     reconnectTimer := None;
     eventHandlers := {| onConnect := false; onDisconnect := false;
                         onError := false; onMessage := false |};
     timers := ∅;
     promises := ∅;
     sendCalls := 0 |}.

Definition registered (h : hook) (s : Manager) : bool :=
  match h with
  | OnConnect => onConnect (eventHandlers s)
  | OnDisconnect => onDisconnect (eventHandlers s)
  | OnError => onError (eventHandlers s)
  | OnMessage => onMessage (eventHandlers s)
  end.

(** [this.eventHandlers.onX?.()] *)
Definition invoke (h : hook) (s : Manager) : list event :=
  if registered h s then [Invoked h] else [].

Definition socketOpen (s : Manager) : bool :=
  match ws s with
  | Some sock => match readyState sock with WS_OPEN => true | _ => false end
  | None => false
  end.

Definition isConnected (s : Manager) : bool :=
  match connectionState s with
  | CONNECTED => socketOpen s
  | _ => false
  end.

Definition getState (s : Manager) : ConnectionState := connectionState s.

(** *** Request ids

    [requestIdCounter] is a JS number. On the integers from 1 up to 2^53
    the addition of 1 is exact, and at 2^53 the sum rounds back to 2^53
    (round to nearest, ties to even). *)
Definition maxExact : Z := 2 ^ 53.

Definition jsSucc (n : Z) : Z := if n <? maxExact then n + 1 else n.

(** [return this.requestIdCounter++] *)
Definition getNextRequestId (s : Manager) : Z * Manager :=
  (requestIdCounter s, set_requestIdCounter (jsSucc (requestIdCounter s)) s).

(** *** Flushing the offline queue *)

(** The loop of [flushMessageQueue] on an open socket: requests leave
    the queue from the front; a failed write puts the request back and
    stops. Returns what stays queued and the writes made. *)
Fixpoint flushLoop (sock : Socket) (queue : list RPCRequest)
  : list RPCRequest * list event :=
  match queue with
  | [] => ([], [])
  | request :: rest =>
      if accepts sock request then
        let '(remaining, evs) := flushLoop sock rest in
        (remaining, Wrote request :: evs)
      else (request :: rest, [WriteFailed request])
  end.

Definition flushMessageQueue (s : Manager) : Manager * list event :=
  if negb (isConnected s) then (s, [])
  else
    match ws s with
    | Some sock =>
        let '(remaining, evs) := flushLoop sock (messageQueue s) in
        (set_messageQueue remaining s, evs)
    | None => (s, [])
    end.

(** *** Reconnection

    Attempts and delays are integers; on them [Math.pow], the product
    and [Math.min] of the source are exact as long as the number of
    attempts stays below 1024. *)
Definition backoff (s : Manager) (attempt : Z) : Z :=
  Z.min (reconnectDelay (settings s) * 2 ^ (attempt - 1))
        (maxReconnectDelay (settings s)).

Definition scheduleReconnect (s : Manager) : Manager * list event :=
  match reconnectTimer s with
  | Some _ => (s, [])
  | None =>
      let s1 := set_reconnectAttempts (reconnectAttempts s + 1) s in
      let delay := backoff s1 (reconnectAttempts s1) in
      let s2 := set_connectionState RECONNECTING s1 in
      (set_reconnectTimer (Some delay) s2, [ReconnectIn delay])
  end.

(** *** Socket listeners installed by [connect] *)

(** ['open'] *)
Definition on_open (s : Manager) : Manager * list event :=
  let s1 := set_connectionState CONNECTED s in
  let s2 := set_reconnectAttempts 0 s1 in
  let '(s3, writes) := flushMessageQueue s2 in
  (s3, writes ++ invoke OnConnect s3 ++ [ConnectResolved]).

(** ['close'] with its code *)
Definition on_close (code : Z) (s : Manager) : Manager * list event :=
  let s1 := set_ws None (set_connectionState DISCONNECTED s) in
  let evs := invoke OnDisconnect s1 in
  if negb (code =? 1000)
     && (reconnectAttempts s1 <? maxReconnectAttempts (settings s1))
  then
    let '(s2, evs') := scheduleReconnect s1 in (s2, evs ++ evs')
  else if maxReconnectAttempts (settings s1) <=? reconnectAttempts s1
  then (set_connectionState FAILED s1, evs)
  else (s1, evs).

(** ['error'] *)
Definition on_error (s : Manager) : Manager * list event :=
  (s, invoke OnError s
      ++ match connectionState s with
         | CONNECTING => [ConnectRejected]
         | _ => []
         end).

(** A promise settles once; later calls of its [resolve] or [reject]
    change nothing. *)
Definition settle (k : nat) (r : settlement) (s : Manager) : Manager :=
  match promises s !! k with
  | Some _ => s
  | None => set_promises (<[k := r]> (promises s)) s
  end.

Definition handleNotification (response : RPCResponse) (s : Manager)
  : Manager :=
  if eqb (resMethod response) (lit "assets") then
    match resAssets response with
    | Some assets => set_assetsCache assets s
    | None => s
    end
  else s.

(** The handler stored by [send] call [k]: it clears the timer of that
    call and settles its promise. *)
Definition runHandler (k : nat) (response : RPCResponse) (s : Manager)
  : Manager :=
  let s1 := set_timers (delete k (timers s)) s in
  match resError response with
  | Some message =>
      settle k (Rejected (match message with
                          | [] => lit "RPC error"
                          | _ => message
                          end)) s1
  | None => settle k (Resolved response) s1
  end.

Definition handleMessage (response : RPCResponse) (s : Manager)
  : Manager * list event :=
  let requestId := resId response in
  let evs := invoke OnMessage s in
  match responseHandlers s !! requestId with
  | Some k =>
      let s1 := runHandler k response s in
      (set_responseHandlers (delete requestId (responseHandlers s1)) s1, evs)
  | None =>
      (handleNotification response s,
       evs ++ [Notified (resMethod response)])
  end.

(** ['message']: [None] is a frame that [JSON.parse] rejects. *)
Definition on_message (parsed : option RPCResponse) (s : Manager)
  : Manager * list event :=
  match parsed with
  | Some response => handleMessage response s
  | None => (s, invoke OnError s)
  end.

(** *** Public methods *)

(** [connect()]; [created] is the socket the constructor returns, or
    [None] when it throws. *)
Definition connect (created : option (RPCRequest -> bool)) (s : Manager)
  : Manager * list event :=
  match connectionState s with
  | CONNECTED => (s, [ConnectResolved])
  | _ =>
      let s1 := set_connectionState CONNECTING s in
      match created with
      | None => (set_connectionState FAILED s1, [ConnectRejected])
      | Some behaviour =>
          (set_ws (Some {| readyState := WS_CONNECTING;
                           accepts := behaviour |}) s1, [])
      end
  end.

(** The connection timeout armed by [connect]. *)
Definition connectTimeout (s : Manager) : Manager * list event :=
  match connectionState s with
  | CONNECTING =>
      (s, match ws s with Some _ => [Terminated] | None => [] end
          ++ [ConnectRejected])
  | _ => (s, [])
  end.

(** The callback of the reconnect timer. *)
Definition reconnectTimerFires (created : option (RPCRequest -> bool))
    (s : Manager) : Manager * list event :=
  match reconnectTimer s with
  | Some _ => connect created (set_reconnectTimer None s)
  | None => (s, [])
  end.

Definition disconnect (s : Manager) : Manager * list event :=
  let s1 := set_reconnectTimer None s in
  let evs := match ws s1 with Some _ => [CloseSent] | None => [] end in
  (set_connectionState DISCONNECTED (set_ws None s1), evs).

Definition timeoutMessage (requestId timeout : Z) : str :=
  lit "Request " ++ bigintToString requestId ++ lit " timed out after "
  ++ bigintToString timeout ++ lit "ms".

(** Stands for the message of whatever [ws.send] threw. *)
Definition writeError : str := lit "WebSocket send failed".

(** [send(request)]: returns the number of the call, which names the
    promise handed to the caller. *)
Definition send (request : RPCRequest) (s : Manager)
  : nat * Manager * list event :=
  let requestId := reqId request in
  let k := sendCalls s in
  let s1 := set_sendCalls (S k) s in
  let s2 := set_responseHandlers (<[requestId := k]> (responseHandlers s1)) s1 in
  let s3 := set_timers (<[k := requestId]> (timers s2)) s2 in
  if socketOpen s3 then
    match ws s3 with
    | Some sock =>
        if accepts sock request then (k, s3, [Wrote request])
        else
          let s4 := set_responseHandlers
                      (delete requestId (responseHandlers s3)) s3 in
          let s5 := set_timers (delete k (timers s4)) s4 in
          (k, settle k (Rejected writeError) s5, [WriteFailed request])
    | None => (k, s3, [])
    end
  else (k, set_messageQueue (messageQueue s3 ++ [request]) s3, []).

(** The callback of the request timer of call [k]. *)
Definition requestTimerFires (k : nat) (s : Manager) : Manager :=
  match timers s !! k with
  | Some requestId =>
      let s1 := set_timers (delete k (timers s)) s in
      let s2 := set_responseHandlers
                  (delete requestId (responseHandlers s1)) s1 in
      settle k (Rejected (timeoutMessage requestId
                            (requestTimeout (settings s2)))) s2
  | None => s
  end.

(** [on(event, handler)] *)
Definition on (h : hook) (s : Manager) : Manager :=
  let e := eventHandlers s in
  set_eventHandlers
    match h with
    | OnConnect => {| onConnect := true; onDisconnect := onDisconnect e;
                      onError := onError e; onMessage := onMessage e |}
    | OnDisconnect => {| onConnect := onConnect e; onDisconnect := true;
                         onError := onError e; onMessage := onMessage e |}
    | OnError => {| onConnect := onConnect e; onDisconnect := onDisconnect e;
                    onError := true; onMessage := onMessage e |}
    | OnMessage => {| onConnect := onConnect e; onDisconnect := onDisconnect e;
                      onError := onError e; onMessage := true |}
    end s.

(** *** Executions

    Calls made by the owner of the manager and events delivered by the
    socket and by the timers. The socket sets its [readyState] before it
    emits ['open']. *)
Inductive action :=
| Connect (created : option (RPCRequest -> bool))
| Disconnect
| Send (request : RPCRequest)
| GetNextRequestId
| On (h : hook)
| SocketOpen
| SocketMessage (parsed : option RPCResponse)
| SocketError
| SocketClose (code : Z)
| RequestTimer (k : nat)
| ReconnectTimer (created : option (RPCRequest -> bool))
| ConnectTimer.

Definition markOpen (s : Manager) : Manager :=
  match ws s with
  | Some sock =>
      set_ws (Some {| readyState := WS_OPEN; accepts := accepts sock |}) s
  | None => s
  end.

Definition step (a : action) (s : Manager) : Manager * list event :=
  match a with
  | Connect created => connect created s
  | Disconnect => disconnect s
  | Send request => let '(_, s', evs) := send request s in (s', evs)
  | GetNextRequestId =>
      let '(id, s') := getNextRequestId s in (s', [IdIssued id])
  | On h => (on h s, [])
  | SocketOpen => on_open (markOpen s)
  | SocketMessage parsed => on_message parsed s
  | SocketError => on_error s
  | SocketClose code => on_close code s
  | RequestTimer k => (requestTimerFires k s, [])
  | ReconnectTimer created => reconnectTimerFires created s
  | ConnectTimer => connectTimeout s
  end.

Fixpoint run (actions : list action) (s : Manager) : Manager * list event :=
  match actions with
  | [] => (s, [])
  | a :: rest =>
      let '(s1, evs1) := step a s in
      let '(s2, evs2) := run rest s1 in
      (s2, evs1 ++ evs2)
  end.

(** The ids handed out during an execution, in order. *)
Definition issuedIds (evs : list event) : list Z :=
  omap (fun e => match e with IdIssued id => Some id | _ => None end) evs.

(** Whether the connect listener runs before anything is written. *)
Fixpoint hookBeforeWrites (evs : list event) : bool :=
  match evs with
  | [] => false
  | Invoked OnConnect :: _ => true
  | Wrote _ :: _ => false
  | _ :: rest => hookBeforeWrites rest
  end.

(** Whether every write comes before the connect listener runs. *)
Fixpoint writesBeforeHook (evs : list event) : bool :=
  match evs with
  | [] => true
  | Invoked OnConnect :: rest =>
      forallb (fun e => match e with Wrote _ => false | _ => true end) rest
  | _ :: rest => writesBeforeHook rest
  end.

(** Events of the socket writes. *)
Definition isWrite (e : event) : bool :=
  match e with
  | Wrote _ | WriteFailed _ => true
  | _ => false
  end.

(** The part of the state that [send] and the handlers work on. *)
Definition correlation (s : Manager) :=
  (promises s, timers s, responseHandlers s, sendCalls s).

(** Call numbers not handed out yet name no promise, no timer and no
    handler. *)
Definition fresh (s : Manager) : Prop :=
  (forall k, (sendCalls s <= k)%nat -> promises s !! k = None)
  /\ (forall k id, timers s !! k = Some id -> (k < sendCalls s)%nat)
  /\ (forall id k, responseHandlers s !! id = Some k -> (k < sendCalls s)%nat).

(** States that an execution from a newly constructed manager reaches. *)
Definition reachable (s : Manager) : Prop :=
  exists config actions, s = fst (run actions (new config)).

End Transport.

(** ** Payment channels: [ChannelService] *)

Module Channels.
Import Js.

(** Modelled from the spec: the enumeration [StateIntent] is declared in
    [types.js], which is not part of the sources. *)
Inductive StateIntent := INITIALIZE | OPERATE | RESIZE | FINALIZE.

(** Addresses, signatures and hashes are hex strings. *)
Record Channel := {
  participants : str * str;
  adjudicator : str;
  challenge : Z;
  nonce : Z;
}.

(** [allocations] holds the pairs [[index, amount]]. *)
Record ChannelState := {
  intent : StateIntent;
  version : Z;
  data : str;
  allocations : list (Z * Z);
}.

(** An allocation as the custody ABI takes it. *)
Record AllocationArg := { index : Z; amount : Z }.

Record StateArg := {
  argIntent : StateIntent;
  argVersion : Z;
  argData : str;
  argAllocations : list AllocationArg;
}.

(** The arguments of [walletClient.writeContract]. *)
Record ContractCall := {
  address : str;
  functionName : str;
  argChannelId : str;
  argState : StateArg;
  argSigs : list str;
}.

Record ChannelWithState := {
  channel : Channel;
  channelId : str;
  state : ChannelState;
  chainId : Z;
  status : str;
}.

(** Payload of the clearing node's answer to [create_channel]. The two
    numbers are what [BigInt] makes of the fields, [None] when it
    throws. *)
Record CreateChannelData := {
  cdParticipants : str * str;
  cdAdjudicator : str;
  cdChallenge : option Z;
  cdNonce : option Z;
  cdUserSignature : str;
  cdServerSignature : str;
}.

(** Payload of the answers to [resize_channel] and [close_channel]. *)
Record StateData := {
  sdVersion : option Z;
  sdData : str;
  sdAllocations : option (list (Z * Z));
  sdUserSignature : str;
  sdServerSignature : str;
}.

Inductive result (A : Type) :=
| Ok (a : A)
| Fail (message : str).
Arguments Ok {A} a.
Arguments Fail {A} message.

Definition bind {A B : Type} (r : result A) (k : A -> result B) : result B :=
  match r with
  | Ok a => k a
  | Fail m => Fail m
  end.

Definition orFail {A : Type} (o : option A) (message : str) : result A :=
  match o with
  | Some a => Ok a
  | None => Fail message
  end.

Definition hexChar (v : Z) : ascii :=
  nth (Z.to_nat v) (lit "0123456789abcdef") "0"%char.

(** [n] hexadecimal digits of [v], most significant first. *)
Fixpoint hexDigits (n : nat) (v : Z) : str :=
  match n with
  | O => []
  | S k => hexDigits k (v / 16) ++ [hexChar (v mod 16)]
  end.

(** The text that [isAddress] of the library requires before it looks
    at the checksum: 0x followed by 40 hexadecimal digits. *)
Definition addressShape (a : str) : bool :=
  startsWith (lit "0x") a
  && (length (skipn 2 a) =? 40)%nat
  && forallb (fun c => match hexVal c with Some _ => true | None => false end)
             (skipn 2 a).

(** The number an address denotes. *)
Definition addressValue (a : str) : option Z := radixValue 16 (skipn 2 a).

(** Reading an ABI encoding back: the 32-byte word number [i] (64
    hexadecimal digits after the prefix 0x) as a number. *)
Definition wordAt (i : nat) (encoded : str) : option Z :=
  radixValue 16 (firstn 64 (skipn (2 + 64 * i) encoded)).

Definition toArg (a : Z * Z) : AllocationArg :=
  {| index := fst a; amount := snd a |}.

Definition stateArg (st : ChannelState) : StateArg :=
  {| argIntent := intent st;
     argVersion := version st;
     argData := data st;
     argAllocations := map toArg (allocations st) |}.

(** The initial state as the specification gives it. *)
Definition initialState (initialDeposit : option Z) : ChannelState :=
  {| intent := INITIALIZE;
     version := 0;
     data := lit "0x";
     allocations := [(0, match initialDeposit with
                         | Some d => d
                         | None => 0
                         end);
                     (1, 0)] |}.

Section Service.

(** The primitives taken from the viem library and the signing of the
    session-key module. *)
Variable keccak256 : str -> str.
Variable isAddress : str -> bool.
Variable signRequest : Transport.RPCRequest -> Transport.RPCRequest.

(** ABI encoding of the static types involved: one 32-byte word each,
    written as 64 hex digits. [None] stands for the encoder's
    exception. *)
Definition encodeAddress (a : str) : option str :=
  if isAddress a then Some (padStart0 64 (strip0x (toLowerCase a)))
  else None.

Definition encodeUint256 (v : Z) : option str :=
  if (0 <=? v) && (v <? 2 ^ 256) then Some (hexDigits 64 v) else None.

(** [encodeAbiParameters] at
    [address[2], address, uint256, uint256]. *)
Definition encodeAbiParameters (ps : str * str) (adj : str) (ch n : Z)
  : option str :=
  p0 ← encodeAddress (fst ps);
  p1 ← encodeAddress (snd ps);
  a ← encodeAddress adj;
  c ← encodeUint256 ch;
  m ← encodeUint256 n;
  Some (lit "0x" ++ p0 ++ p1 ++ a ++ c ++ m).

Definition computeChannelId (c : Channel) : option str :=
  keccak256 <$>
    encodeAbiParameters (participants c) (adjudicator c) (challenge c)
      (nonce c).

(** The request each operation sends: the id comes from the transport,
    the signature from the session key. *)
Definition buildRequest (method : str) (params : list (str * str)) (now : Z)
    (ws : Transport.Manager) : Transport.RPCRequest * Transport.Manager :=
  let '(requestId, ws') := Transport.getNextRequestId ws in
  (signRequest
     {| Transport.reqId := requestId;
        Transport.reqMethod := method;
        Transport.reqParams := params;
        Transport.reqTimestamp := now;
        Transport.reqSig := [] |}, ws').

Definition createChannelRequest (chain : Z) (token : str) :=
  buildRequest (lit "create_channel")
    [(lit "chain_id", bigintToString chain); (lit "token", token)].

(** [custodyAddresses[chainId]], which must be truthy. *)
Definition custodyFor (custodyAddresses : gmap Z str) (chain : Z)
  : result str :=
  match custodyAddresses !! chain with
  | Some (c :: a) => Ok (c :: a)
  | _ => Fail (lit "Custody address not found for chain "
               ++ bigintToString chain)
  end.

Definition initialAllocations (initialDeposit : option Z) : list (Z * Z) :=
  match initialDeposit with
  | Some d => if d =? 0 then [(0, 0); (1, 0)] else [(0, d); (1, 0)]
  | None => [(0, 0); (1, 0)]
  end.

(** [createChannel] from the clearing node's answer on: the contract
    call it makes and the value it returns once the receipt is there. *)
Definition createChannel (custodyAddresses : gmap Z str) (chain : Z)
    (initialDeposit : option Z) (channelData : CreateChannelData)
  : result (ContractCall * ChannelWithState) :=
  bind (orFail (cdChallenge channelData) (lit "Cannot convert to a BigInt"))
    (fun ch =>
  bind (orFail (cdNonce channelData) (lit "Cannot convert to a BigInt"))
    (fun n =>
  let c := {| participants := cdParticipants channelData;
              adjudicator := cdAdjudicator channelData;
              challenge := ch;
              nonce := n |} in
  let st := {| intent := INITIALIZE;
               version := 0;
               data := lit "0x";
               allocations := initialAllocations initialDeposit |} in
  bind (orFail (computeChannelId c) (lit "Invalid ABI parameter"))
    (fun id =>
  bind (custodyFor custodyAddresses chain)
    (fun custodyAddress =>
  let signatures := [cdUserSignature channelData;
                     cdServerSignature channelData] in
  Ok ({| address := custodyAddress;
         functionName := lit "create";
         argChannelId := id;
         argState := stateArg st;
         argSigs := signatures |},
      {| channel := c;
         channelId := id;
         state := st;
         chainId := chain;
         status := lit "active" |}))))).

Definition resizeChannelRequest (id : str) (delta : Z) :=
  buildRequest (lit "resize_channel")
    [(lit "channel_id", id); (lit "resize_amount", bigintToString delta)].

Definition resizeChannel (custodyAddresses : gmap Z str) (id : str)
    (chain : Z) (resizeData : StateData)
  : result (ContractCall * ChannelState) :=
  bind (orFail (sdVersion resizeData) (lit "Cannot convert to a BigInt"))
    (fun v =>
  bind (orFail (sdAllocations resizeData) (lit "Cannot convert to a BigInt"))
    (fun allocs =>
  let newState := {| intent := RESIZE;
                     version := v;
                     data := sdData resizeData;
                     allocations := allocs |} in
  bind (custodyFor custodyAddresses chain)
    (fun custodyAddress =>
  let signatures := [sdUserSignature resizeData;
                     sdServerSignature resizeData] in
  Ok ({| address := custodyAddress;
         functionName := lit "resize";
         argChannelId := id;
         argState := stateArg newState;
         argSigs := signatures |},
      newState)))).

Definition closeChannelRequest (id fundsDestination : str) :=
  buildRequest (lit "close_channel")
    [(lit "channel_id", id); (lit "funds_destination", fundsDestination)].

Definition closeChannel (custodyAddresses : gmap Z str) (id : str)
    (chain : Z) (closeData : StateData)
  : result (ContractCall * ChannelState) :=
  bind (orFail (sdVersion closeData) (lit "Cannot convert to a BigInt"))
    (fun v =>
  bind (orFail (sdAllocations closeData) (lit "Cannot convert to a BigInt"))
    (fun allocs =>
  let finalState := {| intent := FINALIZE;
                       version := v;
                       data := lit "0x";
                       allocations := allocs |} in
  bind (custodyFor custodyAddresses chain)
    (fun custodyAddress =>
  let signatures := [sdUserSignature closeData;
                     sdServerSignature closeData] in
  Ok ({| address := custodyAddress;
         functionName := lit "close";
         argChannelId := id;
         argState := stateArg finalState;
         argSigs := signatures |},
      finalState)))).

End Service.

End Channels.

(** ** Sample inputs used by the examples below *)

Module Samples.
Import Js.

Definition sampleAmount : Wallet.decimal :=
  {| Wallet.intDigits := lit "12"; Wallet.fracDigits := Some (lit "3456") |}.

Definition usdt : str := lit "0xdAC17F958D2ee523a2206206994597C13D831ec7".
Definition alice : str := lit "0x1111111111111111111111111111111111111111".
Definition bob : str := lit "0x2222222222222222222222222222222222222222".

(** A signer that reports a token balance of 50 USDT and accepts the
    first transfer entry point. *)
Definition fundedAccount : Wallet.Account :=
  {| Wallet.hasTransfer := true;
     Wallet.hasSendToken := false;
     Wallet.hasTransferToken := false;
     Wallet.hasSend := true;
     Wallet.respond := fun _ => Wallet.Returns (Wallet.ResString (lit "0xfeed"));
     Wallet.getAddress := Wallet.Returns alice;
     Wallet.getBalance := Wallet.Returns (lit "7");
     Wallet.getTokenBalance := Some (fun _ => Wallet.Returns (lit "50000000"));
     Wallet.balanceOf := None;
     Wallet.ethCall := None |}.

Definition noPositions : Wallet.Indexer := fun _ => Wallet.Returns None.

(** A signer whose node cannot be reached when the balance is asked
    for. *)
Definition unreachableAccount : Wallet.Account :=
  {| Wallet.hasTransfer := true;
     Wallet.hasSendToken := false;
     Wallet.hasTransferToken := false;
     Wallet.hasSend := true;
     Wallet.respond := fun _ => Wallet.Returns (Wallet.ResString (lit "0xfeed"));
     Wallet.getAddress := Wallet.Returns alice;
     Wallet.getBalance := Wallet.Throws (Wallet.Error (lit "connection refused"));
     Wallet.getTokenBalance := None;
     Wallet.balanceOf := None;
     Wallet.ethCall := None |}.

(** A receipt object that carries neither [hash] nor [txHash]. *)
Definition bareReceipt : Wallet.jsresult :=
  Wallet.ResOther Wallet.VUndefined Wallet.VUndefined (lit "[object Object]").

(** A signer whose [transfer] resolves to such an object. *)
Definition receiptAccount : Wallet.Account :=
  {| Wallet.hasTransfer := true;
     Wallet.hasSendToken := true;
     Wallet.hasTransferToken := true;
     Wallet.hasSend := true;
     Wallet.respond := fun _ => Wallet.Returns bareReceipt;
     Wallet.getAddress := Wallet.Returns alice;
     Wallet.getBalance := Wallet.Returns (lit "7");
     Wallet.getTokenBalance := None;
     Wallet.balanceOf := None;
     Wallet.ethCall := None |}.

Definition defaults : Transport.WebSocketConfig :=
  {| Transport.url := lit "wss://clearnet.yellow.com/ws";
     Transport.cfgReconnectAttempts := None;
     Transport.cfgReconnectDelay := None;
     Transport.cfgMaxReconnectDelay := None;
     Transport.cfgRequestTimeout := None |}.

(** A configuration with a budget of one reconnection. *)
Definition oneRetry : Transport.WebSocketConfig :=
  {| Transport.url := lit "wss://clearnet.yellow.com/ws";
     Transport.cfgReconnectAttempts := Some 1;
     Transport.cfgReconnectDelay := None;
     Transport.cfgMaxReconnectDelay := None;
     Transport.cfgRequestTimeout := None |}.

Definition getLedgerBalances : Transport.RPCRequest :=
  {| Transport.reqId := 7;
     Transport.reqMethod := lit "get_ledger_balances";
     Transport.reqParams := [];
     Transport.reqTimestamp := 1700000000000;
     Transport.reqSig := [lit "0xsig"] |}.

Definition ledgerReply : Transport.RPCResponse :=
  {| Transport.resId := 7;
     Transport.resMethod := lit "get_ledger_balances";
     Transport.resAssets := None;
     Transport.resError := None |}.

(** The clearing node refuses the balance query. *)
Definition ledgerDenied : Transport.RPCResponse :=
  {| Transport.resId := 7;
     Transport.resMethod := lit "error";
     Transport.resAssets := None;
     Transport.resError := Some (lit "denied") |}.

(** A socket on which every write succeeds. *)
Definition reliable : option (Transport.RPCRequest -> bool) :=
  Some (fun _ => true).

(** A connection is lost with a request waiting in the queue, and the
    reconnect timer fires: the state just before the socket re-opens. *)
Definition beforeReopen : list Transport.action :=
  [ Transport.On Transport.OnConnect;
    Transport.Connect reliable;
    Transport.SocketOpen;
    Transport.SocketClose 1006;
    Transport.Send getLedgerBalances;
    Transport.ReconnectTimer reliable ].

(** A second request, and a socket on which only the balance query can
    be written. *)
Definition getChannels : Transport.RPCRequest :=
  {| Transport.reqId := 8;
     Transport.reqMethod := lit "get_channels";
     Transport.reqParams := [];
     Transport.reqTimestamp := 1700000001000;
     Transport.reqSig := [lit "0xsig"] |}.

Definition balancesOnly : option (Transport.RPCRequest -> bool) :=
  Some (fun r => Transport.reqId r =? 7).

(** Two requests are queued while that socket is connecting. *)
Definition queuedOnConnecting : list Transport.action :=
  [ Transport.On Transport.OnConnect;
    Transport.Connect balancesOnly;
    Transport.Send getLedgerBalances;
    Transport.Send getChannels ].

(** [connect] is called a second time while the first socket is still
    connecting, and the first socket closes: its listener clears the
    socket the manager holds. *)
Definition olderSocketClosed : list Transport.action :=
  [ Transport.On Transport.OnConnect;
    Transport.Connect reliable;
    Transport.Send getLedgerBalances;
    Transport.Connect reliable;
    Transport.SocketClose 1006 ].

(** The reconnection budget of [oneRetry] is used up. *)
Definition exhausted : list Transport.action :=
  [ Transport.Connect reliable;
    Transport.SocketClose 1006;
    Transport.ReconnectTimer reliable;
    Transport.SocketClose 1006 ].

(** The state in which the last reconnection is under way, and the one
    after it failed. *)
Definition lastAttempt : Transport.Manager :=
  fst (Transport.run (removelast exhausted) (Transport.new oneRetry)).

Definition failedState : Transport.Manager :=
  fst (Transport.step (Transport.SocketClose 1006) lastAttempt).

(** The link is lost after a first connection; a reconnection is
    pending. *)
Definition lostLink : Transport.Manager :=
  fst (Transport.run
         [ Transport.On Transport.OnConnect;
           Transport.Connect reliable;
           Transport.SocketOpen;
           Transport.SocketClose 1006 ]
         (Transport.new defaults)).

(** Ids are drawn before, between and after a loss of the connection. *)
Definition idsAcrossReconnect : list Transport.action :=
  [ Transport.GetNextRequestId;
    Transport.Connect reliable;
    Transport.SocketOpen;
    Transport.GetNextRequestId;
    Transport.SocketClose 1006;
    Transport.GetNextRequestId;
    Transport.ReconnectTimer reliable;
    Transport.SocketOpen;
    Transport.GetNextRequestId ].

(** A budget of eight reconnections, and a link that drops nine times
    in a row. *)
Definition eightRetries : Transport.WebSocketConfig :=
  {| Transport.url := lit "wss://clearnet.yellow.com/ws";
     Transport.cfgReconnectAttempts := Some 8;
     Transport.cfgReconnectDelay := None;
     Transport.cfgMaxReconnectDelay := None;
     Transport.cfgRequestTimeout := None |}.

Definition nineDrops : list Transport.action :=
  Transport.Connect reliable
  :: flat_map (fun _ => [Transport.SocketClose 1006;
                         Transport.ReconnectTimer reliable])
       (seq 0 9).

(** A channel as the clearing node describes it, and stand-ins for the
    library primitives: every address is accepted and the hash is the
    encoding itself. *)
Definition sampleChannel : Channels.Channel :=
  {| Channels.participants := (alice, bob);
     Channels.adjudicator := usdt;
     Channels.challenge := 3600;
     Channels.nonce := 42 |}.

Definition sameTuple : Channels.Channel :=
  {| Channels.participants := (alice, bob);
     Channels.adjudicator := usdt;
     Channels.challenge := 3600;
     Channels.nonce := 42 |}.

Definition anyAddress : str -> bool := fun _ => true.
Definition plainHash : str -> str := fun encoded => encoded.

Definition createAnswer : Channels.CreateChannelData :=
  {| Channels.cdParticipants := (alice, bob);
     Channels.cdAdjudicator := usdt;
     Channels.cdChallenge := Some 3600;
     Channels.cdNonce := Some 42;
     Channels.cdUserSignature := lit "0xuser";
     Channels.cdServerSignature := lit "0xserver" |}.

Definition custodyOnBase : gmap Z str := {[ 8453 := alice ]}.

End Samples.

(** ** Further notions on the transport *)

Module Link.
Import Js Transport.

(** The requests that an execution wrote to the socket, in order. *)
Definition writtenOf (evs : list event) : list RPCRequest :=
  omap (fun e => match e with Wrote r => Some r | _ => None end) evs.

(** A registered handler belongs to a call whose promise is pending and
    whose timer is armed for the same request id. *)
Definition handlersLive (s : Manager) : Prop :=
  forall id k,
    responseHandlers s !! id = Some k ->
    promises s !! k = None /\ timers s !! k = Some id.

(** The attempt counter stays between 0 and the budget. *)
Definition attemptsBounded (s : Manager) : Prop :=
  0 <= reconnectAttempts s
  /\ (reconnectAttempts s <= maxReconnectAttempts (settings s)
      \/ reconnectAttempts s = 0).

(** What the handler of [send] makes of a response. *)
Definition settlementOf (response : RPCResponse) : settlement :=
  match resError response with
  | Some [] => Rejected (lit "RPC error")
  | Some message => Rejected message
  | None => Resolved response
  end.

End Link.

(** ** Further sample inputs *)

Module MoreSamples.
Import Js.

(** The balance query of [Samples], sent a second time under the same
    request id. *)
Definition retriedBalances : Transport.RPCRequest :=
  {| Transport.reqId := 7;
     Transport.reqMethod := lit "get_ledger_balances";
     Transport.reqParams := [];
     Transport.reqTimestamp := 1700000005000;
     Transport.reqSig := [lit "0xsig2"] |}.

(** A balance query is queued while the link is down. *)
Definition awaitingReply : Transport.Manager :=
  fst (Transport.run
         [ Transport.On Transport.OnConnect;
           Transport.Connect Samples.reliable;
           Transport.SocketOpen;
           Transport.SocketClose 1006;
           Transport.Send Samples.getLedgerBalances ]
         (Transport.new Samples.defaults)).

(** The first connection is up. *)
Definition linkUp : Transport.Manager :=
  fst (Transport.run [Transport.Connect Samples.reliable; Transport.SocketOpen]
         (Transport.new Samples.defaults)).

(** The state in which the listener of an open calls the flush: two
    requests are queued on a socket that takes the first only. *)
Definition flushing : Transport.Manager :=
  Transport.set_connectionState Transport.CONNECTED
    (Transport.markOpen
       (fst (Transport.run Samples.queuedOnConnecting
               (Transport.new Samples.defaults)))).

(** The asset catalogue pushed by the clearing node. *)
Definition assetsPush : Transport.RPCResponse :=
  {| Transport.resId := 0;
     Transport.resMethod := lit "assets";
     Transport.resAssets := Some [lit "usdc"; lit "eth"];
     Transport.resError := None |}.

(** A signer whose [transfer] always throws and that has no other
    entry point. *)
Definition brokenAccount : Wallet.Account :=
  {| Wallet.hasTransfer := true;
     Wallet.hasSendToken := false;
     Wallet.hasTransferToken := false;
     Wallet.hasSend := false;
     Wallet.respond := fun _ => Wallet.Throws (Wallet.Error (lit "nonce too low"));
     Wallet.getAddress := Wallet.Returns Samples.alice;
     Wallet.getBalance := Wallet.Returns (lit "7");
     Wallet.getTokenBalance := None;
     Wallet.balanceOf := None;
     Wallet.ethCall := None |}.

(** A signer whose entry points resolve to [undefined]. *)
Definition silentAccount : Wallet.Account :=
  {| Wallet.hasTransfer := true;
     Wallet.hasSendToken := true;
     Wallet.hasTransferToken := true;
     Wallet.hasSend := true;
     Wallet.respond := fun _ => Wallet.Returns (Wallet.ResNullish false);
     Wallet.getAddress := Wallet.Returns Samples.alice;
     Wallet.getBalance := Wallet.Returns (lit "7");
     Wallet.getTokenBalance := None;
     Wallet.balanceOf := None;
     Wallet.ethCall := None |}.

End MoreSamples.

(** ** Reading history and token metadata (wallet service) *)

Module Portfolio.
Import Js.

(** [s || d] on an optional string: missing and empty are falsy. *)
Definition orText (o : option str) (d : str) : str :=
  match o with
  | Some (c :: r) => c :: r
  | _ => d
  end.

(** A truthy string, or nothing. *)
Definition nonEmpty (o : option str) : option str :=
  match o with
  | Some (c :: r) => Some (c :: r)
  | _ => None
  end.

(** [n || null] on an optional number: missing and 0 are falsy. *)
Definition truthyNumber (o : option Z) : option Z :=
  match o with
  | Some 0 => None
  | _ => o
  end.

(** [s.toLowerCase()] on Latin-1 code units: the letters A-Z and the
    accented capitals U+00C0-U+00DE, the multiplication sign apart. *)
Definition lowerChar (c : ascii) : ascii :=
  let n := nat_of_ascii c in
  if (((65 <=? n) && (n <=? 90))
      || ((192 <=? n) && (n <=? 222) && negb (n =? 215)))%nat
  then ascii_of_nat (n + 32) else c.

Definition lower (s : str) : str := map lowerChar s.

(** *** Amounts of the indexer *)

(** [quantity] of a position or transfer: [int] and [decimals]. *)
Record Quantity := { quantityInt : option str; quantityDecimals : option Z }.

(** [`${intPart}${'0'.repeat(Math.max(0, 18 - decimals))}`] with
    [intPart = quantity.int || '0'] and
    [decimals = quantity.decimals || 0] (an integer). *)
Definition normalize18 (q : Quantity) : str :=
  let intPart := orText (quantityInt q) (lit "0") in
  let decimals := default 0 (quantityDecimals q) in
  intPart ++ zeros (Z.to_nat (Z.max 0 (18 - decimals))).

(** *** Transactions of the indexer *)

Inductive Status := success | failed | pending.

Record Transfer := {
  fungibleSymbol : option str;     (* fungible_info?.symbol *)
  quantity : option Quantity;
  transferTo : option str;         (* to?.address *)
}.

Record Attributes := {
  hash : option str;
  status : option str;
  block_confirmations : option Z;
  mined_at : option Z;
  sent_at : option Z;
  block_number : option Z;
  transfers : option (list Transfer);
  feeValue : option str;           (* the text of a truthy fee?.value *)
}.

Record ZerionTx := {
  txId : option str;
  attributes : option Attributes;
  chainData : option str;          (* relationships?.chain?.data?.id *)
}.

(** [tx.attributes || {}] *)
Definition attributesOf (tx : ZerionTx) : Attributes :=
  default {| hash := None; status := None; block_confirmations := None;
             mined_at := None; sent_at := None; block_number := None;
             transfers := None; feeValue := None |}
          (attributes tx).

Record Transaction := {
  txHash : str;
  txFrom : str;
  txTo : option str;
  txValue : str;
  timestamp : option Z;
  blockNumber : option Z;
  txStatus : Status;
  chain : str;
  tokenSymbol : option str;
  tokenAddress : option str;
}.

(** The status of a transaction: an explicit status decides, whatever
    the confirmations; without one, a positive confirmation count means
    success. *)
Definition statusOf (attrs : Attributes) : Status :=
  match status attrs with
  | Some (c :: r) =>
      let statusLower := lower (c :: r) in
      if eqb statusLower (lit "confirmed") || eqb statusLower (lit "success")
      then success
      else if eqb statusLower (lit "failed") || eqb statusLower (lit "error")
      then failed
      else pending
  | _ =>
      match block_confirmations attrs with
      | Some n => if 0 <? n then success else pending
      | None => pending
      end
  end.

(** [attrs.mined_at || attrs.sent_at || null] *)
Definition timestampOf (attrs : Attributes) : option Z :=
  match truthyNumber (mined_at attrs) with
  | Some t => Some t
  | None => truthyNumber (sent_at attrs)
  end.

(** Symbol, value and recipient of the first transfer. *)
Definition firstTransfer (tr : Transfer) : option str * str * option str :=
  (fungibleSymbol tr,
   match quantity tr with
   | Some q => normalize18 q
   | None => lit "0"
   end,
   nonEmpty (transferTo tr)).

(** One transaction of [getTransactionsAny]: its key in the map and its
    entry, or nothing when it has no hash. *)
Definition anyEntry (tx : ZerionTx) : option (str * Transaction) :=
  let attrs := attributesOf tx in
  let chainId := orText (option_map lower (chainData tx)) (lit "unknown") in
  let hash := lower (orText (hash attrs) (orText (txId tx) [])) in
  match hash with
  | [] => None
  | _ =>
      let '(symbol, value, toAddress) :=
        match default [] (transfers attrs) with
        | tr :: _ => firstTransfer tr
        | [] => (None, lit "0", None)
        end in
      Some (chainId ++ lit ":" ++ hash,
            {| txHash := hash;
               txFrom := [];
               txTo := toAddress;
               txValue := value;
               timestamp := timestampOf attrs;
               blockNumber := truthyNumber (block_number attrs);
               txStatus := statusOf attrs;
               chain := chainId;
               tokenSymbol := symbol;
               tokenAddress := None |})
  end.

(** [byKey.has(key)] on a [Map] kept in insertion order. *)
Definition has {V : Type} (key : str) (byKey : list (str * V)) : bool :=
  existsb (fun kv => eqb (fst kv) key) byKey.

(** [if (!byKey.has(key)) byKey.set(key, entry)] *)
Definition setIfAbsent {V : Type} (byKey : list (str * V)) (kv : str * V)
  : list (str * V) :=
  if has (fst kv) byKey then byKey else byKey ++ [kv].

Definition mergeStep (byKey : list (str * Transaction)) (tx : ZerionTx)
  : list (str * Transaction) :=
  match anyEntry tx with
  | Some kv => setIfAbsent byKey kv
  | None => byKey
  end.

(** [getTransactionsAny] on the lists fetched for the target addresses,
    in the order of the addresses: [Array.from(byKey.values())]. *)
Definition getTransactionsAny (perAddr : list (list ZerionTx))
  : list Transaction :=
  map snd (fold_left mergeStep (concat perAddr) []).

(** The key under which an entry sits in the map. *)
Definition keyOf (t : Transaction) : str := chain t ++ lit ":" ++ txHash t.

(** One transaction of [getTransactionHistory]. *)
Definition historyEntry (address chainName : str) (zerionTx : ZerionTx)
  : Transaction :=
  let attrs := attributesOf zerionTx in
  let '(symbol, value, toAddress) :=
    match default [] (transfers attrs) with
    | tr :: _ => firstTransfer tr
    | [] => (None, orText (feeValue attrs) (lit "0"), None)
    end in
  {| txHash := orText (hash attrs) (orText (txId zerionTx) []);
     txFrom := address;
     txTo := toAddress;
     txValue := value;
     timestamp := timestampOf attrs;
     blockNumber := truthyNumber (block_number attrs);
     txStatus := statusOf attrs;
     chain := chainName;
     tokenSymbol := symbol;
     tokenAddress := None |}.

(** [getTransactionHistory]: [address] is [addresses[chain]] and
    [fetched] the answer of the indexer; only a [BadRequestException]
    leaves the function. *)
Definition getTransactionHistory (address : Wallet.outcome (option str))
    (fetched : Wallet.outcome (option (list ZerionTx))) (chainName : str)
  : Wallet.outcome (list Transaction) :=
  let caught e :=
    match e with
    | Wallet.BadRequestException _ => Wallet.Throws e
    | _ => Wallet.Returns []
    end in
  match address with
  | Wallet.Throws e => caught e
  | Wallet.Returns (Some (c :: r)) =>
      match fetched with
      | Wallet.Throws e => caught e
      | Wallet.Returns (Some l) =>
          Wallet.Returns (map (historyEntry (c :: r) chainName) l)
      | Wallet.Returns None => Wallet.Returns []
      end
  | Wallet.Returns _ => Wallet.Returns []
  end.

(** *** WalletConnect chain identifiers *)

(** [chainId.match(/^eip155:(\d+)$/)]: the captured digits. *)
Definition chainIdMatch (chainId : str) : option str :=
  if startsWith (lit "eip155:") chainId
  then let digits := skipn 7 chainId in
       if testDigits digits then Some digits else None
  else None.

Definition chainIdMap (numericChainId : Z) : option str :=
  if numericChainId =? 1 then Some (lit "ethereumErc4337")
  else if numericChainId =? 8453 then Some (lit "baseErc4337")
  else if numericChainId =? 42161 then Some (lit "arbitrumErc4337")
  else if numericChainId =? 137 then Some (lit "polygonErc4337")
  else None.

Section WalletConnect.

(** The text of a number inside a template literal. *)
Variable numberToString : Z -> str.

(** The chain resolution of [signWalletConnectTransaction].
    [parseInt(digits, 10)] is the value of the digits; beyond 2^53 it is
    rounded, to a number that is no key of the map either. *)
Definition internalChain (chainId : str) : Wallet.outcome str :=
  match chainIdMatch chainId with
  | None =>
      Wallet.Throws
        (Wallet.BadRequestException
           (lit "Invalid WalletConnect chain ID format: " ++ chainId
            ++ lit ". Expected format: eip155:chainId"))
  | Some digits =>
      let numericChainId := digitsValue digits in
      match chainIdMap numericChainId with
      | Some name => Wallet.Returns name
      | None =>
          Wallet.Throws
            (Wallet.BadRequestException
               (lit "Unsupported chain ID: " ++ numberToString numericChainId
                ++ lit ". Supported chains: Ethereum (1), Base (8453), Arbitrum (42161), Polygon (137)"))
      end
  end.

End WalletConnect.

(** *** Decoding an ABI string *)

Definition isHexDigit (c : ascii) : bool :=
  match hexVal c with Some _ => true | None => false end.

Fixpoint takeWhile (p : ascii -> bool) (s : str) : str :=
  match s with
  | [] => []
  | c :: r => if p c then c :: takeWhile p r else []
  end.

(** [parseInt(s, 16)]: leading white space, a sign and a prefix 0x are
    skipped, then the longest run of hexadecimal digits is read; [None]
    is NaN. *)
Definition parseInt16 (s : str) : option Z :=
  let t := dropWhile isSpace s in
  let '(negative, unsigned) :=
    match t with
    | c :: r =>
        if Ascii.eqb c "-"%char then (true, r)
        else if Ascii.eqb c "+"%char then (false, r)
        else (false, t)
    | [] => (false, [])
    end in
  let body :=
    if startsWith (lit "0x") unsigned || startsWith (lit "0X") unsigned
    then skipn 2 unsigned else unsigned in
  match takeWhile isHexDigit body with
  | [] => None
  | digits =>
      option_map (fun v => if negative then - v else v)
                 (radixValue 16 digits)
  end.

(** [s.slice(start, end)] on integers: a negative index counts from the
    end, and both are clamped to the string. *)
Definition slice (s : str) (start finish : Z) : str :=
  let len := Z.of_nat (length s) in
  let from := if start <? 0 then Z.max (len + start) 0 else Z.min start len in
  let to := if finish <? 0 then Z.max (len + finish) 0 else Z.min finish len in
  firstn (Z.to_nat (to - from)) (skipn (Z.to_nat from) s).

(** [String.fromCharCode(charCode)] when [charCode > 0], for one or two
    hexadecimal digits. *)
Definition charOf (charCode : option Z) : str :=
  match charCode with
  | Some n => if 0 <? n then [ascii_of_nat (Z.to_nat n)] else []
  | None => []
  end.

(** The loop over [stringHex], two characters at a time. *)
Fixpoint decodeChars (stringHex : str) : str :=
  match stringHex with
  | [] => []
  | [c] => charOf (parseInt16 [c])
  | c1 :: c2 :: rest => charOf (parseInt16 [c1; c2]) ++ decodeChars rest
  end.

(** [decodeStringFromHex]. The length word is read exactly: a value
    that a double would round lies beyond either end of the string. A
    NaN length makes the end of the slice 0. *)
Definition decodeStringFromHex (hex : str) : str :=
  let hexWithoutPrefix := strip0x hex in
  let length := parseInt16 (slice hexWithoutPrefix 64 128) in
  let stringHex :=
    match length with
    | Some n => slice hexWithoutPrefix 128 (128 + n * 2)
    | None => slice hexWithoutPrefix 128 0
    end in
  orText (Some (decodeChars stringHex)) (lit "UNKNOWN").

(** Two lowercase hexadecimal digits of a character code. *)
Definition byteHex (c : ascii) : str :=
  let n := Z.of_nat (nat_of_ascii c) in
  [Channels.hexChar (n / 16); Channels.hexChar (n mod 16)].

Definition isNul (c : ascii) : bool := Ascii.eqb c zero.

End Portfolio.

(** ** Decimals of the asset to send (wallet service) *)

Module Decimals.
Import Js.

(** One entry of the indexer's any-chain positions, as the resolution
    of decimals reads it; [fungibleDecimals] is
    [attributes.fungible_info.decimals] when that is a number. *)
Record TokenInfo := {
  implementation : option str;
  positionChain : option str;
  fungibleDecimals : option Z;
}.

(** [zerionService.getPositionsAnyChain(addr)], then [?.data]. *)
Definition Metadata := str -> Wallet.outcome (option (list TokenInfo)).

(** [d >= 0 && d <= 36] *)
Definition plausible (d : Z) : bool := (0 <=? d) && (d <=? 36).

(** The call of [decimals()] through the provider: the selector is
    0x313ce567, and the answers 0x and 0x0 are set aside before the
    result is parsed. An exception is swallowed. *)
Definition rpcDecimals (account : Wallet.Account) (tokenAddress : str)
  : option Z :=
  match Wallet.ethCall account with
  | Some request =>
      match request tokenAddress (lit "0x313ce567") with
      | Wallet.Returns (Some result) =>
          if negb (eqb result (lit "0x")) && negb (eqb result (lit "0x0"))
          then match Portfolio.parseInt16 result with
               | Some parsed => if plausible parsed then Some parsed else None
               | None => None
               end
          else None
      | _ => None
      end
  | None => None
  end.

(** The indexer's metadata for the token on the chain; an exception is
    swallowed. *)
Definition zerionDecimals (account : Wallet.Account) (metadata : Metadata)
    (chain tokenAddress : str) : option Z :=
  match Wallet.getAddress account with
  | Wallet.Returns addr =>
      match metadata addr with
      | Wallet.Returns (Some positions) =>
          match find (fun p =>
                        Wallet.optEqb
                          (option_map Portfolio.lower (implementation p))
                          (Portfolio.lower tokenAddress)
                        && Wallet.optEqb (positionChain p)
                                         (Wallet.zerionChain chain))
                     positions with
          | Some found =>
              match fungibleDecimals found with
              | Some d => if plausible d then Some d else None
              | None => None
              end
          | None => None
          end
      | _ => None
      end
  | Wallet.Throws _ => None
  end.

(** [tokenDecimals] and [decimalsSource] as [sendCrypto] settles them
    before it converts the amount. *)
Definition resolveDecimals (account : Wallet.Account) (metadata : Metadata)
    (chain : str) (tokenAddress : option str) : Z * str :=
  match Wallet.tokenOf tokenAddress with
  | Some token =>
      match rpcDecimals account token with
      | Some d => (d, lit "rpc-decimals()")
      | None =>
          match zerionDecimals account metadata chain token with
          | Some d => (d, lit "zerion-positions-any")
          | None => (18, lit "fallback-18")
          end
      end
  | None => (Z.of_nat (Wallet.getNativeTokenDecimals chain), lit "native")
  end.

End Decimals.

(** ** Queries to the clearing node *)

Module Queries.
Import Js.

Record AppDefinition := {
  protocol : str;
  participants : list str;
  weights : list Z;
  quorum : Z;
  challenge : Z;
  nonce : Z;
}.

(** The definition as the clearing node sends it. *)
Record RawDefinition := {
  rawProtocol : str;
  rawParticipants : option (list str);
  rawWeights : option (list Z);
  rawQuorum : Z;
  rawChallenge : Z;
  rawNonce : Z;
}.

(** The session as the clearing node sends it. *)
Record RawSession := {
  raw_app_session_id : str;
  raw_status : str;
  raw_version : Z;
  raw_session_data : str;
  raw_allocations : option (list (str * str * str));
  raw_definition : option AppDefinition;
  created_at : str;
  updated_at : str;
  closed_at : option str;
}.

(** Dates are kept as the text they are built from. *)
Record AppSession := {
  app_session_id : str;
  status : str;
  version : Z;
  session_data : str;
  allocations : list (str * str * str);
  definition : option AppDefinition;
  createdAt : str;
  updatedAt : str;
  closedAt : option str;
}.

Definition toSession (s : RawSession) : AppSession :=
  {| app_session_id := raw_app_session_id s;
     status := raw_status s;
     version := raw_version s;
     session_data := raw_session_data s;
     allocations := default [] (raw_allocations s);
     definition := raw_definition s;
     createdAt := created_at s;
     updatedAt := updated_at s;
     closedAt := Portfolio.nonEmpty (closed_at s) |}.

Definition toDefinition (d : RawDefinition) : AppDefinition :=
  {| protocol := rawProtocol d;
     participants := default [] (rawParticipants d);
     weights := default [] (rawWeights d);
     quorum := rawQuorum d;
     challenge := rawChallenge d;
     nonce := rawNonce d |}.

(** [{ ...session, definition }] *)
Definition withDefinition (d : AppDefinition) (s : AppSession) : AppSession :=
  {| app_session_id := app_session_id s;
     status := status s;
     version := version s;
     session_data := session_data s;
     allocations := allocations s;
     definition := Some d;
     createdAt := createdAt s;
     updatedAt := updatedAt s;
     closedAt := closedAt s |}.

(** The service runs against the request counter of the transport and
    leaves the requests it hands to [ws.send]. *)
Record Run (A : Type) := {
  counter : Z;
  sent : list Transport.RPCRequest;
  result : Wallet.outcome A;
}.
Arguments counter {A} _.
Arguments sent {A} _.
Arguments result {A} _.

Section Service.

(** [auth.signRequest] *)
Variable signRequest : Transport.RPCRequest -> Transport.RPCRequest.

(** What [ws.send] settles with, read as the payload the caller maps:
    a rejection, or a payload on which the mapping throws, is [Throws]. *)
Variable sessionsReply :
  Transport.RPCRequest -> Wallet.outcome (list RawSession).
Variable definitionReply :
  Transport.RPCRequest -> Wallet.outcome RawDefinition.

(** [getAppSessions(status, participant)] at time [now]; an empty
    filter is not sent. *)
Definition getAppSessions (statusFilter participant : option str)
    (now : Z) (requestIdCounter : Z) : Run (list AppSession) :=
  let params :=
    match Portfolio.nonEmpty statusFilter with
    | Some s => [(lit "status", s)]
    | None => []
    end
    ++ match Portfolio.nonEmpty participant with
       | Some p => [(lit "participant", p)]
       | None => []
       end in
  let request :=
    signRequest
      {| Transport.reqId := requestIdCounter;
         Transport.reqMethod := lit "get_app_sessions";
         Transport.reqParams := params;
         Transport.reqTimestamp := now;
         Transport.reqSig := [] |} in
  {| counter := Transport.jsSucc requestIdCounter;
     sent := [request];
     result :=
       match sessionsReply request with
       | Wallet.Returns l => Wallet.Returns (map toSession l)
       | Wallet.Throws e => Wallet.Throws e
       end |}.

(** [getAppDefinition(appSessionId)]: a public method, sent unsigned. *)
Definition getAppDefinition (appSessionId : str) (now : Z)
    (requestIdCounter : Z) : Run AppDefinition :=
  let request :=
    {| Transport.reqId := requestIdCounter;
       Transport.reqMethod := lit "get_app_definition";
       Transport.reqParams := [(lit "app_session_id", appSessionId)];
       Transport.reqTimestamp := now;
       Transport.reqSig := [] |} in
  {| counter := Transport.jsSucc requestIdCounter;
     sent := [request];
     result :=
       match definitionReply request with
       | Wallet.Returns d => Wallet.Returns (toDefinition d)
       | Wallet.Throws e => Wallet.Throws e
       end |}.

(** [getAppSession(appSessionId)]; [now1] and [now2] are the times of
    the two requests. *)
Definition getAppSession (appSessionId : str) (now1 now2 : Z)
    (requestIdCounter : Z) : Run AppSession :=
  let sessions := getAppSessions None None now1 requestIdCounter in
  match result sessions with
  | Wallet.Throws e =>
      {| counter := counter sessions; sent := sent sessions;
         result := Wallet.Throws e |}
  | Wallet.Returns l =>
      match find (fun s => eqb (app_session_id s) appSessionId) l with
      | None =>
          {| counter := counter sessions; sent := sent sessions;
             result :=
               Wallet.Throws
                 (Wallet.Error (lit "App session " ++ appSessionId
                                ++ lit " not found")) |}
      | Some session =>
          let fetched := getAppDefinition appSessionId now2 (counter sessions) in
          {| counter := counter fetched;
             sent := sent sessions ++ sent fetched;
             result :=
               match result fetched with
               | Wallet.Returns d =>
                   Wallet.Returns (withDefinition d session)
               | Wallet.Throws _ => Wallet.Returns session
               end |}
      end
  end.

End Service.

End Queries.

(** ** Sample answers of the clearing node *)

Module NodeSamples.
Import Js.

Definition sessionId : str := lit "0xa11ce5e5510".

Definition openSession : Queries.RawSession :=
  {| Queries.raw_app_session_id := sessionId;
     Queries.raw_status := lit "open";
     Queries.raw_version := 3;
     Queries.raw_session_data := [];
     Queries.raw_allocations := None;
     Queries.raw_definition := None;
     Queries.created_at := lit "2025-01-01T00:00:00Z";
     Queries.updated_at := lit "2025-01-02T00:00:00Z";
     Queries.closed_at := None |}.

(** A later entry of the list under the same identifier. *)
Definition closedTwin : Queries.RawSession :=
  {| Queries.raw_app_session_id := sessionId;
     Queries.raw_status := lit "closed";
     Queries.raw_version := 9;
     Queries.raw_session_data := [];
     Queries.raw_allocations := None;
     Queries.raw_definition := None;
     Queries.created_at := lit "2024-06-01T00:00:00Z";
     Queries.updated_at := lit "2024-06-02T00:00:00Z";
     Queries.closed_at := Some (lit "2024-06-02T00:00:00Z") |}.

Definition sign (r : Transport.RPCRequest) : Transport.RPCRequest :=
  {| Transport.reqId := Transport.reqId r;
     Transport.reqMethod := Transport.reqMethod r;
     Transport.reqParams := Transport.reqParams r;
     Transport.reqTimestamp := Transport.reqTimestamp r;
     Transport.reqSig := [lit "0xsig"] |}.

Definition oneSession (_ : Transport.RPCRequest)
  : Wallet.outcome (list Queries.RawSession) :=
  Wallet.Returns [openSession; closedTwin].

Definition noDefinition (_ : Transport.RPCRequest)
  : Wallet.outcome Queries.RawDefinition :=
  Wallet.Throws (Wallet.Error (lit "Request timeout: get_app_definition")).

(** A signer whose provider answers every call with the given text. *)
Definition answering (result : str) : Wallet.Account :=
  {| Wallet.hasTransfer := true;
     Wallet.hasSendToken := false;
     Wallet.hasTransferToken := false;
     Wallet.hasSend := false;
     Wallet.respond := fun _ => Wallet.Returns (Wallet.ResString (lit "0xhash"));
     Wallet.getAddress := Wallet.Returns Samples.alice;
     Wallet.getBalance := Wallet.Returns (lit "7");
     Wallet.getTokenBalance := None;
     Wallet.balanceOf := None;
     Wallet.ethCall := Some (fun _ _ => Wallet.Returns (Some result)) |}.

Definition noMetadata : Decimals.Metadata := fun _ => Wallet.Returns None.

(** One transfer as the indexer reports it for the owner account and,
    with the hash in capitals, for the smart account; and a transaction
    without hash or id. *)
Definition reported (hash : option str) : Portfolio.ZerionTx :=
  {| Portfolio.txId := None;
     Portfolio.attributes :=
       Some {| Portfolio.hash := hash;
               Portfolio.status := Some (lit "confirmed");
               Portfolio.block_confirmations := None;
               Portfolio.mined_at := Some 1700000000;
               Portfolio.sent_at := None;
               Portfolio.block_number := Some 19000000;
               Portfolio.transfers := None;
               Portfolio.feeValue := None |};
     Portfolio.chainData := Some (lit "base") |}.

Definition fetchedLists : list (list Portfolio.ZerionTx) :=
  [ [reported (Some (lit "0xabc1")); reported None];
    [reported (Some (lit "0xABC1"))] ].

End NodeSamples.

(** * Properties *)

Section JsStringFacts.
Import Js.

Lemma dropWhile_stable (p : ascii -> bool) (s : str) :
  forallb (fun c => negb (p c)) s = true -> dropWhile p s = s.
Proof.
  destruct s as [|c r]; simpl; [reflexivity|].
  intros H. apply andb_prop in H as [Hc _].
  destruct (p c); [discriminate | reflexivity].
Qed.

Lemma forallb_rev (p : ascii -> bool) (s : str) :
  forallb p s = true -> forallb p (rev s) = true.
Proof.
  rewrite !forallb_forall. intros H x Hx. apply H. now apply in_rev.
Qed.

Lemma trim_stable (s : str) :
  forallb (fun c => negb (isSpace c)) s = true -> trim s = s.
Proof.
  intros H. unfold trim.
  rewrite (dropWhile_stable _ s H).
  rewrite (dropWhile_stable _ (rev s) (forallb_rev _ _ H)).
  apply rev_involutive.
Qed.

Lemma isDigit_range (c : ascii) :
  isDigit c = true -> 0 <= digitVal c <= 9.
Proof.
  unfold isDigit, digitVal. intros H.
  apply andb_prop in H as [H1 H2].
  apply Nat.leb_le in H1. apply Nat.leb_le in H2. lia.
Qed.

Lemma isDigit_not_space (c : ascii) : isDigit c = true -> isSpace c = false.
Proof.
  unfold isDigit, isSpace. intros H.
  apply andb_prop in H as [H1 H2].
  apply Nat.leb_le in H1. apply Nat.leb_le in H2.
  repeat (apply orb_false_intro); apply Nat.eqb_neq; lia.
Qed.

Lemma isDigit_not_point (c : ascii) :
  isDigit c = true -> Ascii.eqb c "."%char = false.
Proof.
  intros H. apply Ascii.eqb_neq. intros ->. discriminate H.
Qed.

Lemma split_no_point (s : str) :
  allDigits s = true -> split "."%char s = [s].
Proof.
  induction s as [|c r IH]; simpl; [reflexivity|].
  intros H. apply andb_prop in H as [Hc Hr].
  rewrite (isDigit_not_point c Hc), (IH Hr). reflexivity.
Qed.

Lemma split_at_point (w f : str) :
  allDigits w = true ->
  split "."%char (w ++ "."%char :: f) = w :: split "."%char f.
Proof.
  induction w as [|c r IH]; simpl; [reflexivity|].
  intros H. apply andb_prop in H as [Hc Hr].
  rewrite (isDigit_not_point c Hc), (IH Hr). reflexivity.
Qed.

Lemma digitsValue_from (s : str) (acc : Z) :
  fold_left (fun a c => 10 * a + digitVal c) s acc
  = acc * 10 ^ Z.of_nat (length s) + digitsValue s.
Proof.
  unfold digitsValue. revert acc.
  induction s as [|c r IH]; intros acc; simpl fold_left.
  - simpl. lia.
  - rewrite IH, (IH (10 * 0 + digitVal c)).
    change (length (c :: r)) with (S (length r)).
    rewrite Nat2Z.inj_succ, Z.pow_succ_r by lia. ring.
Qed.

Lemma digitsValue_app (a b : str) :
  digitsValue (a ++ b)
  = digitsValue a * 10 ^ Z.of_nat (length b) + digitsValue b.
Proof.
  unfold digitsValue at 1. rewrite fold_left_app.
  fold (digitsValue a). apply digitsValue_from.
Qed.

Lemma digitsValue_cons (c : ascii) (r : str) :
  digitsValue (c :: r)
  = digitVal c * 10 ^ Z.of_nat (length r) + digitsValue r.
Proof.
  change (c :: r) with ([c] ++ r). rewrite digitsValue_app.
  unfold digitsValue at 1. simpl. reflexivity.
Qed.

Lemma digitsValue_bounds (s : str) :
  allDigits s = true -> 0 <= digitsValue s < 10 ^ Z.of_nat (length s).
Proof.
  induction s as [|c r IH]; intros H.
  - cbn. lia.
  - apply andb_prop in H as [Hc Hr].
    rewrite digitsValue_cons.
    change (length (c :: r)) with (S (length r)).
    rewrite Nat2Z.inj_succ, Z.pow_succ_r by lia.
    pose proof (isDigit_range c Hc) as Hd. specialize (IH Hr).
    assert (0 < 10 ^ Z.of_nat (length r)) by (apply Z.pow_pos_nonneg; lia).
    set (P := 10 ^ Z.of_nat (length r)) in *. clearbody P.
    assert (digitVal c * P <= 9 * P)
      by (apply Z.mul_le_mono_nonneg_r; lia).
    assert (0 <= digitVal c * P) by (apply Z.mul_nonneg_nonneg; lia).
    lia.
Qed.

Lemma digitsValue_zeros (n : nat) : digitsValue (zeros n) = 0.
Proof.
  induction n as [|n IH]; [reflexivity|].
  unfold zeros in *. simpl repeat. rewrite digitsValue_cons, IH.
  replace (digitVal "0"%char) with 0 by reflexivity. lia.
Qed.

Lemma digitsValue_strip (s : str) :
  digitsValue (stripLeadingZeros s) = digitsValue s.
Proof.
  induction s as [|c r IH]; [reflexivity|].
  unfold stripLeadingZeros in *. simpl.
  destruct (isZeroChar c) eqn:E; [|reflexivity].
  apply Ascii.eqb_eq in E. subst c.
  rewrite IH, digitsValue_cons.
  replace (digitVal "0"%char) with 0 by reflexivity. lia.
Qed.

Lemma digitsValue_orZero (s : str) : digitsValue (orZero s) = digitsValue s.
Proof. destruct s; reflexivity. Qed.

Lemma allDigits_app (a b : str) :
  allDigits (a ++ b) = allDigits a && allDigits b.
Proof. apply forallb_app. Qed.

Lemma allDigits_zeros (n : nat) : allDigits (zeros n) = true.
Proof. induction n; [reflexivity | assumption]. Qed.

Lemma allDigits_firstn (n : nat) (s : str) :
  allDigits s = true -> allDigits (firstn n s) = true.
Proof.
  revert s. induction n as [|n IH]; intros [|c r] H; try reflexivity.
  apply andb_prop in H as [Hc Hr]. simpl.
  rewrite Hc. apply IH, Hr.
Qed.

Lemma allDigits_strip (s : str) :
  allDigits s = true -> allDigits (stripLeadingZeros s) = true.
Proof.
  induction s as [|c r IH]; [reflexivity|].
  intros H. unfold stripLeadingZeros. simpl.
  destruct (isZeroChar c); [|exact H].
  apply andb_prop in H as [_ Hr]. apply IH, Hr.
Qed.

Lemma allDigits_orZero (s : str) :
  allDigits s = true -> allDigits (orZero s) = true.
Proof. destruct s; [reflexivity | trivial]. Qed.

End JsStringFacts.

Section ToSmallest.
Import Js Wallet.

Lemma firstn_zeros (k n : nat) : (k <= n)%nat -> firstn k (zeros n) = zeros k.
Proof.
  revert n. induction k as [|k IH]; intros [|n] H; try reflexivity; [lia|].
  unfold zeros in *. simpl. f_equal. apply IH. lia.
Qed.

Lemma slice_padded (f : str) (d : nat) :
  slice0 d (f ++ zeros d) = padOrTruncate f d.
Proof.
  unfold slice0, padOrTruncate. rewrite firstn_app.
  destruct (Nat.leb_spec d (length f)) as [Hle|Hgt].
  - replace (d - length f)%nat with 0%nat by lia.
    simpl. apply app_nil_r.
  - rewrite firstn_all2 by lia.
    rewrite firstn_zeros by lia. reflexivity.
Qed.

Lemma padOrTruncate_length (f : str) (d : nat) :
  length (padOrTruncate f d) = d.
Proof.
  unfold padOrTruncate.
  destruct (Nat.leb_spec d (length f)) as [Hle|Hgt].
  - apply firstn_length_le, Hle.
  - rewrite length_app. unfold zeros. rewrite repeat_length. lia.
Qed.

Lemma padOrTruncate_digits (f : str) (d : nat) :
  allDigits f = true -> allDigits (padOrTruncate f d) = true.
Proof.
  intros H. unfold padOrTruncate. destruct (d <=? length f)%nat.
  - now apply allDigits_firstn.
  - rewrite allDigits_app, H, allDigits_zeros. reflexivity.
Qed.

(** Truncating a digit string to its first [d] digits divides its value
    by the dropped power of ten; padding multiplies it. *)
Lemma padOrTruncate_value (f : str) (d : nat) :
  allDigits f = true ->
  digitsValue (padOrTruncate f d)
  = (digitsValue f * 10 ^ Z.of_nat d) / 10 ^ Z.of_nat (length f).
Proof.
  intros Hf. unfold padOrTruncate.
  destruct (Nat.leb_spec d (length f)) as [Hle|Hgt].
  - pose proof (firstn_skipn d f) as Hsplit.
    assert (Hlen : length (skipn d f) = (length f - d)%nat)
      by apply length_skipn.
    assert (Hv : digitsValue f
                 = digitsValue (firstn d f) * 10 ^ Z.of_nat (length f - d)
                   + digitsValue (skipn d f)).
    { rewrite <- Hsplit at 1. rewrite digitsValue_app, Hlen. reflexivity. }
    assert (Hsk : allDigits (skipn d f) = true).
    { rewrite <- Hsplit in Hf. rewrite allDigits_app in Hf.
      apply andb_prop in Hf as [_ H]. exact H. }
    apply digitsValue_bounds in Hsk. rewrite Hlen in Hsk.
    replace (Z.of_nat (length f)) with (Z.of_nat (length f - d) + Z.of_nat d)
      by lia.
    rewrite Z.pow_add_r by lia.
    rewrite Z.div_mul_cancel_r
      by (apply Z.pow_nonzero; lia).
    apply Z.div_unique with (r := digitsValue (skipn d f)).
    + left. exact Hsk.
    + rewrite Hv. ring.
  - rewrite digitsValue_app, digitsValue_zeros.
    unfold zeros. rewrite repeat_length.
    assert (E : 10 ^ Z.of_nat d
                = 10 ^ Z.of_nat (d - length f) * 10 ^ Z.of_nat (length f)).
    { rewrite <- Z.pow_add_r by lia. f_equal. lia. }
    rewrite E.
    rewrite Z.mul_assoc, Z.div_mul by (apply Z.pow_nonzero; lia).
    lia.
Qed.

Lemma floor_amount (a : decimal) (d : nat) :
  Qfloor (amountValue a * pow10 d)
  = digitsValue (intDigits a) * 10 ^ Z.of_nat d
    + (digitsValue (fracOf a) * 10 ^ Z.of_nat d)
      / 10 ^ Z.of_nat (length (fracOf a)).
Proof.
  unfold amountValue, pow10, inject_Z, Qmult, Qfloor. simpl Qnum. simpl Qden.
  rewrite Pos.mul_1_r.
  assert (Hp : 0 < 10 ^ Z.of_nat (length (fracOf a)))
    by (apply Z.pow_pos_nonneg; lia).
  rewrite Z2Pos.id by exact Hp.
  set (L := 10 ^ Z.of_nat (length (fracOf a))) in *.
  set (D := 10 ^ Z.of_nat d).
  replace ((digitsValue (intDigits a) * L + digitsValue (fracOf a)) * D)
    with (digitsValue (intDigits a) * D * L + digitsValue (fracOf a) * D)
    by ring.
  rewrite Z.div_add_l by lia. reflexivity.
Qed.

Lemma canonical_strip (s : str) :
  allDigits s = true -> canonical (orZero (stripLeadingZeros s)) = true.
Proof.
  induction s as [|c r IH]; intros H; [reflexivity|].
  unfold stripLeadingZeros. simpl dropWhile.
  destruct (isZeroChar c) eqn:E.
  - apply andb_prop in H as [_ Hr]. apply IH, Hr.
  - unfold orZero, canonical, testDigits. rewrite H, E.
    destruct r; reflexivity.
Qed.

Lemma render_no_space (a : decimal) :
  wellFormed a = true ->
  forallb (fun c => negb (isSpace c)) (render a) = true.
Proof.
  unfold wellFormed, render, fracOf. intros H.
  apply andb_prop in H as [Hw Hf].
  assert (D : forall s, allDigits s = true ->
                        forallb (fun c => negb (isSpace c)) s = true).
  { intros s Hs. apply forallb_forall. intros x Hx.
    unfold allDigits in Hs. rewrite forallb_forall in Hs.
    now rewrite (isDigit_not_space x (Hs x Hx)). }
  destruct (fracDigits a) as [f|].
  - rewrite forallb_app. simpl. now rewrite (D _ Hw), (D _ Hf).
  - now apply D.
Qed.

Lemma toSmallest_shape (a : decimal) (d : nat) :
  wellFormed a = true ->
  toSmallest (render a) d
  = orZero (stripLeadingZeros
      (orZero (stripLeadingZeros (intDigits a))
       ++ padOrTruncate (fracOf a) d)).
Proof.
  intros H. unfold toSmallest.
  rewrite (trim_stable _ (render_no_space a H)).
  rewrite slice_padded.
  unfold wellFormed, render, fracOf in *.
  apply andb_prop in H as [Hw Hf].
  destruct (fracDigits a) as [f|].
  - rewrite (split_at_point _ _ Hw), (split_no_point _ Hf). reflexivity.
  - rewrite (split_no_point _ Hw). reflexivity.
Qed.

End ToSmallest.

Section AmountConversion.
Import Js Wallet Samples.

Example toSmallest_pads : toSmallest (lit "1.5") 6 = lit "1500000".
Proof. reflexivity. Qed.

Example toSmallest_truncates : toSmallest (lit "1.999") 2 = lit "199".
Proof. reflexivity. Qed.

Example toSmallest_small : toSmallest (lit "0.0000019") 6 = lit "1".
Proof. reflexivity. Qed.

Example toSmallest_integer : toSmallest (lit "0042") 3 = lit "42000".
Proof. reflexivity. Qed.

(** C4. For a well-formed non-negative decimal numeral and any number of
    decimals [d], [toSmallest] is string arithmetic: the fraction is
    padded with zeros or cut to exactly [d] digits and appended to the
    integer digits (leading zeros dropped), and the number the result
    denotes is the floor of the amount times 10^d. *)
Theorem toSmallest_floor (a : decimal) (d : nat) :
  wellFormed a = true ->
  toSmallest (render a) d
  = orZero (stripLeadingZeros
      (orZero (stripLeadingZeros (intDigits a))
       ++ padOrTruncate (fracOf a) d))
  /\ length (padOrTruncate (fracOf a) d) = d
  /\ canonical (toSmallest (render a) d) = true
  /\ digitsValue (toSmallest (render a) d)
     = Qfloor (amountValue a * pow10 d).
Proof.
  intros H.
  pose proof (toSmallest_shape a d H) as Hshape.
  unfold wellFormed in H. apply andb_prop in H as [Hw Hf].
  assert (Hall : allDigits (orZero (stripLeadingZeros (intDigits a))
                            ++ padOrTruncate (fracOf a) d) = true).
  { rewrite allDigits_app, allDigits_orZero, padOrTruncate_digits;
      auto using allDigits_strip. }
  repeat split.
  - exact Hshape.
  - apply padOrTruncate_length.
  - rewrite Hshape. apply canonical_strip, Hall.
  - rewrite Hshape, digitsValue_orZero, digitsValue_strip, digitsValue_app.
    rewrite digitsValue_orZero, digitsValue_strip, padOrTruncate_length.
    rewrite padOrTruncate_value by exact Hf.
    symmetry. apply floor_amount.
Qed.

Lemma toSmallest_floor_witness :
  digitsValue (toSmallest (render sampleAmount) 2)
  = Qfloor (amountValue sampleAmount * pow10 2).
Proof.
  exact (proj2 (proj2 (proj2 (toSmallest_floor sampleAmount 2 eq_refl)))).
Defined.

End AmountConversion.

Section BalancePrecheck.
Import Js Wallet Samples.

Lemma hexVal_digit (c : ascii) :
  isDigit c = true -> hexVal c = Some (digitVal c).
Proof. unfold hexVal, isDigit, digitVal. now intros ->. Qed.

Lemma radixStep_digits (s : str) (acc : Z) :
  allDigits s = true ->
  fold_left (radixStep 10) s (Some acc)
  = Some (fold_left (fun a c => 10 * a + digitVal c) s acc).
Proof.
  revert acc. induction s as [|c r IH]; intros acc H; [reflexivity|].
  apply andb_prop in H as [Hc Hr]. cbn [fold_left].
  replace (radixStep 10 (Some acc) c) with (Some (10 * acc + digitVal c)).
  - apply IH, Hr.
  - unfold radixStep. rewrite (hexVal_digit c Hc).
    pose proof (isDigit_range c Hc) as Hd.
    destruct (Z.ltb_spec (digitVal c) 10) as [_|Hge]; [reflexivity | lia].
Qed.

Lemma testDigits_allDigits (s : str) :
  testDigits s = true -> allDigits s = true /\ s <> [].
Proof. destruct s; [discriminate | intros H; split; [exact H | discriminate]]. Qed.

Lemma radixValue_digits (s : str) :
  testDigits s = true -> radixValue 10 s = Some (digitsValue s).
Proof.
  intros H. apply testDigits_allDigits in H as [Ha Hne].
  destruct s as [|c r]; [contradiction|].
  unfold radixValue. now rewrite radixStep_digits.
Qed.

Lemma digit_not_char (c x : ascii) :
  isDigit c = true -> isDigit x = false -> Ascii.eqb c x = false.
Proof.
  intros Hc Hx. apply Ascii.eqb_neq. intros ->. congruence.
Qed.

(** [BigInt] reads a string of decimal digits as the number it
    denotes. *)
Lemma BigInt_digits (s : str) :
  testDigits s = true -> BigInt s = Some (digitsValue s).
Proof.
  intros H. pose proof (testDigits_allDigits s H) as [Ha Hne].
  unfold BigInt. rewrite trim_stable.
  2:{ apply forallb_forall. intros x Hx.
      unfold allDigits in Ha. rewrite forallb_forall in Ha.
      now rewrite (isDigit_not_space x (Ha x Hx)). }
  destruct s as [|c0 r0]; [contradiction|].
  pose proof Ha as Ha'. apply andb_prop in Ha' as [H0 Hr0].
  rewrite (digit_not_char c0 "-"%char H0 eq_refl).
  rewrite (digit_not_char c0 "+"%char H0 eq_refl).
  destruct r0 as [|c1 r1]; [now apply radixValue_digits|].
  apply andb_prop in Hr0 as [H1 _].
  unfold isOneOf.
  rewrite (digit_not_char c1 "x"%char H1 eq_refl),
          (digit_not_char c1 "X"%char H1 eq_refl),
          (digit_not_char c1 "o"%char H1 eq_refl),
          (digit_not_char c1 "O"%char H1 eq_refl),
          (digit_not_char c1 "b"%char H1 eq_refl),
          (digit_not_char c1 "B"%char H1 eq_refl).
  rewrite !andb_false_r. now apply radixValue_digits.
Qed.

(** The pre-check on the balance as it stands after the lookups, with a
    recipient given: when it is a string of digits denoting less than
    the requested smallest-unit amount, [sendCrypto] fails with the
    unprocessable-entity error whose message shows the available
    amount, its source and the requested amount, and no call is made on
    the signer; when it is not a string of digits, [sendCrypto] goes on
    to the transfer. *)
Lemma precheck_blocks_or_proceeds (account : Account) (indexer : Indexer)
    (chain recipient amount : str) (tokenAddress : option str)
    (tokenDecimals : nat) :
  trim recipient <> [] ->
  let b := determineBalance account indexer chain tokenAddress in
  let requested := requestedFor chain amount tokenAddress tokenDecimals in
  (testDigits (availableSmallest b) = true ->
   testDigits requested = true ->
   digitsValue (availableSmallest b) < digitsValue requested ->
   sendCrypto account indexer chain recipient amount tokenAddress tokenDecimals
   = ([], Throws (UnprocessableEntityException
                    (lit "Insufficient balance. Available: "
                     ++ availableSmallest b ++ lit " (" ++ balanceSource b
                     ++ lit "), Requested: " ++ requested))))
  /\ (testDigits (availableSmallest b) = false ->
      sendCrypto account indexer chain recipient amount tokenAddress
        tokenDecimals
      = proceeds account chain recipient tokenAddress requested).
Proof.
  intros Hrec b requested. unfold sendCrypto.
  fold (requestedFor chain amount tokenAddress tokenDecimals).
  fold requested. fold b.
  destruct (trim recipient) as [|c r]; [contradiction|].
  cbv zeta. split.
  - intros Hav Hreq Hlt. unfold balancePrecheck.
    rewrite Hav, (BigInt_digits _ Hav), (BigInt_digits _ Hreq).
    destruct (Z.ltb_spec (digitsValue (availableSmallest b))
                         (digitsValue requested)) as [_|Hge]; [|lia].
    reflexivity.
  - intros Hav. unfold balancePrecheck. rewrite Hav. reflexivity.
Qed.

Example precheck_blocks_smaller_balance :
  sendCrypto fundedAccount noPositions (lit "base") bob (lit "1000")
    (Some usdt) 18
  = ([], Throws (UnprocessableEntityException
                   (lit "Insufficient balance. Available: 50000000 (wdk-getTokenBalance), Requested: 1000000000000000000000"))).
Proof.
  apply (proj1 (precheck_blocks_or_proceeds fundedAccount noPositions
                  (lit "base") bob (lit "1000") (Some usdt) 18
                  ltac:(discriminate)));
    [reflexivity | reflexivity | vm_compute; reflexivity].
Qed.

(** C5. The second half of the claim fails on the code. The balance
    starts as the text 0 with the source unknown and keeps these when no
    lookup succeeds, as on a native send whose [getBalance] throws. The
    pre-check takes that text for a determined balance of zero: for
    every requested amount above zero [sendCrypto] fails with the
    unprocessable-entity error "Insufficient balance. Available: 0
    (unknown), ..." and makes no call on the signer, where the branch
    for an undetermined balance lets the send proceed. *)
Theorem precheck_refuses_undetermined_balance (account : Account)
    (indexer : Indexer) (chain recipient amount : str)
    (tokenAddress : option str) (tokenDecimals : nat) :
  trim recipient <> [] ->
  let requested := requestedFor chain amount tokenAddress tokenDecimals in
  testDigits requested = true ->
  0 < digitsValue requested ->
  (forall e, tokenOf tokenAddress = None ->
             getBalance account = Throws e ->
             determineBalance account indexer chain tokenAddress
             = {| availableSmallest := lit "0";
                  balanceSource := lit "unknown" |})
  /\ (determineBalance account indexer chain tokenAddress
      = {| availableSmallest := lit "0"; balanceSource := lit "unknown" |} ->
      sendCrypto account indexer chain recipient amount tokenAddress
        tokenDecimals
      = ([], Throws (UnprocessableEntityException
                       (lit "Insufficient balance. Available: 0 (unknown), Requested: "
                        ++ requested)))).
Proof.
  intros Hrec requested Hreq Hpos. split.
  - intros e Hnative Hbal. unfold determineBalance, nativeBalance.
    now rewrite Hnative, Hbal.
  - intros Hb. unfold sendCrypto.
    fold (requestedFor chain amount tokenAddress tokenDecimals).
    fold requested.
    destruct (trim recipient) as [|c r]; [contradiction|].
    cbv zeta. rewrite Hb. unfold balancePrecheck.
    cbn [availableSmallest].
    replace (testDigits (lit "0")) with true by reflexivity.
    replace (BigInt (lit "0")) with (Some 0) by reflexivity.
    rewrite (BigInt_digits _ Hreq).
    destruct (Z.ltb_spec 0 (digitsValue requested)) as [_|Hge]; [|lia].
    reflexivity.
Qed.

Lemma precheck_refuses_undetermined_balance_witness :
  sendCrypto unreachableAccount noPositions (lit "base") bob (lit "0.5")
    None 18
  = ([], Throws (UnprocessableEntityException
                   (lit "Insufficient balance. Available: 0 (unknown), Requested: 500000000000000000"))).
Proof.
  pose proof (precheck_refuses_undetermined_balance unreachableAccount
                noPositions (lit "base") bob (lit "0.5") None 18
                ltac:(discriminate) eq_refl eq_refl) as [Hb Hs].
  apply Hs. apply (Hb (Error (lit "connection refused"))); reflexivity.
Defined.

End BalancePrecheck.

Section TokenDispatch.
Import Js Wallet Samples.

Lemma attempts_prefix (account : Account) (cs : list call) :
  exists rest, cs = fst (attempts account cs) ++ rest.
Proof.
  induction cs as [|c cs [rest IH]]; [now exists []|].
  simpl. destruct (respond account c).
  - now exists cs.
  - destruct (attempts account cs) as [tried won]. simpl in *.
    exists rest. now rewrite <- IH.
Qed.

Lemma attempts_success (account : Account) (cs : list call)
    (result : jsresult) :
  snd (attempts account cs) = Some result ->
  exists failed c,
    fst (attempts account cs) = failed ++ [c]
    /\ respond account c = Returns result
    /\ Forall (fun x => exists e, respond account x = Throws e) failed.
Proof.
  induction cs as [|c cs IH]; [discriminate|].
  simpl. destruct (respond account c) as [r|e] eqn:E.
  - intros [= <-]. exists [], c. repeat split; auto.
  - destruct (attempts account cs) as [tried won]. simpl in *.
    intros Hw. destruct (IH Hw) as (failed & c' & Ht & Hr & Hf).
    exists (c :: failed), c'. repeat split.
    + now rewrite Ht.
    + exact Hr.
    + constructor; eauto.
Qed.

Ltac dispatch_step :=
  cbn [attempts notStarted fst snd calls sent txHash negb andb orb app].

Ltac on_response c :=
  match goal with
  | |- context [respond ?a c] => destruct (respond a c); dispatch_step
  | _ => idtac
  end.

(** The dispatch of the source is the first-success iteration over the
    entry points the account supports. *)
Lemma tokenTransfer_attempts (account : Account) (token recipient : str)
    (requested : str) (amount : Z) :
  BigInt requested = Some amount ->
  let tried :=
    attempts account
      (List.filter (supported account) (entryPoints token recipient amount))
    in
  let done := tokenTransfer account token recipient requested in
  calls (fst done) = fst tried
  /\ match snd tried with
     | Some result =>
         sent (fst done) = true
         /\ txHash (fst done) = hashOfResult result
         /\ snd done = if truthy (hashOfResult result) then None
                       else Some unsupported
     | None => snd done <> None
     end.
Proof.
  intros HB. unfold tokenTransfer. rewrite HB.
  unfold entryPoints, supported. cbn [List.filter].
  destruct (hasTransfer account), (hasSendToken account),
    (hasTransferToken account), (hasSend account);
    unfold tryCall; dispatch_step;
    on_response (Transfer_token_recipient token recipient amount);
    on_response (Transfer_token_to token recipient amount);
    on_response (SendToken token recipient amount);
    on_response (TransferToken token recipient amount);
    on_response (Send_with_tokenAddress recipient amount token);
    repeat split; try discriminate;
    try match goal with
      | |- context [truthy ?h] => destruct (truthy h)
      end; reflexivity.
Qed.

Lemma tokenOf_some (token : str) : token <> [] -> tokenOf (Some token) = Some token.
Proof. destruct token; [contradiction | reflexivity]. Qed.

Lemma transferBlock_hash (account : Account) (chain recipient token : str)
    (requested : str) (p : progress) (h : str) :
  token <> [] -> h <> [] ->
  tokenTransfer account token recipient requested = (p, None) ->
  txHash p = VString h ->
  snd (transferBlock account chain recipient (Some token) requested)
  = Returns h.
Proof.
  intros Ht Hh Hrun Hp. unfold transferBlock.
  rewrite (tokenOf_some token Ht), Hrun, Hp.
  destruct h; [contradiction | reflexivity].
Qed.

(** What the transfer block makes of the result of the winning call. *)
Lemma transferBlock_outcome (account : Account)
    (chain recipient token requested : str) (amount : Z) (result : jsresult) :
  token <> [] ->
  BigInt requested = Some amount ->
  snd (attempts account
         (List.filter (supported account)
            (entryPoints token recipient amount))) = Some result ->
  snd (transferBlock account chain recipient (Some token) requested)
  = match hashOfResult result with
    | VString (c :: r) => Returns (c :: r)
    | v => Throws (classify (if truthy v then noHash else unsupported))
    end.
Proof.
  intros Ht HB Hres.
  pose proof (tokenTransfer_attempts account token recipient requested
                amount HB) as [_ Hwon].
  cbv zeta in Hwon. rewrite Hres in Hwon.
  destruct Hwon as (_ & Hhash & Hthrown).
  unfold transferBlock. rewrite (tokenOf_some token Ht).
  destruct (tokenTransfer account token recipient requested) as [p thrown].
  cbn [fst snd] in *. subst thrown. rewrite Hhash.
  destruct (hashOfResult result) as [|[|c r]|[]]; reflexivity.
Qed.

(** C6, amended. For a token send whose amount is an integer, the calls
    made on the signer are the entry points [transfer({token,
    recipient, amount})], [transfer({token, to, amount})], [sendToken],
    [transferToken], [send(recipient, amount, {tokenAddress})] that the
    account supports, taken in this order up to and including the first
    one that returns; every call before that one threw. The value taken
    from the result of that call is the result itself when it is a
    string, else its [hash] property when that is truthy, else its
    [txHash] property when that is truthy, else the rendering
    [String(result)]. That value is returned as the hash when it is a
    non-empty string; an empty value fails the send as "Token transfer
    method not supported by this account" and a truthy value that is no
    string as "Transaction submitted but no transaction hash returned",
    both as service-unavailable errors. *)
Theorem token_dispatch_first_success (account : Account)
    (chain recipient token : str) (requested : str) (amount : Z) :
  token <> [] ->
  BigInt requested = Some amount ->
  let candidates :=
    List.filter (supported account) (entryPoints token recipient amount) in
  let tried := attempts account candidates in
  let done := transferBlock account chain recipient (Some token) requested in
  let notSupported :=
    ServiceUnavailableException
      (lit "Transaction failed: Token transfer method not supported by this account") in
  let noHashReturned :=
    ServiceUnavailableException
      (lit "Transaction failed: Transaction submitted but no transaction hash returned") in
  fst done = fst tried
  /\ (exists rest, candidates = fst tried ++ rest)
  /\ forall result, snd tried = Some result ->
       (exists failed c,
           fst done = failed ++ [c]
           /\ respond account c = Returns result
           /\ Forall (fun x => exists e, respond account x = Throws e) failed)
       /\ (forall s, result = ResString s ->
           snd done = match s with
                      | [] => Throws notSupported
                      | _ => Returns s
                      end)
       /\ (forall isNull, result = ResNullish isNull ->
           snd done = Returns (if isNull then lit "null" else lit "undefined"))
       /\ (forall h t shown, result = ResOther h t shown ->
           let taken := if truthy h then h
                        else if truthy t then t
                        else VString shown in
           snd done = match taken with
                      | VString (c :: r) => Returns (c :: r)
                      | VString [] | VUndefined | VOther false =>
                          Throws notSupported
                      | VOther true => Throws noHashReturned
                      end).
Proof.
  intros Ht HB candidates tried done notSupported noHashReturned.
  pose proof (tokenTransfer_attempts account token recipient requested
                amount HB) as [Hcalls Hwon].
  fold candidates in Hcalls, Hwon. fold tried in Hcalls, Hwon.
  assert (Hfst : fst done = fst tried).
  { unfold done, transferBlock. rewrite (tokenOf_some token Ht).
    destruct (tokenTransfer account token recipient requested)
      as [p [e|]]; simpl in *; [exact Hcalls|].
    destruct (txHash p) as [|[|c r]|b]; exact Hcalls. }
  split; [exact Hfst|]. split; [apply attempts_prefix|].
  intros result Hres.
  split.
  { rewrite Hfst. now apply attempts_success. }
  pose proof (transferBlock_outcome account chain recipient token requested
                amount result Ht HB Hres) as Hout.
  fold done in Hout.
  split; [|split].
  - intros s ->. rewrite Hout. now destruct s.
  - intros isNull ->. rewrite Hout. now destruct isNull.
  - intros h t shown -> taken. rewrite Hout. subst taken.
    cbn [hashOfResult]. unfold jsOr.
    destruct h as [|[|hc hr]|[]]; cbn [truthy]; try reflexivity;
      destruct t as [|[|tc tr]|[]]; cbn [truthy]; try reflexivity;
        destruct shown; reflexivity.
Qed.

Lemma token_dispatch_first_success_witness :
  transferBlock fundedAccount (lit "base") bob (Some usdt) (lit "1500000")
  = ([Transfer_token_recipient usdt bob 1500000], Returns (lit "0xfeed")).
Proof.
  pose proof (token_dispatch_first_success fundedAccount (lit "base") bob
                usdt (lit "1500000") 1500000 ltac:(discriminate) eq_refl)
    as (Hcalls & _ & Hres).
  destruct (Hres (ResString (lit "0xfeed")) eq_refl) as (_ & Hs & _).
  specialize (Hs (lit "0xfeed") eq_refl).
  destruct (transferBlock fundedAccount (lit "base") bob (Some usdt)
              (lit "1500000")) as [cs r].
  simpl in Hcalls, Hs. subst. reflexivity.
Defined.

(** C6, as stated, fails: when the winning call resolves to an object
    without [hash] and [txHash], the hash returned is the rendering of
    the object, which is none of the three values the claim allows. *)
Lemma token_dispatch_hash_counterexample :
  let done := transferBlock receiptAccount (lit "base") bob (Some usdt)
                (lit "1500000") in
  fst done = [Transfer_token_recipient usdt bob 1500000]
  /\ respond receiptAccount (Transfer_token_recipient usdt bob 1500000)
     = Returns bareReceipt
  /\ snd done = Returns (lit "[object Object]")
  /\ ~ promisedHash bareReceipt (lit "[object Object]").
Proof.
  repeat split. intros [H|H]; discriminate H.
Qed.

End TokenDispatch.

Section Reconnection.
Import Js Transport Samples.

Lemma flushLoop_writes (sock : Socket) (q : list RPCRequest) :
  forallb isWrite (snd (flushLoop sock q)) = true.
Proof.
  induction q as [|r q IH]; [reflexivity|].
  simpl. destruct (accepts sock r); [|reflexivity].
  destruct (flushLoop sock q) as [rest evs]. exact IH.
Qed.

Lemma flushLoop_accepting (sock : Socket) (q : list RPCRequest) :
  (forall r, In r q -> accepts sock r = true) ->
  flushLoop sock q = ([], map Wrote q).
Proof.
  induction q as [|r q IH]; intros H; [reflexivity|].
  simpl. rewrite (H r (or_introl eq_refl)).
  rewrite IH by (intros x Hx; apply H; now right). reflexivity.
Qed.

Lemma flushMessageQueue_writes (s : Manager) :
  forallb isWrite (snd (flushMessageQueue s)) = true.
Proof.
  unfold flushMessageQueue.
  destruct (isConnected s); [|reflexivity].
  destruct (ws s) as [sock|]; [|reflexivity].
  pose proof (flushLoop_writes sock (messageQueue s)) as H.
  destruct (flushLoop sock (messageQueue s)). exact H.
Qed.

Lemma writes_then_hook (writes tail : list event) :
  forallb isWrite writes = true ->
  forallb (fun e => match e with Wrote _ => false | _ => true end) tail = true ->
  writesBeforeHook (writes ++ tail) = true
  /\ forall h, writesBeforeHook (writes ++ Invoked h :: tail) = true.
Proof.
  intros Hw Ht. induction writes as [|e ws IH].
  - split.
    + simpl. revert Ht. clear. induction tail as [|e tl IH]; [reflexivity|].
      simpl. intros H. apply andb_prop in H as [He Htl].
      destruct e as [| |h| | | | | | |]; try discriminate; auto.
      destruct h; auto.
    + intros h. simpl. destruct h; auto.
      all: revert Ht; clear; induction tail as [|e tl IH]; [reflexivity|];
        simpl; intros H; apply andb_prop in H as [He Htl];
        destruct e as [| |h| | | | | | |]; try discriminate; auto;
        destruct h; auto.
  - simpl in Hw. apply andb_prop in Hw as [He Hws].
    specialize (IH Hws) as [IH1 IH2].
    destruct e; try discriminate; simpl; auto.
Qed.

Lemma flushMessageQueue_handlers (s : Manager) :
  eventHandlers (fst (flushMessageQueue s)) = eventHandlers s.
Proof.
  unfold flushMessageQueue.
  destruct (isConnected s); [|reflexivity].
  destruct (ws s) as [sock|]; [|reflexivity].
  destruct (flushLoop sock (messageQueue s)). reflexivity.
Qed.

Lemma on_open_events (s : Manager) :
  snd (on_open s)
  = snd (flushMessageQueue
           (set_reconnectAttempts 0 (set_connectionState CONNECTED s)))
    ++ invoke OnConnect s ++ [ConnectResolved].
Proof.
  unfold on_open.
  pose proof (flushMessageQueue_handlers
                (set_reconnectAttempts 0 (set_connectionState CONNECTED s)))
    as Hh.
  destruct (flushMessageQueue _) as [s3 writes]. simpl in *.
  unfold invoke, registered. now rewrite Hh.
Qed.

(** The events of an open on a socket that accepts every queued
    request. *)
Lemma open_events_accepting (s : Manager) (sock : Socket) :
  ws s = Some sock ->
  (forall r, In r (messageQueue s) -> accepts sock r = true) ->
  snd (step SocketOpen s)
  = map Wrote (messageQueue s) ++ invoke OnConnect s ++ [ConnectResolved]
  /\ messageQueue (fst (step SocketOpen s)) = [].
Proof.
  intros Hws Hacc. cbn [step]. rewrite on_open_events.
  unfold on_open, flushMessageQueue, isConnected, socketOpen, markOpen.
  rewrite Hws. cbn.
  rewrite (flushLoop_accepting
             {| readyState := WS_OPEN; accepts := accepts sock |})
    by exact Hacc.
  split; reflexivity.
Qed.

(** C1, as stated, fails: a request is queued while the connection is
    down; when the socket opens again the request is written first and
    the connect listener runs after it. *)
Lemma reconnect_hook_counterexample :
  let s := fst (run beforeReopen (new defaults)) in
  messageQueue s = [getLedgerBalances]
  /\ registered OnConnect s = true
  /\ snd (step SocketOpen s)
     = [Wrote getLedgerBalances; Invoked OnConnect; ConnectResolved]
  /\ hookBeforeWrites (snd (step SocketOpen s)) = false.
Proof. vm_compute. repeat split. Qed.

(** What the loop of the flush does with a queue: it writes the longest
    prefix the socket accepts and stops at the first write that fails,
    which stays at the head of what is left. *)
Lemma flushLoop_shape (sock : Socket) (q : list RPCRequest) :
  exists written,
    q = written ++ fst (flushLoop sock q)
    /\ Forall (fun r => accepts sock r = true) written
    /\ match fst (flushLoop sock q) with
       | [] => snd (flushLoop sock q) = map Wrote written
       | r :: _ =>
           accepts sock r = false
           /\ snd (flushLoop sock q) = map Wrote written ++ [WriteFailed r]
       end.
Proof.
  induction q as [|r q (written & Hq & Hacc & Hrest)].
  - exists []. repeat split. constructor.
  - cbn [flushLoop]. destruct (accepts sock r) eqn:E.
    + destruct (flushLoop sock q) as [[|x remaining] evs]; cbn [fst snd] in *.
      * exists (r :: written). repeat split.
        -- cbn. now f_equal.
        -- now constructor.
        -- cbn. now f_equal.
      * destruct Hrest as [Hx Hevs]. exists (r :: written). repeat split.
        -- cbn. now f_equal.
        -- now constructor.
        -- exact Hx.
        -- cbn. now f_equal.
    + exists []. cbn. repeat split; [constructor | exact E].
Qed.

Lemma on_open_state (s : Manager) :
  fst (on_open s)
  = fst (flushMessageQueue
           (set_reconnectAttempts 0 (set_connectionState CONNECTED s))).
Proof.
  unfold on_open. now destruct (flushMessageQueue _).
Qed.

(** C1, amended. Whenever the socket opens, the offline queue is
    flushed first and the connect listener is invoked after the flush:
    no write follows the listener. The events of the open are the
    writes of the flush, then the listener (when one is registered),
    then the resolution of [connect]. While the manager holds the
    socket, the flush writes the queued requests in FIFO order up to
    the first write that fails; that request and those behind it stay
    queued, and nothing stays when every write succeeds. When the
    manager holds no socket at that moment, nothing is written and the
    queue is kept. *)
Theorem open_flushes_before_hook (s : Manager) :
  writesBeforeHook (snd (step SocketOpen s)) = true
  /\ (exists written failed,
         snd (step SocketOpen s)
         = map Wrote written ++ failed ++ invoke OnConnect s
           ++ [ConnectResolved]
         /\ messageQueue s = written ++ messageQueue (fst (step SocketOpen s))
         /\ match ws s with
            | None => written = [] /\ failed = []
            | Some sock =>
                Forall (fun r => accepts sock r = true) written
                /\ match messageQueue (fst (step SocketOpen s)) with
                   | [] => failed = []
                   | r :: _ =>
                       accepts sock r = false /\ failed = [WriteFailed r]
                   end
            end)
  /\ forall sock,
       ws s = Some sock ->
       (forall r, In r (messageQueue s) -> accepts sock r = true) ->
       snd (step SocketOpen s)
       = map Wrote (messageQueue s) ++ invoke OnConnect s ++ [ConnectResolved]
       /\ messageQueue (fst (step SocketOpen s)) = [].
Proof.
  split; [|split].
  - cbn [step]. rewrite on_open_events.
    pose proof (flushMessageQueue_writes
                  (set_reconnectAttempts 0
                     (set_connectionState CONNECTED (markOpen s)))) as Hw.
    unfold invoke. destruct (registered OnConnect (markOpen s)).
    + apply (writes_then_hook _ [ConnectResolved] Hw eq_refl).
    + apply (writes_then_hook _ [ConnectResolved] Hw eq_refl).
  - cbn [step]. rewrite on_open_events, on_open_state.
    unfold flushMessageQueue, isConnected, socketOpen, markOpen.
    destruct (ws s) as [sock|] eqn:Hws.
    + cbn.
      destruct (flushLoop_shape
                  {| readyState := WS_OPEN; accepts := accepts sock |}
                  (messageQueue s)) as (written & Hq & Hacc & Hrest).
      cbn [accepts] in Hacc, Hrest.
      destruct (flushLoop {| readyState := WS_OPEN; accepts := accepts sock |}
                  (messageQueue s)) as [remaining evs].
      cbn [fst snd] in *. unfold invoke, registered. cbn.
      destruct remaining as [|r remaining].
      * exists written, []. subst evs. repeat split; auto.
      * destruct Hrest as [Hr Hevs]. exists written, [WriteFailed r].
        subst evs. rewrite <- app_assoc. repeat split; auto.
    + cbn. rewrite Hws. cbn. exists [], []. repeat split.
  - intros sock. apply open_events_accepting.
Qed.

Lemma open_flushes_before_hook_witness :
  snd (step SocketOpen (fst (run beforeReopen (new defaults))))
  = [Wrote getLedgerBalances; Invoked OnConnect; ConnectResolved].
Proof.
  apply (proj2 (proj2 (open_flushes_before_hook
                         (fst (run beforeReopen (new defaults)))))
           {| readyState := WS_CONNECTING; accepts := fun _ => true |}).
  - reflexivity.
  - intros r _. reflexivity.
Defined.

(** An open on which the second write fails, and an open that finds the
    socket of the manager cleared. *)
Example open_stops_at_failed_write :
  let s := fst (run queuedOnConnecting (new defaults)) in
  snd (step SocketOpen s)
  = [Wrote getLedgerBalances; WriteFailed getChannels; Invoked OnConnect;
     ConnectResolved]
  /\ messageQueue (fst (step SocketOpen s)) = [getChannels].
Proof. vm_compute. split; reflexivity. Qed.

Example open_with_socket_cleared :
  let s := fst (run olderSocketClosed (new defaults)) in
  ws s = None
  /\ snd (step SocketOpen s) = [Invoked OnConnect; ConnectResolved]
  /\ messageQueue (fst (step SocketOpen s)) = [getLedgerBalances].
Proof. vm_compute. repeat split. Qed.

End Reconnection.

Section Correlation.
Import Js Transport Samples.

Lemma fresh_frame (s s' : Manager) :
  correlation s' = correlation s -> fresh s -> fresh s'.
Proof.
  unfold correlation, fresh. intros [= Hp Ht Hh Hc].
  now rewrite Hp, Ht, Hh, Hc.
Qed.

Lemma flushMessageQueue_correlation (s : Manager) :
  correlation (fst (flushMessageQueue s)) = correlation s.
Proof.
  unfold flushMessageQueue.
  destruct (isConnected s); [|reflexivity].
  destruct (ws s) as [sock|]; [|reflexivity].
  destruct (flushLoop sock (messageQueue s)). reflexivity.
Qed.

Lemma on_open_correlation (s : Manager) :
  correlation (fst (on_open s)) = correlation s.
Proof.
  unfold on_open.
  pose proof (flushMessageQueue_correlation
                (set_reconnectAttempts 0 (set_connectionState CONNECTED s)))
    as H.
  destruct (flushMessageQueue _) as [s3 writes]. exact H.
Qed.

Lemma scheduleReconnect_correlation (s : Manager) :
  correlation (fst (scheduleReconnect s)) = correlation s.
Proof. unfold scheduleReconnect. destruct (reconnectTimer s); reflexivity. Qed.

Lemma on_close_correlation (code : Z) (s : Manager) :
  correlation (fst (on_close code s)) = correlation s.
Proof.
  unfold on_close.
  destruct (negb (code =? 1000) && _).
  - pose proof (scheduleReconnect_correlation
                  (set_ws None (set_connectionState DISCONNECTED s))) as H.
    destruct (scheduleReconnect _). exact H.
  - destruct (_ <=? _); reflexivity.
Qed.

Lemma connect_correlation (created : option (RPCRequest -> bool))
    (s : Manager) :
  correlation (fst (connect created s)) = correlation s.
Proof.
  unfold connect. destruct (connectionState s), created; reflexivity.
Qed.

Lemma settle_fresh (k : nat) (r : settlement) (s : Manager) :
  (k < sendCalls s)%nat -> fresh s -> fresh (settle k r s).
Proof.
  intros Hk (Hp & Ht & Hh). unfold settle.
  destruct (promises s !! k); [now repeat split|].
  repeat split; cbn; auto.
  intros j Hj. rewrite lookup_insert_ne by lia. now apply Hp.
Qed.

Lemma send_fresh (request : RPCRequest) (s : Manager) :
  fresh s -> fresh (snd (fst (send request s))).
Proof.
  intros (Hp & Ht & Hh).
  assert (F : fresh
                (set_timers (<[sendCalls s := reqId request]> (timers s))
                   (set_responseHandlers
                      (<[reqId request := sendCalls s]> (responseHandlers s))
                      (set_sendCalls (S (sendCalls s)) s)))).
  { repeat split; cbn.
    - intros k Hk. apply Hp. lia.
    - intros k id H. apply lookup_insert_Some in H as [[<- _]|[_ H]];
        [lia | apply Ht in H; lia].
    - intros id k H. apply lookup_insert_Some in H as [[_ <-]|[_ H]];
        [lia | apply Hh in H; lia]. }
  unfold send. cbv zeta.
  destruct (socketOpen _).
  - destruct (ws _) as [sock|]; [|exact F]. cbn [ws].
    destruct (accepts sock request); [exact F|].
    cbn [fst snd]. apply settle_fresh; [cbn; lia|].
    destruct F as (Fp & Ft & Fh). repeat split; cbn in *.
    + exact Fp.
    + intros k id H. apply lookup_delete_Some in H as [_ H]. eauto.
    + intros id k H. apply lookup_delete_Some in H as [_ H]. eauto.
  - cbn [fst snd]. exact F.
Qed.

Lemma requestTimerFires_fresh (k : nat) (s : Manager) :
  fresh s -> fresh (requestTimerFires k s).
Proof.
  intros F. unfold requestTimerFires.
  destruct (timers s !! k) as [id|] eqn:E; [|exact F].
  destruct F as (Fp & Ft & Fh).
  apply settle_fresh; [cbn; eauto|].
  repeat split; cbn.
  - exact Fp.
  - intros j i H. apply lookup_delete_Some in H as [_ H]. eauto.
  - intros i j H. apply lookup_delete_Some in H as [_ H]. eauto.
Qed.

Lemma handleMessage_fresh (response : RPCResponse) (s : Manager) :
  fresh s -> fresh (fst (handleMessage response s)).
Proof.
  intros F. unfold handleMessage.
  destruct (responseHandlers s !! resId response) as [k|] eqn:E.
  - cbn [fst]. destruct F as (Fp & Ft & Fh).
    assert (Hk : (k < sendCalls s)%nat) by eauto.
    assert (G : fresh (runHandler k response s)).
    { unfold runHandler.
      assert (G0 : fresh (set_timers (delete k (timers s)) s)).
      { repeat split; cbn; auto.
        intros j i H. apply lookup_delete_Some in H as [_ H]. eauto. }
      destruct (resError response); now apply settle_fresh. }
    destruct G as (Gp & Gt & Gh). repeat split; cbn; auto.
    intros i j H. apply lookup_delete_Some in H as [_ H]. eauto.
  - cbn [fst]. apply (fresh_frame s); [|exact F].
    unfold handleNotification.
    destruct (eqb _ _); [|reflexivity].
    destruct (resAssets response); reflexivity.
Qed.

Lemma step_fresh (a : action) (s : Manager) :
  fresh s -> fresh (fst (step a s)).
Proof.
  intros F. destruct a as [created| |request| |h| |parsed| |code|k|created|];
    cbn [step].
  - apply (fresh_frame s); [apply connect_correlation | exact F].
  - exact F.
  - pose proof (send_fresh request s F) as H.
    destruct (send request s) as [[k s'] evs]. exact H.
  - exact F.
  - exact F.
  - apply (fresh_frame (markOpen s)); [apply on_open_correlation|].
    apply (fresh_frame s); [|exact F].
    unfold markOpen. destruct (ws s); reflexivity.
  - destruct parsed as [response|]; [now apply handleMessage_fresh | exact F].
  - exact F.
  - apply (fresh_frame s); [apply on_close_correlation | exact F].
  - now apply requestTimerFires_fresh.
  - unfold reconnectTimerFires. destruct (reconnectTimer s); [|exact F].
    apply (fresh_frame s); [|exact F].
    now rewrite connect_correlation.
  - unfold connectTimeout. destruct (connectionState s); exact F.
Qed.

Lemma run_fresh (actions : list action) (s : Manager) :
  fresh s -> fresh (fst (run actions s)).
Proof.
  revert s. induction actions as [|a rest IH]; intros s F; [exact F|].
  cbn [run]. pose proof (step_fresh a s F) as F1.
  destruct (step a s) as [s1 evs1]. specialize (IH s1 F1).
  destruct (run rest s1) as [s2 evs2]. exact IH.
Qed.

Lemma reachable_fresh (s : Manager) : reachable s -> fresh s.
Proof.
  intros (config & actions & ->). apply run_fresh.
  repeat split; cbn; intros *; rewrite ?lookup_empty; try discriminate; auto.
Qed.

End Correlation.

Section FailedState.
Import Js Transport Samples.

Lemma send_offline (request : RPCRequest) (s : Manager) :
  socketOpen s = false ->
  send request s
  = (sendCalls s,
     set_messageQueue (messageQueue s ++ [request])
       (set_timers (<[sendCalls s := reqId request]> (timers s))
          (set_responseHandlers
             (<[reqId request := sendCalls s]> (responseHandlers s))
             (set_sendCalls (S (sendCalls s)) s))),
     []).
Proof.
  intros H. unfold send. cbv zeta.
  replace (socketOpen _) with (socketOpen s) by reflexivity.
  now rewrite H.
Qed.

(** C2, as stated, fails: once the budget of one reconnection is used
    up the state is FAILED, yet a [send] is not rejected; its request is
    put on the offline queue and its promise stays pending until the
    request timer rejects it with the timeout error. *)
Lemma failed_send_counterexample :
  let s := fst (run exhausted (new oneRetry)) in
  let '(k, s', evs) := send getLedgerBalances s in
  connectionState s = FAILED
  /\ evs = []
  /\ messageQueue s' = [getLedgerBalances]
  /\ promises s' !! k = None
  /\ promises (requestTimerFires k s') !! k
     = Some (Rejected (lit "Request 7 timed out after 30000ms")).
Proof. vm_compute. repeat split. Qed.

Lemma correlation_promises (s s' : Manager) :
  correlation s' = correlation s -> promises s' = promises s.
Proof. unfold correlation. now intros [= -> _ _ _]. Qed.

Lemma settle_sets (k' k : nat) (r v : settlement) (s : Manager) :
  promises s !! k = None ->
  promises (settle k' r s) !! k = Some v ->
  k' = k /\ v = r.
Proof.
  unfold settle. intros Hn. destruct (promises s !! k') eqn:E.
  - intros H. congruence.
  - cbn. intros H.
    apply lookup_insert_Some in H as [[-> ->]|[_ H]]; [now split | congruence].
Qed.

(** A pending promise of an earlier [send] call is settled by two
    events only: the request timer of the call and a response for which
    the handler of the call is registered. *)
Lemma pending_settled_by (s : Manager) (a : action) (k : nat)
    (v : settlement) :
  (k < sendCalls s)%nat ->
  promises s !! k = None ->
  promises (fst (step a s)) !! k = Some v ->
  (a = RequestTimer k
   /\ exists id,
        timers s !! k = Some id
        /\ v = Rejected (timeoutMessage id (requestTimeout (settings s))))
  \/ (exists response,
         a = SocketMessage (Some response)
         /\ responseHandlers s !! resId response = Some k
         /\ v = match resError response with
                | Some [] => Rejected (lit "RPC error")
                | Some message => Rejected message
                | None => Resolved response
                end).
Proof.
  intros Hk Hn Hv.
  destruct a as [created| |request| |h| |parsed| |code|j|created|];
    cbn [step] in Hv.
  - rewrite (correlation_promises _ _ (connect_correlation created s)) in Hv.
    congruence.
  - cbn in Hv. congruence.
  - unfold send in Hv. cbv zeta in Hv.
    destruct (socketOpen _); [|cbn in Hv; congruence].
    destruct (ws _) as [sock|]; [|cbn in Hv; congruence].
    destruct (accepts sock request); [cbn in Hv; congruence|].
    cbn [fst snd] in Hv. apply settle_sets in Hv as [E _]; [lia | exact Hn].
  - cbn in Hv. congruence.
  - cbn in Hv. congruence.
  - rewrite (correlation_promises _ _ (on_open_correlation (markOpen s))) in Hv.
    unfold markOpen in Hv. destruct (ws s); cbn in Hv; congruence.
  - destruct parsed as [response|]; [|cbn in Hv; congruence].
    cbn [on_message] in Hv. unfold handleMessage in Hv.
    destruct (responseHandlers s !! resId response) as [j|] eqn:E;
      cbn [fst] in Hv.
    + right. exists response. unfold runHandler in Hv.
      destruct (resError response) as [[|c m]|]; cbn in Hv;
        apply settle_sets in Hv as [-> ->]; auto.
    + unfold handleNotification in Hv. destruct (eqb _ _); [|congruence].
      destruct (resAssets response); cbn in Hv; congruence.
  - cbn in Hv. congruence.
  - rewrite (correlation_promises _ _ (on_close_correlation code s)) in Hv.
    congruence.
  - cbn [fst] in Hv. unfold requestTimerFires in Hv.
    destruct (timers s !! j) as [id|] eqn:Et; [|congruence].
    cbn in Hv. apply settle_sets in Hv as [-> ->]; [|exact Hn].
    left. split; [reflexivity|]. now exists id.
  - unfold reconnectTimerFires in Hv.
    destruct (reconnectTimer s); [|cbn in Hv; congruence].
    rewrite (correlation_promises _ _
               (connect_correlation created (set_reconnectTimer None s)))
      in Hv.
    cbn in Hv. congruence.
  - unfold connectTimeout in Hv. destruct (connectionState s);
      cbn in Hv; congruence.
Qed.

(** C2, amended. A close that finds the reconnection budget used up
    leaves the state FAILED with no socket. A [send] made while the
    manager has no open socket (none at all, or one that is not open
    yet), in any reachable state, FAILED included, is not rejected: it
    writes nothing, registers its handler and its timer, appends the
    request to the offline queue and leaves the promise pending. The
    timer, when it fires, rejects the promise with the timeout error;
    and whatever happens afterwards, a pending promise is settled only
    by its request timer or by a response for which the handler of the
    call is registered, which resolves it or rejects it with the error
    of the response. *)
Theorem exhausted_budget_send_queues :
  (forall s code,
      maxReconnectAttempts (settings s) <= reconnectAttempts s ->
      connectionState (fst (step (SocketClose code) s)) = FAILED
      /\ ws (fst (step (SocketClose code) s)) = None)
  /\ (forall s request,
         reachable s -> socketOpen s = false ->
         let k := fst (fst (send request s)) in
         let s' := snd (fst (send request s)) in
         snd (send request s) = []
         /\ messageQueue s' = messageQueue s ++ [request]
         /\ connectionState s' = connectionState s
         /\ responseHandlers s' !! reqId request = Some k
         /\ timers s' !! k = Some (reqId request)
         /\ promises s' !! k = None
         /\ (k < sendCalls s')%nat
         /\ promises (requestTimerFires k s') !! k
            = Some (Rejected (timeoutMessage (reqId request)
                                (requestTimeout (settings s)))))
  /\ (forall s a k v,
         (k < sendCalls s)%nat ->
         promises s !! k = None ->
         promises (fst (step a s)) !! k = Some v ->
         (a = RequestTimer k
          /\ exists id,
               timers s !! k = Some id
               /\ v = Rejected (timeoutMessage id
                                  (requestTimeout (settings s))))
         \/ (exists response,
                a = SocketMessage (Some response)
                /\ responseHandlers s !! resId response = Some k
                /\ v = match resError response with
                       | Some [] => Rejected (lit "RPC error")
                       | Some message => Rejected message
                       | None => Resolved response
                       end)).
Proof.
  split; [|split].
  - intros s code H. cbn [step]. unfold on_close. cbn.
    destruct (Z.ltb_spec (reconnectAttempts s)
                (maxReconnectAttempts (settings s))) as [Hlt|_]; [lia|].
    rewrite andb_false_r.
    destruct (Z.leb_spec (maxReconnectAttempts (settings s))
                (reconnectAttempts s)) as [_|Hgt]; [|lia].
    split; reflexivity.
  - intros s request Hr Hoff k s'.
    apply reachable_fresh in Hr as (Hp & _ & _).
    subst k s'. rewrite (send_offline request s Hoff). cbn [fst snd].
    assert (Hk : promises s !! sendCalls s = None) by (apply Hp; lia).
    repeat split; cbn.
    + apply lookup_insert_eq.
    + apply lookup_insert_eq.
    + exact Hk.
    + lia.
    + unfold requestTimerFires. cbn. rewrite lookup_insert_eq.
      unfold settle. cbn. rewrite Hk. cbn. apply lookup_insert_eq.
  - apply pending_settled_by.
Qed.

Lemma exhausted_budget_send_queues_witness :
  connectionState (fst (step (SocketClose 1006) lastAttempt)) = FAILED
  /\ messageQueue (snd (fst (send getLedgerBalances failedState)))
     = messageQueue failedState ++ [getLedgerBalances].
Proof.
  split.
  - apply (proj1 exhausted_budget_send_queues lastAttempt 1006).
    vm_compute. discriminate.
  - pose proof (proj1 (proj2 exhausted_budget_send_queues) failedState
                  getLedgerBalances) as H.
    cbv zeta in H. apply H.
    + exists oneRetry, exhausted. vm_compute. reflexivity.
    + vm_compute. reflexivity.
Defined.

(** A request sent in the FAILED state is answered after a later
    connection: the error of the response rejects its promise, and no
    timer has fired. *)
Example failed_send_answered_after_reconnect :
  let '(k, s', _) := send getLedgerBalances failedState in
  let done := run [Connect reliable; SocketOpen;
                   SocketMessage (Some ledgerDenied)] s' in
  connectionState failedState = FAILED
  /\ snd done = [Wrote getLedgerBalances; ConnectResolved]
  /\ promises (fst done) !! k = Some (Rejected (lit "denied")).
Proof. vm_compute. repeat split. Qed.

End FailedState.

Section Backoff.
Import Js Transport Samples.

Lemma flushMessageQueue_link (s : Manager) :
  let s' := fst (flushMessageQueue s) in
  settings s' = settings s
  /\ reconnectAttempts s' = reconnectAttempts s
  /\ reconnectTimer s' = reconnectTimer s
  /\ connectionState s' = connectionState s.
Proof.
  unfold flushMessageQueue.
  destruct (isConnected s); [|now repeat split].
  destruct (ws s) as [sock|]; [|now repeat split].
  destruct (flushLoop sock (messageQueue s)). now repeat split.
Qed.

Lemma open_link (s : Manager) :
  let s' := fst (step SocketOpen s) in
  settings s' = settings s
  /\ reconnectAttempts s' = 0
  /\ reconnectTimer s' = reconnectTimer s
  /\ connectionState s' = CONNECTED
  /\ eventHandlers s' = eventHandlers s.
Proof.
  cbn [step]. unfold on_open.
  pose proof (flushMessageQueue_link
                (set_reconnectAttempts 0
                   (set_connectionState CONNECTED (markOpen s))))
    as (H1 & H2 & H3 & H4).
  pose proof (flushMessageQueue_handlers
                (set_reconnectAttempts 0
                   (set_connectionState CONNECTED (markOpen s)))) as H5.
  destruct (flushMessageQueue _) as [s3 writes]. cbn [fst] in *.
  rewrite H1, H2, H3, H4, H5. unfold markOpen.
  destruct (ws s); now repeat split.
Qed.

Lemma close_schedules (s : Manager) (code : Z) :
  code <> 1000 ->
  reconnectAttempts s < maxReconnectAttempts (settings s) ->
  reconnectTimer s = None ->
  let n := reconnectAttempts s + 1 in
  let delay := Z.min (reconnectDelay (settings s) * 2 ^ (n - 1))
                     (maxReconnectDelay (settings s)) in
  step (SocketClose code) s
  = (set_reconnectTimer (Some delay)
       (set_connectionState RECONNECTING
          (set_reconnectAttempts n
             (set_ws None (set_connectionState DISCONNECTED s)))),
     invoke OnDisconnect s ++ [ReconnectIn delay]).
Proof.
  intros Hcode Hlt Htimer. cbn [step]. unfold on_close. cbn.
  destruct (Z.eqb_spec code 1000) as [|_]; [contradiction|].
  destruct (Z.ltb_spec (reconnectAttempts s)
              (maxReconnectAttempts (settings s))) as [_|Hge]; [|lia].
  cbn. unfold scheduleReconnect. cbn. rewrite Htimer. reflexivity.
Qed.

Example backoff_doubles_up_to_the_cap :
  snd (run nineDrops (new eightRetries))
  = [ReconnectIn 1000; ReconnectIn 2000; ReconnectIn 4000; ReconnectIn 8000;
     ReconnectIn 16000; ReconnectIn 30000; ReconnectIn 30000;
     ReconnectIn 30000]
  /\ connectionState (fst (run nineDrops (new eightRetries))) = FAILED.
Proof. vm_compute. split; reflexivity. Qed.

Lemma invoke_no_timer (h : hook) (s : Manager) (d : Z) :
  ~ In (ReconnectIn d) (invoke h s).
Proof.
  unfold invoke. destruct (registered h s); cbn; [|tauto].
  intros [H|[]]. discriminate H.
Qed.

(** C9. Whenever a close arms the reconnect timer, the close was not
    clean (code other than 1000) and within the budget, and the delay is
    [min (initial * 2^(n-1)) max] for the attempt [n] it starts, one
    more than the attempts so far. A non-clean close within the budget
    does so unless a reconnect is already pending. Every open resets the
    attempt counter to 0, so the first close after an open is followed
    by the delay [min initial max], the initial delay itself when it
    does not exceed the maximum. *)
Theorem reconnect_backoff :
  (forall s code d,
      In (ReconnectIn d) (snd (step (SocketClose code) s)) ->
      let n := reconnectAttempts s + 1 in
      let s' := fst (step (SocketClose code) s) in
      code <> 1000
      /\ reconnectAttempts s < maxReconnectAttempts (settings s)
      /\ d = Z.min (reconnectDelay (settings s) * 2 ^ (n - 1))
                   (maxReconnectDelay (settings s))
      /\ reconnectAttempts s' = n
      /\ reconnectTimer s' = Some d)
  /\ (forall s code,
      code <> 1000 ->
      0 <= reconnectAttempts s < maxReconnectAttempts (settings s) ->
      reconnectTimer s = None ->
      let n := reconnectAttempts s + 1 in
      let delay := Z.min (reconnectDelay (settings s) * 2 ^ (n - 1))
                         (maxReconnectDelay (settings s)) in
      let s' := fst (step (SocketClose code) s) in
      1 <= n
      /\ snd (step (SocketClose code) s)
         = invoke OnDisconnect s ++ [ReconnectIn delay]
      /\ reconnectAttempts s' = n
      /\ reconnectTimer s' = Some delay
      /\ connectionState s' = RECONNECTING)
  /\ (forall s, reconnectAttempts (fst (step SocketOpen s)) = 0)
  /\ (forall s code,
         code <> 1000 ->
         0 < maxReconnectAttempts (settings s) ->
         reconnectTimer s = None ->
         let delay := Z.min (reconnectDelay (settings s))
                            (maxReconnectDelay (settings s)) in
         snd (step (SocketClose code) (fst (step SocketOpen s)))
         = invoke OnDisconnect s ++ [ReconnectIn delay]
         /\ (reconnectDelay (settings s) <= maxReconnectDelay (settings s) ->
             delay = reconnectDelay (settings s))).
Proof.
  split; [|split; [|split]].
  - intros s code d Hin n s'. subst s'. revert Hin.
    cbn [step]. unfold on_close. cbn.
    destruct (Z.eqb_spec code 1000) as [->|Hcode]; cbn.
    + destruct (_ <=? _); cbn; intros H; now apply invoke_no_timer in H.
    + destruct (Z.ltb_spec (reconnectAttempts s)
                  (maxReconnectAttempts (settings s))) as [Hlt|Hge]; cbn.
      * unfold scheduleReconnect. cbn.
        destruct (reconnectTimer s) as [pending|]; cbn;
          rewrite ?app_nil_r; intros H.
        -- now apply invoke_no_timer in H.
        -- apply in_app_or in H as [H|[H|[]]];
             [now apply invoke_no_timer in H|].
           injection H as <-. repeat split; auto.
      * destruct (_ <=? _); cbn; intros H; now apply invoke_no_timer in H.
  - intros s code Hcode [H0 Hlt] Htimer n delay s'.
    subst s'. unfold n, delay.
    rewrite (close_schedules s code Hcode Hlt Htimer). cbn.
    repeat split. lia.
  - intros s. apply (open_link s).
  - intros s code Hcode Hmax Htimer delay.
    pose proof (open_link s) as (H1 & H2 & H3 & H4 & H5).
    cbv zeta in *.
    split.
    + rewrite close_schedules; try assumption.
      * cbn [snd]. rewrite H1, H2. unfold invoke, registered.
        rewrite H5. cbn. unfold delay.
        now rewrite Z.mul_1_r.
      * rewrite H1, H2. exact Hmax.
      * now rewrite H3.
    + intros Hle. unfold delay. lia.
Qed.

Lemma reconnect_backoff_witness :
  snd (step (SocketClose 1006) (fst (run [Connect reliable] (new defaults))))
  = [ReconnectIn 1000].
Proof.
  pose proof (proj1 (proj2 reconnect_backoff)
                (fst (run [Connect reliable] (new defaults))) 1006
                ltac:(discriminate)
                ltac:(vm_compute; split; [discriminate | reflexivity])
                eq_refl) as H.
  cbv zeta in H. exact (proj1 (proj2 H)).
Defined.

End Backoff.

Section StaleRequests.
Import Js Transport Samples.

Lemma connect_fresh_socket (behaviour : RPCRequest -> bool) (s : Manager) :
  connectionState s <> CONNECTED ->
  connect (Some behaviour) s
  = (set_ws (Some {| readyState := WS_CONNECTING; accepts := behaviour |})
       (set_connectionState CONNECTING s), []).
Proof.
  intros H. unfold connect.
  destruct (connectionState s); try reflexivity. contradiction.
Qed.

Lemma timer_rejects (request : RPCRequest) (s : Manager) :
  promises s !! sendCalls s = None ->
  socketOpen s = false ->
  requestTimerFires (sendCalls s) (snd (fst (send request s)))
  = set_promises
      (<[sendCalls s :=
           Rejected (timeoutMessage (reqId request)
                       (requestTimeout (settings s)))]> (promises s))
      (set_responseHandlers
         (delete (reqId request)
            (<[reqId request := sendCalls s]> (responseHandlers s)))
         (set_timers
            (delete (sendCalls s)
               (<[sendCalls s := reqId request]> (timers s)))
            (snd (fst (send request s))))).
Proof.
  intros Hk Hoff. rewrite (send_offline request s Hoff). cbn [fst snd].
  unfold requestTimerFires. cbn. rewrite lookup_insert_eq.
  unfold settle. cbn. rewrite Hk. reflexivity.
Qed.

(** C10. A request sent while the socket is not open is appended to the
    offline queue with its timer running. When the timer fires before a
    connection opens, the caller's promise is rejected with the timeout
    error and the handler is removed, but the request stays queued: the
    next connection that opens writes it with the rest of the queue, and
    the reply to it finds no handler and is treated as a
    notification, which settles no promise. *)
Theorem timed_out_request_still_flushed (s : Manager) (request : RPCRequest)
    (behaviour : RPCRequest -> bool) (reply : RPCResponse) :
  reachable s ->
  socketOpen s = false ->
  connectionState s <> CONNECTED ->
  (forall r, In r (messageQueue s ++ [request]) -> behaviour r = true) ->
  resId reply = reqId request ->
  let k := fst (fst (send request s)) in
  let s1 := snd (fst (send request s)) in
  let s2 := requestTimerFires k s1 in
  let reopen := run [Connect (Some behaviour); SocketOpen] s2 in
  let answered := step (SocketMessage (Some reply)) (fst reopen) in
  (snd (send request s) = []
   /\ messageQueue s1 = messageQueue s ++ [request]
   /\ timers s1 !! k = Some (reqId request)
   /\ promises s1 !! k = None)
  /\ (promises s2 !! k
      = Some (Rejected (timeoutMessage (reqId request)
                          (requestTimeout (settings s))))
      /\ responseHandlers s2 !! reqId request = None
      /\ messageQueue s2 = messageQueue s ++ [request])
  /\ snd reopen
     = map Wrote (messageQueue s ++ [request])
       ++ invoke OnConnect s ++ [ConnectResolved]
  /\ (snd answered = invoke OnMessage s ++ [Notified (resMethod reply)]
      /\ promises (fst answered) = promises s2).
Proof.
  intros Hr Hoff Hstate Hacc Hid k s1 s2 reopen answered.
  apply reachable_fresh in Hr as (Hp & _ & _).
  assert (Hk : promises s !! sendCalls s = None) by (apply Hp; lia).
  assert (Ek : k = sendCalls s)
    by (unfold k; now rewrite (send_offline request s Hoff)).
  assert (E2 : s2 = requestTimerFires (sendCalls s) s1) by (unfold s2; now rewrite Ek).
  unfold s1 in E2. rewrite (timer_rejects request s Hk Hoff) in E2.
  rewrite (send_offline request s Hoff) in E2. cbn [fst snd] in E2.
  assert (E1 : s1 = snd (fst (send request s))) by reflexivity.
  rewrite (send_offline request s Hoff) in E1. cbn [fst snd] in E1.
  split; [|split; [|split]].
  - rewrite (send_offline request s Hoff), E1, Ek. cbn.
    repeat split; [apply lookup_insert_eq | exact Hk].
  - rewrite E2, Ek. cbn. repeat split.
    + apply lookup_insert_eq.
    + apply lookup_delete_eq.
  - unfold reopen. cbn [run]. change (step (Connect (Some behaviour)) s2) with (connect (Some behaviour) s2).
    rewrite (connect_fresh_socket behaviour s2)
      by (rewrite E2; exact Hstate).
    pose proof (open_events_accepting
                  (set_ws (Some {| readyState := WS_CONNECTING;
                                   accepts := behaviour |})
                     (set_connectionState CONNECTING s2))
                  {| readyState := WS_CONNECTING; accepts := behaviour |}
                  eq_refl) as Hopen.
    destruct (step SocketOpen _) as [s3 evs3]. cbn [fst snd] in *.
    rewrite app_nil_r.
    assert (Hq : messageQueue s2 = messageQueue s ++ [request])
      by (rewrite E2; reflexivity).
    cbn in Hopen. rewrite Hq in Hopen.
    destruct (Hopen Hacc) as [-> _].
    rewrite E2. reflexivity.
  - assert (Hcorr : correlation (fst reopen) = correlation s2).
    { unfold reopen. cbn [run]. change (step (Connect (Some behaviour)) s2) with (connect (Some behaviour) s2).
      rewrite (connect_fresh_socket behaviour s2)
        by (rewrite E2; exact Hstate).
      pose proof (on_open_correlation
                    (markOpen
                       (set_ws (Some {| readyState := WS_CONNECTING;
                                        accepts := behaviour |})
                          (set_connectionState CONNECTING s2)))) as H.
      cbn [step]. destruct (on_open _) as [s3 evs3]. cbn [fst] in *.
      rewrite H. reflexivity. }
    assert (Hhandlers : eventHandlers (fst reopen) = eventHandlers s).
    { unfold reopen. cbn [run]. change (step (Connect (Some behaviour)) s2) with (connect (Some behaviour) s2).
      rewrite (connect_fresh_socket behaviour s2)
        by (rewrite E2; exact Hstate).
      pose proof (open_link
                    (set_ws (Some {| readyState := WS_CONNECTING;
                                     accepts := behaviour |})
                       (set_connectionState CONNECTING s2)))
        as (_ & _ & _ & _ & H).
      destruct (step SocketOpen _) as [s3 evs3]. cbn [fst] in *.
      rewrite H, E2. reflexivity. }
    unfold correlation in Hcorr. injection Hcorr as Hpr _ Hrh _.
    unfold answered. cbn [step on_message]. unfold handleMessage.
    rewrite Hid, Hrh.
    replace (responseHandlers s2 !! reqId request) with (@None nat)
      by (rewrite E2; cbn; now rewrite lookup_delete_eq).
    cbn [fst snd]. split.
    + unfold invoke, registered. now rewrite Hhandlers.
    + rewrite <- Hpr. unfold handleNotification.
      destruct (eqb _ _); [|reflexivity].
      destruct (resAssets reply); reflexivity.
Qed.

Lemma timed_out_request_still_flushed_witness :
  snd (run [Connect (Some (fun _ => true)); SocketOpen]
         (requestTimerFires (fst (fst (send getLedgerBalances lostLink)))
            (snd (fst (send getLedgerBalances lostLink)))))
  = map Wrote (messageQueue lostLink ++ [getLedgerBalances])
    ++ invoke OnConnect lostLink ++ [ConnectResolved].
Proof.
  pose proof (timed_out_request_still_flushed lostLink getLedgerBalances
                (fun _ => true) ledgerReply) as H.
  cbv zeta in H. apply H.
  - exists defaults. eexists. reflexivity.
  - vm_compute. reflexivity.
  - vm_compute. discriminate.
  - intros r _. reflexivity.
  - reflexivity.
Defined.

End StaleRequests.

Section RequestIds.
Import Js Transport Samples.

Lemma writes_issue_nothing (evs : list event) :
  forallb isWrite evs = true -> issuedIds evs = [].
Proof.
  induction evs as [|e evs IH]; [reflexivity|].
  simpl. intros H. apply andb_prop in H as [He Hevs].
  unfold issuedIds in *. cbn [omap list_omap].
  destruct e; try discriminate; cbn; auto.
Qed.

Lemma issuedIds_app (a b : list event) :
  issuedIds (a ++ b) = issuedIds a ++ issuedIds b.
Proof. unfold issuedIds. apply omap_app. Qed.

Lemma invoke_issues_nothing (h : hook) (s : Manager) :
  issuedIds (invoke h s) = [].
Proof. unfold invoke. destruct (registered h s); reflexivity. Qed.

Lemma settle_counter (k : nat) (r : settlement) (s : Manager) :
  requestIdCounter (settle k r s) = requestIdCounter s.
Proof. unfold settle. destruct (promises s !! k); reflexivity. Qed.

Lemma flushMessageQueue_counter (s : Manager) :
  requestIdCounter (fst (flushMessageQueue s)) = requestIdCounter s.
Proof.
  unfold flushMessageQueue.
  destruct (isConnected s); [|reflexivity].
  destruct (ws s) as [sock|]; [|reflexivity].
  destruct (flushLoop sock (messageQueue s)). reflexivity.
Qed.

Lemma on_open_counter (s : Manager) :
  requestIdCounter (fst (on_open s)) = requestIdCounter s
  /\ issuedIds (snd (on_open s)) = [].
Proof.
  split.
  - unfold on_open.
    pose proof (flushMessageQueue_counter
                  (set_reconnectAttempts 0 (set_connectionState CONNECTED s)))
      as H.
    destruct (flushMessageQueue _). exact H.
  - rewrite on_open_events, !issuedIds_app, invoke_issues_nothing.
    now rewrite (writes_issue_nothing _ (flushMessageQueue_writes _)).
Qed.

Lemma on_close_counter (code : Z) (s : Manager) :
  requestIdCounter (fst (on_close code s)) = requestIdCounter s
  /\ issuedIds (snd (on_close code s)) = [].
Proof.
  unfold on_close, scheduleReconnect. cbn.
  destruct (negb (code =? 1000) && _).
  - destruct (reconnectTimer s); cbn;
      rewrite ?issuedIds_app, ?invoke_issues_nothing; now split.
  - destruct (_ <=? _); cbn; rewrite ?invoke_issues_nothing; now split.
Qed.

Lemma connect_counter (created : option (RPCRequest -> bool)) (s : Manager) :
  requestIdCounter (fst (connect created s)) = requestIdCounter s
  /\ issuedIds (snd (connect created s)) = [].
Proof. unfold connect. destruct (connectionState s), created; now split. Qed.

Lemma send_counter (request : RPCRequest) (s : Manager) :
  requestIdCounter (snd (fst (send request s))) = requestIdCounter s
  /\ issuedIds (snd (send request s)) = [].
Proof.
  unfold send. cbv zeta. destruct (socketOpen _); [|now split].
  destruct (ws _) as [sock|]; [|now split].
  destruct (accepts sock request); [now split|].
  cbn [fst snd]. rewrite settle_counter. now split.
Qed.

Lemma handleMessage_counter (response : RPCResponse) (s : Manager) :
  requestIdCounter (fst (handleMessage response s)) = requestIdCounter s
  /\ issuedIds (snd (handleMessage response s)) = [].
Proof.
  unfold handleMessage, runHandler, handleNotification.
  destruct (responseHandlers s !! resId response) as [k|]; cbn [fst snd].
  - rewrite invoke_issues_nothing. split; [|reflexivity].
    destruct (resError response); cbn; now rewrite settle_counter.
  - rewrite issuedIds_app, invoke_issues_nothing. split; [|reflexivity].
    destruct (eqb _ _); [|reflexivity].
    destruct (resAssets response); reflexivity.
Qed.

(** Only [getNextRequestId] touches the counter or hands out an id. *)
Lemma step_counter (a : action) (s : Manager) :
  a <> GetNextRequestId ->
  requestIdCounter (fst (step a s)) = requestIdCounter s
  /\ issuedIds (snd (step a s)) = [].
Proof.
  intros Ha.
  destruct a as [created| |request| |h| |parsed| |code|k|created|];
    cbn [step]; try contradiction.
  - apply connect_counter.
  - unfold disconnect. destruct (ws _); now split.
  - pose proof (send_counter request s) as H.
    destruct (send request s) as [[k s'] evs]. exact H.
  - now split.
  - destruct (on_open_counter (markOpen s)) as [H1 H2].
    rewrite H1, H2. unfold markOpen. destruct (ws s); now split.
  - destruct parsed as [response|]; [apply handleMessage_counter|].
    cbn. now rewrite invoke_issues_nothing.
  - unfold on_error. cbn [fst snd].
    rewrite issuedIds_app, invoke_issues_nothing.
    destruct (connectionState s); now split.
  - apply on_close_counter.
  - cbn [fst snd]. unfold requestTimerFires.
    destruct (timers s !! k); [|now split].
    now rewrite settle_counter.
  - unfold reconnectTimerFires. destruct (reconnectTimer s); [|now split].
    destruct (connect_counter created (set_reconnectTimer None s)) as [H1 H2].
    now rewrite H1, H2.
  - unfold connectTimeout.
    destruct (connectionState s); try now split.
    destruct (ws s); now split.
Qed.

Lemma map_seq_shift (c : Z) (n : nat) :
  map (fun i => c + 1 + Z.of_nat i) (seq 0 n)
  = map (fun i => c + Z.of_nat i) (seq 1 n).
Proof.
  rewrite <- seq_shift, map_map. apply map_ext. intros i. lia.
Qed.

(** From a counter at [c], the ids handed out are [c], [c + 1], ... as
    long as they stay in the range where the counter is exact. *)
Lemma run_ids (actions : list action) (s : Manager) :
  let ids := issuedIds (snd (run actions s)) in
  requestIdCounter s + Z.of_nat (length ids) <= maxExact + 1 ->
  ids = map (fun i => requestIdCounter s + Z.of_nat i) (seq 0 (length ids)).
Proof.
  revert s. induction actions as [|a rest IH]; intros s; [reflexivity|].
  cbn [run].
  assert (D : a = GetNextRequestId \/ a <> GetNextRequestId)
    by (destruct a; (now left) || (right; discriminate)).
  destruct D as [->|Hne].
  - cbn [step getNextRequestId].
    specialize (IH (set_requestIdCounter (jsSucc (requestIdCounter s)) s)).
    destruct (run rest _) as [s2 evs2]. cbn [fst snd] in *.
    rewrite issuedIds_app.
    change (issuedIds [IdIssued (requestIdCounter s)])
      with [requestIdCounter s].
    cbn [app length seq map]. intros Hb.
    rewrite Z.add_0_r. f_equal.
    destruct (issuedIds evs2) as [|i0 ids'] eqn:E; [reflexivity|].
    assert (Hc : requestIdCounter s < maxExact)
      by (cbn [length] in Hb; lia).
    assert (Hs : jsSucc (requestIdCounter s) = requestIdCounter s + 1).
    { unfold jsSucc.
      destruct (Z.ltb_spec (requestIdCounter s) maxExact); [reflexivity|lia]. }
    rewrite Hs in IH. rewrite <- map_seq_shift. apply IH.
    change (requestIdCounter
              (set_requestIdCounter (requestIdCounter s + 1) s))
      with (requestIdCounter s + 1).
    lia.
  - destruct (step_counter a s Hne) as [Hc He].
    specialize (IH (fst (step a s))).
    destruct (step a s) as [s1 evs1]. cbn [fst snd] in *.
    destruct (run rest s1) as [s2 evs2]. cbn [fst snd] in *.
    rewrite issuedIds_app, He. cbn [app]. rewrite <- Hc. exact IH.
Qed.

Lemma nth_error_map_seq (f : nat -> Z) (n start i : nat) (a : Z) :
  nth_error (map f (seq start n)) i = Some a -> a = f (start + i)%nat.
Proof.
  revert start i. induction n as [|n IH]; intros start [|i]; cbn;
    try discriminate.
  - intros [= <-]. f_equal. lia.
  - intros H. apply IH in H. rewrite H. f_equal. lia.
Qed.

Example ids_across_reconnect :
  issuedIds (snd (run idsAcrossReconnect (new defaults))) = [1; 2; 3; 4].
Proof. vm_compute. reflexivity. Qed.

(** C3. In every execution of a manager, whatever else happens to it
    (sends, closes, reconnections), the ids returned by
    [getNextRequestId] are 1, 2, 3, ... in this order: they start at 1,
    increase strictly and never repeat. This holds for the first 2^53
    ids, the range in which the counter, a JS number, is exact. *)
Theorem request_ids_sequential (config : WebSocketConfig)
    (actions : list action) :
  let ids := issuedIds (snd (run actions (new config))) in
  Z.of_nat (length ids) <= 2 ^ 53 ->
  ids = map (fun i => Z.of_nat i + 1) (seq 0 (length ids))
  /\ (forall i j a b,
         (i < j)%nat ->
         nth_error ids i = Some a -> nth_error ids j = Some b -> a < b)
  /\ List.NoDup ids.
Proof.
  intros ids Hlen.
  assert (E : ids = map (fun i => Z.of_nat i + 1) (seq 0 (length ids))).
  { pose proof (run_ids actions (new config)) as H. cbv zeta in H.
    fold ids in H. cbn [requestIdCounter new] in H.
    rewrite H at 1 by (unfold maxExact; lia).
    apply map_ext. intros i. lia. }
  split; [exact E|]. split.
  - intros i j a b Hij Ha Hb. rewrite E in Ha, Hb.
    apply nth_error_map_seq in Ha, Hb. lia.
  - rewrite E. apply Finite.Injective_map_NoDup; [|apply seq_NoDup].
    intros x y Hxy. lia.
Qed.

Lemma request_ids_sequential_witness :
  List.NoDup (issuedIds (snd (run idsAcrossReconnect (new defaults)))).
Proof.
  apply (request_ids_sequential defaults idsAcrossReconnect).
  vm_compute. discriminate.
Defined.

End RequestIds.

Section ChannelIdentity.
Import Js Channels Samples.

Variable keccak256 : str -> str.
Variable isAddress : str -> bool.

(** What the library's [isAddress] guarantees about the text. *)
Hypothesis isAddress_shape :
  forall a, isAddress a = true -> addressShape a = true.

Lemma hexVal_hexChar (d : Z) : 0 <= d < 16 -> hexVal (hexChar d) = Some d.
Proof.
  intros H.
  assert (E : d = 0 \/ d = 1 \/ d = 2 \/ d = 3 \/ d = 4 \/ d = 5 \/ d = 6
              \/ d = 7 \/ d = 8 \/ d = 9 \/ d = 10 \/ d = 11 \/ d = 12
              \/ d = 13 \/ d = 14 \/ d = 15) by lia.
  repeat (destruct E as [-> | E]; [reflexivity|]). now subst.
Qed.

Lemma hexDigits_length (n : nat) (v : Z) : length (hexDigits n v) = n.
Proof.
  revert v. induction n as [|n IH]; intros v; [reflexivity|].
  cbn [hexDigits]. rewrite length_app, IH. cbn. lia.
Qed.

(** Reading the digits that [hexDigits] writes gives the number back. *)
Lemma hexDigits_read (n : nat) (v acc : Z) :
  fold_left (radixStep 16) (hexDigits n v) (Some acc)
  = Some (acc * 16 ^ Z.of_nat n + (v mod (16 ^ Z.of_nat n))).
Proof.
  revert v acc. induction n as [|n IH]; intros v acc.
  - cbn. rewrite Z.mod_1_r. f_equal. lia.
  - cbn [hexDigits]. rewrite fold_left_app, IH. cbn [fold_left].
    unfold radixStep.
    assert (Hd : 0 <= v mod 16 < 16) by (apply Z.mod_pos_bound; lia).
    rewrite (hexVal_hexChar _ Hd).
    destruct (Z.ltb_spec (v mod 16) 16) as [_|Hge]; [|lia]. f_equal.
    rewrite Nat2Z.inj_succ, Z.pow_succ_r by lia.
    assert (Hp : 0 < 16 ^ Z.of_nat n) by (apply Z.pow_pos_nonneg; lia).
    rewrite (Z.rem_mul_r v 16 (16 ^ Z.of_nat n)) by lia. ring.
Qed.

Lemma radixValue_hexDigits (v : Z) :
  0 <= v < 2 ^ 256 -> radixValue 16 (hexDigits 64 v) = Some v.
Proof.
  intros H. unfold radixValue.
  destruct (hexDigits 64 v) as [|c r] eqn:E.
  - apply (f_equal (@length ascii)) in E. rewrite hexDigits_length in E.
    discriminate E.
  - rewrite <- E, hexDigits_read. f_equal.
    change (16 ^ Z.of_nat 64) with (2 ^ 256). rewrite Z.mod_small by exact H.
    lia.
Qed.

Lemma hexVal_lower (c : ascii) : hexVal (toLowerChar c) = hexVal c.
Proof. destruct c as [[] [] [] [] [] [] [] []]; reflexivity. Qed.

Lemma read_lower (d : str) (acc : option Z) :
  fold_left (radixStep 16) (toLowerCase d) acc
  = fold_left (radixStep 16) d acc.
Proof.
  revert acc. induction d as [|c d IH]; intros acc; [reflexivity|].
  cbn [toLowerCase map fold_left].
  replace (radixStep 16 acc (toLowerChar c)) with (radixStep 16 acc c)
    by (unfold radixStep; now rewrite hexVal_lower).
  apply IH.
Qed.

Lemma read_zeros (n : nat) :
  fold_left (radixStep 16) (zeros n) (Some 0) = Some 0.
Proof. induction n as [|n IH]; [reflexivity | exact IH]. Qed.

Lemma hexVal_small (c : ascii) (x : Z) :
  hexVal c = Some x -> (x <? 16) = true.
Proof.
  destruct c as [[] [] [] [] [] [] [] []]; vm_compute;
    intros H; try discriminate H; injection H as <-; reflexivity.
Qed.

Lemma read_digits (d : str) (acc : Z) :
  forallb (fun c => match hexVal c with Some _ => true | None => false end) d
  = true ->
  exists v, fold_left (radixStep 16) d (Some acc) = Some v.
Proof.
  revert acc. induction d as [|c d IH]; intros acc H; [now exists acc|].
  cbn [forallb] in H. apply andb_prop in H as [Hc Hd].
  cbn [fold_left]. unfold radixStep at 2.
  destruct (hexVal c) as [x|] eqn:E; [|discriminate Hc].
  rewrite (hexVal_small c x E). now apply IH.
Qed.

(** The word of an address: 24 zeros and the 40 digits in lower case;
    read as a number it is the address. *)
Lemma encodeAddress_word (a : str) :
  isAddress a = true ->
  exists w,
    encodeAddress isAddress a = Some w
    /\ length w = 64%nat
    /\ radixValue 16 w = addressValue a
    /\ addressValue a <> None.
Proof.
  intros Ha. pose proof (isAddress_shape a Ha) as Hs.
  unfold addressShape in Hs.
  apply andb_prop in Hs as [Hs Hhex]. apply andb_prop in Hs as [H0x Hlen].
  apply Nat.eqb_eq in Hlen.
  destruct a as [|c0 a']; [discriminate H0x|].
  destruct a' as [|c1 d];
    [cbn in H0x; rewrite andb_false_r in H0x; discriminate H0x|].
  cbn [startsWith lit list_ascii_of_string] in H0x.
  apply andb_prop in H0x as [E0 E1]. apply andb_prop in E1 as [E1 _].
  apply Ascii.eqb_eq in E0, E1. subst c0 c1.
  change (skipn 2 ("0"%char :: "x"%char :: d)) with d in Hlen, Hhex.
  exists (zeros 24 ++ toLowerCase d).
  assert (Hl : length (toLowerCase d) = 40%nat)
    by (unfold toLowerCase; now rewrite length_map).
  split; [|split; [|split]].
  - unfold encodeAddress. rewrite Ha.
    change (strip0x (toLowerCase ("0"%char :: "x"%char :: d)))
      with (toLowerCase d).
    unfold padStart0. now rewrite Hl.
  - rewrite length_app, Hl. reflexivity.
  - unfold addressValue.
    change (skipn 2 ("0"%char :: "x"%char :: d)) with d. unfold radixValue.
    destruct d as [|c d']; [discriminate Hlen|].
    change (zeros 24 ++ toLowerCase (c :: d'))
      with ("0"%char :: (zeros 23 ++ toLowerCase (c :: d'))).
    change ("0"%char :: (zeros 23 ++ toLowerCase (c :: d')))
      with (zeros 24 ++ toLowerCase (c :: d')).
    now rewrite fold_left_app, read_zeros, read_lower.
  - unfold addressValue.
    change (skipn 2 ("0"%char :: "x"%char :: d)) with d. unfold radixValue.
    destruct d as [|c d']; [discriminate Hlen|].
    destruct (read_digits (c :: d') 0 Hhex) as [v Hv].
    cbv beta iota. rewrite Hv. discriminate.
Qed.

Lemma encodeUint256_word (v : Z) :
  0 <= v < 2 ^ 256 ->
  encodeUint256 v = Some (hexDigits 64 v).
Proof.
  intros [H0 H1]. unfold encodeUint256.
  destruct (Z.leb_spec 0 v) as [_|]; [|lia].
  destruct (Z.ltb_spec v (2 ^ 256)) as [_|]; [reflexivity | lia].
Qed.

Lemma skipn_all_app {A : Type} (a r : list A) :
  skipn (length a) (a ++ r) = r.
Proof. induction a as [|x a IH]; [reflexivity | exact IH]. Qed.

Lemma firstn_all_app {A : Type} (b r : list A) :
  firstn (length b) (b ++ r) = b.
Proof. induction b as [|x b IH]; [reflexivity | simpl; now rewrite IH]. Qed.

Lemma wordAt_layout (i : nat) (pre w post : str) :
  length pre = (2 + 64 * i)%nat ->
  length w = 64%nat ->
  wordAt i (pre ++ w ++ post) = radixValue 16 w.
Proof.
  intros Hpre Hw. unfold wordAt. rewrite <- Hpre, skipn_all_app.
  rewrite <- Hw at 1. now rewrite firstn_all_app.
Qed.

(** What an encoding that succeeds says about the values encoded. *)
Lemma encode_defined (ps : str * str) (adj : str) (ch n : Z) (encoded : str) :
  encodeAbiParameters isAddress ps adj ch n = Some encoded ->
  isAddress (fst ps) = true /\ isAddress (snd ps) = true
  /\ isAddress adj = true /\ 0 <= ch < 2 ^ 256 /\ 0 <= n < 2 ^ 256.
Proof.
  unfold encodeAbiParameters, encodeAddress, encodeUint256.
  destruct (isAddress (fst ps)); [|discriminate].
  destruct (isAddress (snd ps)); [|discriminate].
  destruct (isAddress adj); [|discriminate].
  destruct (Z.leb_spec 0 ch); [|discriminate].
  destruct (Z.ltb_spec ch (2 ^ 256)); [|discriminate].
  destruct (Z.leb_spec 0 n); [|discriminate].
  destruct (Z.ltb_spec n (2 ^ 256)); [|discriminate].
  intros _. repeat split; assumption.
Qed.

Lemma encode_layout (ps : str * str) (adj : str) (ch n : Z) :
  isAddress (fst ps) = true -> isAddress (snd ps) = true ->
  isAddress adj = true -> 0 <= ch < 2 ^ 256 -> 0 <= n < 2 ^ 256 ->
  exists encoded,
    encodeAbiParameters isAddress ps adj ch n = Some encoded
    /\ startsWith (lit "0x") encoded = true
    /\ length encoded = (2 + 5 * 64)%nat
    /\ wordAt 0 encoded = addressValue (fst ps)
    /\ wordAt 1 encoded = addressValue (snd ps)
    /\ wordAt 2 encoded = addressValue adj
    /\ wordAt 3 encoded = Some ch
    /\ wordAt 4 encoded = Some n.
Proof.
  intros H0 H1 H2 Hch Hn.
  destruct (encodeAddress_word _ H0) as (w0 & E0 & L0 & V0 & _).
  destruct (encodeAddress_word _ H1) as (w1 & E1 & L1 & V1 & _).
  destruct (encodeAddress_word _ H2) as (w2 & E2 & L2 & V2 & _).
  pose proof (hexDigits_length 64 ch) as L3.
  pose proof (hexDigits_length 64 n) as L4.
  exists (lit "0x" ++ w0 ++ w1 ++ w2 ++ hexDigits 64 ch ++ hexDigits 64 n).
  split.
  { unfold encodeAbiParameters.
    rewrite E0, E1, E2, (encodeUint256_word ch Hch), (encodeUint256_word n Hn).
    reflexivity. }
  split; [reflexivity|].
  split; [rewrite !length_app, L0, L1, L2, L3, L4; reflexivity|].
  split; [|split; [|split; [|split]]].
  - rewrite <- V0.
    apply (wordAt_layout 0 (lit "0x") w0); [reflexivity | exact L0].
  - rewrite <- V1. rewrite (app_assoc (lit "0x") w0).
    apply (wordAt_layout 1 (lit "0x" ++ w0) w1); [|exact L1].
    rewrite length_app, L0. reflexivity.
  - rewrite <- V2. rewrite (app_assoc w0 w1), (app_assoc (lit "0x")).
    apply (wordAt_layout 2 (lit "0x" ++ w0 ++ w1) w2); [|exact L2].
    rewrite !length_app, L0, L1. reflexivity.
  - rewrite <- (radixValue_hexDigits ch Hch).
    rewrite (app_assoc w1 w2), (app_assoc w0), (app_assoc (lit "0x")).
    rewrite <- (app_nil_r (hexDigits 64 n)) at 1.
    rewrite (app_assoc (hexDigits 64 ch)), <- (app_assoc _ (hexDigits 64 n)).
    rewrite app_nil_r.
    apply (wordAt_layout 3 (lit "0x" ++ w0 ++ w1 ++ w2) (hexDigits 64 ch));
      [|exact L3].
    rewrite !length_app, L0, L1, L2. reflexivity.
  - rewrite <- (radixValue_hexDigits n Hn).
    rewrite (app_assoc w2 (hexDigits 64 ch)), (app_assoc w1), (app_assoc w0),
      (app_assoc (lit "0x")).
    rewrite <- (app_nil_r (hexDigits 64 n)) at 1.
    apply (wordAt_layout 4
             (lit "0x" ++ w0 ++ w1 ++ w2 ++ hexDigits 64 ch)
             (hexDigits 64 n) []); [|exact L4].
    rewrite !length_app, L0, L1, L2, L3. reflexivity.
Qed.

(** C8. For a channel with three addresses and two numbers below 2^256
    the channel id is keccak256 of the ABI encoding of (participants,
    adjudicator, challenge, nonce): the text 0x followed by five words
    of 32 bytes which, read back as numbers, are the two participants,
    the adjudicator, the challenge and the nonce, in this order. The id
    is computed from these values alone: a channel that agrees on them
    gets the same id, and an encoding is shared only by channels whose
    numbers are equal and whose addresses denote the same numbers. *)
Theorem channel_id_pure (c : Channel) :
  isAddress (fst (participants c)) = true ->
  isAddress (snd (participants c)) = true ->
  isAddress (adjudicator c) = true ->
  0 <= challenge c < 2 ^ 256 ->
  0 <= nonce c < 2 ^ 256 ->
  exists encoded,
    encodeAbiParameters isAddress (participants c) (adjudicator c)
      (challenge c) (nonce c) = Some encoded
    /\ computeChannelId keccak256 isAddress c = Some (keccak256 encoded)
    /\ startsWith (lit "0x") encoded = true
    /\ length encoded = (2 + 5 * 64)%nat
    /\ wordAt 0 encoded = addressValue (fst (participants c))
    /\ wordAt 1 encoded = addressValue (snd (participants c))
    /\ wordAt 2 encoded = addressValue (adjudicator c)
    /\ wordAt 3 encoded = Some (challenge c)
    /\ wordAt 4 encoded = Some (nonce c)
    /\ (forall c' : Channel,
          participants c' = participants c ->
          adjudicator c' = adjudicator c ->
          challenge c' = challenge c ->
          nonce c' = nonce c ->
          computeChannelId keccak256 isAddress c' = Some (keccak256 encoded))
    /\ (forall c' : Channel,
          encodeAbiParameters isAddress (participants c') (adjudicator c')
            (challenge c') (nonce c') = Some encoded ->
          challenge c' = challenge c
          /\ nonce c' = nonce c
          /\ addressValue (fst (participants c'))
             = addressValue (fst (participants c))
          /\ addressValue (snd (participants c'))
             = addressValue (snd (participants c))
          /\ addressValue (adjudicator c') = addressValue (adjudicator c)).
Proof.
  intros H0 H1 H2 Hch Hn.
  destruct (encode_layout _ _ _ _ H0 H1 H2 Hch Hn)
    as (encoded & E & Hx & Hl & W0 & W1 & W2 & W3 & W4).
  exists encoded.
  assert (Hid : computeChannelId keccak256 isAddress c
                = Some (keccak256 encoded)).
  { unfold computeChannelId. now rewrite E. }
  repeat (split; [assumption|]). split.
  - intros c' Hp Ha Hc Hnn. unfold computeChannelId.
    now rewrite Hp, Ha, Hc, Hnn, E.
  - intros c' E'.
    destruct (encode_defined _ _ _ _ _ E') as (H0' & H1' & H2' & Hch' & Hn').
    destruct (encode_layout _ _ _ _ H0' H1' H2' Hch' Hn')
      as (encoded' & E2 & _ & _ & W0' & W1' & W2' & W3' & W4').
    rewrite E' in E2. injection E2 as <-.
    rewrite W0 in W0'. rewrite W1 in W1'. rewrite W2 in W2'.
    rewrite W3 in W3'. rewrite W4 in W4'.
    injection W3' as ->. injection W4' as ->. now repeat split.
Qed.

End ChannelIdentity.

Section ChannelFacts.
Import Js Channels Samples.

Variable keccak256 : str -> str.
Variable isAddress : str -> bool.

Lemma initialAllocations_default (initialDeposit : option Z) :
  initialAllocations initialDeposit = allocations (initialState initialDeposit).
Proof.
  unfold initialAllocations. destruct initialDeposit as [d|]; [|reflexivity].
  destruct (Z.eqb_spec d 0) as [->|_]; reflexivity.
Qed.

(** C7. Once the clearing node has answered and a custody contract is
    known for the chain, [createChannel] calls [create] with the state
    (INITIALIZE, version 0, data 0x, allocations [(0, initialDeposit or
    0); (1, 0)]) and with the signatures [user_signature;
    server_signature] of the answer, in this order; [resizeChannel] and
    [closeChannel] pass the two signatures of their answers in the same
    order. *)
Theorem channel_calls_use_user_then_server_signature
    (custodyAddresses : gmap Z str) (chain : Z) (custodyAddress : str) :
  custodyFor custodyAddresses chain = Ok custodyAddress ->
  (forall initialDeposit channelData ch n id,
      cdChallenge channelData = Some ch ->
      cdNonce channelData = Some n ->
      computeChannelId keccak256 isAddress
        {| participants := cdParticipants channelData;
           adjudicator := cdAdjudicator channelData;
           challenge := ch;
           nonce := n |} = Some id ->
      exists created,
        createChannel keccak256 isAddress custodyAddresses chain
          initialDeposit channelData
        = Ok ({| address := custodyAddress;
                 functionName := lit "create";
                 argChannelId := id;
                 argState := stateArg (initialState initialDeposit);
                 argSigs := [cdUserSignature channelData;
                             cdServerSignature channelData] |},
              created)
        /\ state created = initialState initialDeposit
        /\ channelId created = id
        /\ status created = lit "active")
  /\ (forall id resizeData v allocs,
         sdVersion resizeData = Some v ->
         sdAllocations resizeData = Some allocs ->
         exists newState,
           resizeChannel custodyAddresses id chain resizeData
           = Ok ({| address := custodyAddress;
                    functionName := lit "resize";
                    argChannelId := id;
                    argState := stateArg newState;
                    argSigs := [sdUserSignature resizeData;
                                sdServerSignature resizeData] |},
                 newState)
           /\ intent newState = RESIZE)
  /\ (forall id closeData v allocs,
         sdVersion closeData = Some v ->
         sdAllocations closeData = Some allocs ->
         exists finalState,
           closeChannel custodyAddresses id chain closeData
           = Ok ({| address := custodyAddress;
                    functionName := lit "close";
                    argChannelId := id;
                    argState := stateArg finalState;
                    argSigs := [sdUserSignature closeData;
                                sdServerSignature closeData] |},
                 finalState)
           /\ intent finalState = FINALIZE).
Proof.
  intros Hcust. split; [|split].
  - intros initialDeposit channelData ch n id Hch Hn Hid.
    unfold createChannel. rewrite Hch, Hn. cbn [orFail bind].
    rewrite Hid. cbn [orFail bind]. rewrite Hcust. cbn [bind].
    rewrite initialAllocations_default.
    eexists. repeat split; reflexivity.
  - intros id resizeData v allocs Hv Ha.
    unfold resizeChannel. rewrite Hv, Ha. cbn [orFail bind].
    rewrite Hcust. cbn [bind]. eexists. split; reflexivity.
  - intros id closeData v allocs Hv Ha.
    unfold closeChannel. rewrite Hv, Ha. cbn [orFail bind].
    rewrite Hcust. cbn [bind]. eexists. split; reflexivity.
Qed.

End ChannelFacts.

Section ChannelExamples.
Import Js Channels Samples.

Example abi_encoding_of_sample :
  encodeAbiParameters anyAddress (alice, bob) usdt 3600 42
  = Some (lit "0x"
          ++ lit "0000000000000000000000001111111111111111111111111111111111111111"
          ++ lit "0000000000000000000000002222222222222222222222222222222222222222"
          ++ lit "000000000000000000000000dac17f958d2ee523a2206206994597c13d831ec7"
          ++ lit "0000000000000000000000000000000000000000000000000000000000000e10"
          ++ lit "000000000000000000000000000000000000000000000000000000000000002a").
Proof. vm_compute. reflexivity. Qed.

Lemma channel_id_pure_witness :
  exists encoded,
    computeChannelId plainHash addressShape sampleChannel
    = Some (plainHash encoded)
    /\ length encoded = (2 + 5 * 64)%nat
    /\ wordAt 3 encoded = Some 3600
    /\ wordAt 4 encoded = Some 42
    /\ computeChannelId plainHash addressShape sameTuple
       = Some (plainHash encoded).
Proof.
  destruct (channel_id_pure plainHash addressShape (fun a H => H)
              sampleChannel eq_refl eq_refl eq_refl
              ltac:(split; [discriminate | reflexivity])
              ltac:(split; [discriminate | reflexivity]))
    as (encoded & _ & Hid & _ & Hl & _ & _ & _ & W3 & W4 & Hsame & _).
  exists encoded.
  split; [exact Hid|]. split; [exact Hl|]. split; [exact W3|].
  split; [exact W4|]. apply Hsame; reflexivity.
Defined.

Lemma channel_calls_use_user_then_server_signature_witness :
  exists call created,
    createChannel plainHash anyAddress custodyOnBase 8453 (Some 10000000)
      createAnswer = Ok (call, created)
    /\ argSigs call = [lit "0xuser"; lit "0xserver"]
    /\ argAllocations (argState call)
       = [{| index := 0; amount := 10000000 |}; {| index := 1; amount := 0 |}].
Proof.
  destruct (proj1 (channel_calls_use_user_then_server_signature
                     plainHash anyAddress custodyOnBase 8453 alice eq_refl)
              (Some 10000000) createAnswer 3600 42 _ eq_refl eq_refl eq_refl)
    as (created & Hrun & _).
  eexists. exists created. split; [exact Hrun|]. split; reflexivity.
Defined.

End ChannelExamples.

Section QueueFacts.
Import Js Transport Link Samples.

Lemma flushLoop_partition (sock : Socket) (q : list RPCRequest) :
  q = writtenOf (snd (flushLoop sock q)) ++ fst (flushLoop sock q)
  /\ Forall (fun r => accepts sock r = true) (writtenOf (snd (flushLoop sock q)))
  /\ match fst (flushLoop sock q) with
     | [] => True
     | r :: _ => accepts sock r = false
     end.
Proof.
  induction q as [|r q (IH1 & IH2 & IH3)]; [now repeat split|].
  cbn [flushLoop]. destruct (accepts sock r) eqn:E.
  - destruct (flushLoop sock q) as [rest evs]. cbn in *.
    repeat split; [now f_equal | now constructor | exact IH3].
  - cbn. repeat split; [constructor | exact E].
Qed.

(** X1. Flushing neither loses, duplicates nor reorders requests: the
    queue before the flush is the requests written, in order, followed
    by the queue after it. Without an open connection nothing is
    written; on an open one every written request was accepted by the
    socket and a request left at the head of the queue is one whose
    write failed. *)
Theorem flush_keeps_queue_order (s : Manager) :
  let s' := fst (flushMessageQueue s) in
  let evs := snd (flushMessageQueue s) in
  messageQueue s = writtenOf evs ++ messageQueue s'
  /\ (isConnected s = false -> evs = [] /\ s' = s)
  /\ (forall sock, isConnected s = true -> ws s = Some sock ->
      Forall (fun r => accepts sock r = true) (writtenOf evs)
      /\ match messageQueue s' with
         | [] => True
         | r :: _ => accepts sock r = false
         end).
Proof.
  unfold flushMessageQueue.
  destruct (isConnected s) eqn:Hc; cbn [negb].
  - destruct (ws s) as [sock|] eqn:Hws.
    + pose proof (flushLoop_partition sock (messageQueue s)) as (H1 & H2 & H3).
      destruct (flushLoop sock (messageQueue s)) as [rest evs].
      cbn in *. split; [exact H1|]. split; [discriminate|].
      intros sock' _ [= <-]. split; assumption.
    + unfold isConnected, socketOpen in Hc. rewrite Hws in Hc.
      destruct (connectionState s); discriminate.
  - cbn. split; [reflexivity|]. split; [now split | discriminate].
Qed.

Lemma flush_keeps_queue_order_witness :
  writtenOf (snd (flushMessageQueue MoreSamples.flushing))
  = [getLedgerBalances]
  /\ messageQueue (fst (flushMessageQueue MoreSamples.flushing))
     = [getChannels]
  /\ Forall (fun r => accepts {| readyState := WS_OPEN;
                                 accepts := fun r => reqId r =? 7 |} r = true)
            (writtenOf (snd (flushMessageQueue MoreSamples.flushing)))
  /\ match messageQueue (fst (flushMessageQueue MoreSamples.flushing)) with
     | [] => True
     | r :: _ => accepts {| readyState := WS_OPEN;
                            accepts := fun r => reqId r =? 7 |} r = false
     end.
Proof.
  split; [reflexivity|]. split; [reflexivity|].
  apply (proj2 (proj2 (flush_keeps_queue_order MoreSamples.flushing)));
    reflexivity.
Defined.

End QueueFacts.

Section SendFacts.
Import Js Transport Link Samples.

Lemma send_open_accepted (request : RPCRequest) (s : Manager) (sock : Socket) :
  ws s = Some sock -> readyState sock = WS_OPEN ->
  accepts sock request = true ->
  send request s
  = (sendCalls s,
     set_timers (<[sendCalls s := reqId request]> (timers s))
       (set_responseHandlers
          (<[reqId request := sendCalls s]> (responseHandlers s))
          (set_sendCalls (S (sendCalls s)) s)),
     [Wrote request]).
Proof.
  intros Hws Hopen Hacc. unfold send. cbv zeta.
  replace (socketOpen _) with (socketOpen s) by reflexivity.
  unfold socketOpen. cbn [ws set_timers set_responseHandlers set_sendCalls].
  rewrite Hws, Hopen, Hacc. reflexivity.
Qed.

Lemma send_open_rejected (request : RPCRequest) (s : Manager) (sock : Socket) :
  ws s = Some sock -> readyState sock = WS_OPEN ->
  accepts sock request = false ->
  send request s
  = (sendCalls s,
     settle (sendCalls s) (Rejected writeError)
       (set_timers
          (delete (sendCalls s) (<[sendCalls s := reqId request]> (timers s)))
          (set_responseHandlers
             (delete (reqId request)
                (<[reqId request := sendCalls s]> (responseHandlers s)))
             (set_timers (<[sendCalls s := reqId request]> (timers s))
                (set_responseHandlers
                   (<[reqId request := sendCalls s]> (responseHandlers s))
                   (set_sendCalls (S (sendCalls s)) s))))),
     [WriteFailed request]).
Proof.
  intros Hws Hopen Hacc. unfold send. cbv zeta.
  replace (socketOpen _) with (socketOpen s) by reflexivity.
  unfold socketOpen. cbn [ws set_timers set_responseHandlers set_sendCalls].
  rewrite Hws, Hopen, Hacc. reflexivity.
Qed.

(** X2. On an open socket [send] writes the request at once and never
    queues it. When the write succeeds the handler and the timer of the
    call stay registered and the promise is pending; when the write
    throws, the promise is rejected immediately and neither handler nor
    timer is left behind. *)
Theorem send_on_open_socket (s : Manager) (request : RPCRequest)
    (sock : Socket) :
  reachable s ->
  ws s = Some sock ->
  readyState sock = WS_OPEN ->
  let k := fst (fst (send request s)) in
  let s' := snd (fst (send request s)) in
  messageQueue s' = messageQueue s
  /\ (accepts sock request = true ->
      snd (send request s) = [Wrote request]
      /\ responseHandlers s' !! reqId request = Some k
      /\ timers s' !! k = Some (reqId request)
      /\ promises s' !! k = None)
  /\ (accepts sock request = false ->
      snd (send request s) = [WriteFailed request]
      /\ responseHandlers s' !! reqId request = None
      /\ timers s' !! k = None
      /\ promises s' !! k = Some (Rejected writeError)).
Proof.
  intros Hr Hws Hopen k s'.
  apply reachable_fresh in Hr as (Hp & _ & _).
  assert (Hk : promises s !! sendCalls s = None) by (apply Hp; lia).
  subst k s'. destruct (accepts sock request) eqn:Hacc.
  - rewrite (send_open_accepted request s sock Hws Hopen Hacc). cbn.
    split; [reflexivity|]. split; [|discriminate].
    intros _. repeat split; auto; apply lookup_insert_eq.
  - rewrite (send_open_rejected request s sock Hws Hopen Hacc).
    cbn [fst snd]. unfold settle. cbn. rewrite Hk. cbn.
    split; [reflexivity|]. split; [discriminate|].
    intros _. repeat split;
      [apply lookup_delete_eq | apply lookup_delete_eq | apply lookup_insert_eq].
Qed.

Lemma send_on_open_socket_witness :
  messageQueue
    (snd (fst (send getLedgerBalances
                 (fst (run [Connect reliable; SocketOpen] (new defaults))))))
  = messageQueue (fst (run [Connect reliable; SocketOpen] (new defaults))).
Proof.
  apply (send_on_open_socket
           (fst (run [Connect reliable; SocketOpen] (new defaults)))
           getLedgerBalances
           {| readyState := WS_OPEN; accepts := fun _ => true |}).
  - exists defaults. eexists. reflexivity.
  - reflexivity.
  - reflexivity.
Defined.

Lemma run_app (a b : list action) (s : Manager) :
  run (a ++ b) s
  = (fst (run b (fst (run a s))), snd (run a s) ++ snd (run b (fst (run a s)))).
Proof.
  revert s. induction a as [|x a IH]; intros s.
  - cbn. now destruct (run b s).
  - cbn [app run]. destruct (step x s) as [s1 evs1]. rewrite IH.
    destruct (run a s1) as [s2 evs2]. cbn [fst snd].
    now rewrite app_assoc.
Qed.

Lemma sends_offline (reqs : list RPCRequest) (s : Manager) :
  socketOpen s = false ->
  let s' := fst (run (map Send reqs) s) in
  snd (run (map Send reqs) s) = []
  /\ messageQueue s' = messageQueue s ++ reqs
  /\ ws s' = ws s
  /\ eventHandlers s' = eventHandlers s
  /\ connectionState s' = connectionState s.
Proof.
  revert s. induction reqs as [|r reqs IH]; intros s Hoff.
  - cbn. rewrite app_nil_r. now repeat split.
  - cbn [map run step]. rewrite (send_offline r s Hoff).
    match goal with
    | |- context [run (map Send reqs) ?t] =>
        specialize (IH t Hoff); destruct (run (map Send reqs) t) as [s2 evs2]
    end.
    cbn in *. destruct IH as (-> & -> & -> & -> & ->).
    rewrite <- app_assoc. now repeat split.
Qed.

(** X3. Requests sent while the socket is not open leave in the order
    they were sent: when the socket then opens and accepts the writes,
    what is written is the queue as it stood before, followed by the
    new requests in sending order, ahead of the connect listener; the
    queue is empty afterwards. *)
Theorem offline_sends_flushed_in_order (s : Manager)
    (reqs : list RPCRequest) (sock : Socket) :
  ws s = Some sock ->
  readyState sock <> WS_OPEN ->
  (forall r, In r (messageQueue s ++ reqs) -> accepts sock r = true) ->
  let done := run (map Send reqs ++ [SocketOpen]) s in
  snd done
  = map Wrote (messageQueue s ++ reqs) ++ invoke OnConnect s
    ++ [ConnectResolved]
  /\ messageQueue (fst done) = [].
Proof.
  intros Hws Hready Hacc done.
  assert (Hoff : socketOpen s = false).
  { unfold socketOpen. rewrite Hws. destruct (readyState sock); auto.
    contradiction. }
  pose proof (sends_offline reqs s Hoff) as (He & Hq & Hw & Hh & _).
  cbv zeta in *. unfold done. rewrite run_app, He. cbn [app fst snd].
  set (s1 := fst (run (map Send reqs) s)) in *.
  assert (Hopen : snd (step SocketOpen s1)
                  = map Wrote (messageQueue s1) ++ invoke OnConnect s1
                    ++ [ConnectResolved]
                  /\ messageQueue (fst (step SocketOpen s1)) = []).
  { apply (open_events_accepting s1 sock); [now rewrite Hw|].
    now rewrite Hq. }
  cbn [run]. destruct (step SocketOpen s1) as [s2 evs2]. cbn [fst snd] in *.
  destruct Hopen as [-> ->]. rewrite app_nil_r, Hq.
  unfold invoke, registered. rewrite Hh. now split.
Qed.

Lemma offline_sends_flushed_in_order_witness :
  snd (run (map Send [getLedgerBalances; getLedgerBalances] ++ [SocketOpen])
         (fst (run [Connect reliable] (new defaults))))
  = map Wrote
      (messageQueue (fst (run [Connect reliable] (new defaults)))
       ++ [getLedgerBalances; getLedgerBalances])
    ++ invoke OnConnect (fst (run [Connect reliable] (new defaults)))
    ++ [ConnectResolved].
Proof.
  apply (offline_sends_flushed_in_order
           (fst (run [Connect reliable] (new defaults)))
           [getLedgerBalances; getLedgerBalances]
           {| readyState := WS_CONNECTING; accepts := fun _ => true |}).
  - reflexivity.
  - discriminate.
  - intros r _. reflexivity.
Defined.

End SendFacts.

Section PromiseFacts.
Import Js Transport Link Samples.

Lemma live_frame (s s' : Manager) :
  correlation s' = correlation s -> handlersLive s -> handlersLive s'.
Proof.
  unfold correlation, handlersLive. intros [= Hp Ht Hh _].
  now rewrite Hp, Ht, Hh.
Qed.

Lemma settle_other (k' : nat) (r : settlement) (s : Manager) (k : nat) :
  k <> k' -> promises (settle k' r s) !! k = promises s !! k.
Proof.
  intros Hne. unfold settle. destruct (promises s !! k'); [reflexivity|].
  cbn. now rewrite lookup_insert_ne.
Qed.

Lemma settle_fields (k : nat) (r : settlement) (s : Manager) :
  timers (settle k r s) = timers s
  /\ responseHandlers (settle k r s) = responseHandlers s
  /\ sendCalls (settle k r s) = sendCalls s.
Proof. unfold settle. destruct (promises s !! k); now repeat split. Qed.

(** Removing the handler of [id] together with the timer and the pending
    state of the call it names keeps the other handlers live. *)
Lemma live_after_removal (s : Manager) (id : Z) (k : nat) (r : settlement) :
  handlersLive s ->
  timers s !! k = Some id ->
  handlersLive
    (settle k r
       (set_responseHandlers (delete id (responseHandlers s))
          (set_timers (delete k (timers s)) s))).
Proof.
  intros Hl Hk id' k' H.
  destruct (settle_fields k r
              (set_responseHandlers (delete id (responseHandlers s))
                 (set_timers (delete k (timers s)) s))) as (Et & Eh & _).
  rewrite Eh in H. cbn in H.
  apply lookup_delete_Some in H as [Hne H].
  destruct (Hl id' k' H) as [Hp Ht].
  assert (Hkk : k' <> k) by (intros ->; congruence).
  rewrite settle_other by exact Hkk. rewrite Et. cbn.
  split; [exact Hp|]. now rewrite lookup_delete_ne.
Qed.

Lemma send_live (request : RPCRequest) (s : Manager) :
  fresh s -> handlersLive s -> handlersLive (snd (fst (send request s))).
Proof.
  intros (Fp & Ft & Fh) Hl.
  assert (Hk : promises s !! sendCalls s = None) by (apply Fp; lia).
  assert (L : handlersLive
                (set_timers (<[sendCalls s := reqId request]> (timers s))
                   (set_responseHandlers
                      (<[reqId request := sendCalls s]> (responseHandlers s))
                      (set_sendCalls (S (sendCalls s)) s)))).
  { intros id k H. cbn in *.
    apply lookup_insert_Some in H as [[<- <-]|[Hne H]].
    - split; [exact Hk | apply lookup_insert_eq].
    - destruct (Hl id k H) as [Hp Ht]. split; [exact Hp|].
      rewrite lookup_insert_ne; [exact Ht|].
      intros <-. apply Fh in H. lia. }
  unfold send. cbv zeta.
  destruct (socketOpen _).
  - destruct (ws _) as [sock|]; [|exact L]. cbn [ws].
    destruct (accepts sock request); [exact L|].
    cbn [fst snd].
    match goal with
    | |- handlersLive (settle ?k ?r (set_timers _ (set_responseHandlers _ ?t))) =>
        pose proof (live_after_removal t (reqId request) k r L) as H
    end.
    cbn in H. specialize (H (lookup_insert_eq _ _ _)).
    intros id k Hid. destruct (H id k) as [Hp Ht].
    + revert Hid. unfold settle. cbn.
      destruct (_ !! sendCalls s); cbn; auto.
    + split.
      * revert Hp. unfold settle. cbn. destruct (_ !! sendCalls s); cbn; auto.
      * revert Ht. unfold settle. cbn. destruct (_ !! sendCalls s); cbn; auto.
  - cbn [fst snd]. intros id k H. apply (L id k H).
Qed.

Lemma requestTimerFires_live (k : nat) (s : Manager) :
  handlersLive s -> handlersLive (requestTimerFires k s).
Proof.
  intros Hl. unfold requestTimerFires.
  destruct (timers s !! k) as [id|] eqn:E; [|exact Hl].
  pose proof (live_after_removal s id k
                (Rejected (timeoutMessage id (requestTimeout (settings s))))
                Hl E) as H.
  exact H.
Qed.

Lemma handleMessage_live (response : RPCResponse) (s : Manager) :
  handlersLive s -> handlersLive (fst (handleMessage response s)).
Proof.
  intros Hl. unfold handleMessage.
  destruct (responseHandlers s !! resId response) as [k|] eqn:E; cbn [fst].
  - destruct (Hl _ _ E) as [_ Ht].
    pose proof (live_after_removal s (resId response) k
                  (settlementOf response) Hl Ht) as H.
    intros id j Hid.
    unfold runHandler, settlementOf in *.
    destruct (resError response) as [[|c m]|];
      (destruct (H id j) as [Hp Htm];
       [ revert Hid; unfold settle; cbn;
         destruct (promises s !! k); cbn; auto
       | split;
         [ revert Hp; unfold settle; cbn; destruct (promises s !! k); cbn; auto
         | revert Htm; unfold settle; cbn; destruct (promises s !! k); cbn;
           auto ] ]).
  - apply (live_frame s); [|exact Hl].
    unfold handleNotification. destruct (eqb _ _); [|reflexivity].
    destruct (resAssets response); reflexivity.
Qed.

Lemma step_live (a : action) (s : Manager) :
  fresh s -> handlersLive s -> handlersLive (fst (step a s)).
Proof.
  intros F Hl.
  destruct a as [created| |request| |h| |parsed| |code|k|created|];
    cbn [step].
  - apply (live_frame s); [apply connect_correlation | exact Hl].
  - exact Hl.
  - pose proof (send_live request s F Hl) as H.
    destruct (send request s) as [[k s'] evs]. exact H.
  - exact Hl.
  - exact Hl.
  - apply (live_frame (markOpen s)); [apply on_open_correlation|].
    apply (live_frame s); [|exact Hl].
    unfold markOpen. destruct (ws s); reflexivity.
  - destruct parsed as [response|]; [now apply handleMessage_live | exact Hl].
  - exact Hl.
  - apply (live_frame s); [apply on_close_correlation | exact Hl].
  - now apply requestTimerFires_live.
  - unfold reconnectTimerFires. destruct (reconnectTimer s); [|exact Hl].
    apply (live_frame s); [|exact Hl]. now rewrite connect_correlation.
  - unfold connectTimeout. destruct (connectionState s); exact Hl.
Qed.

Lemma run_live (actions : list action) (s : Manager) :
  fresh s -> handlersLive s -> handlersLive (fst (run actions s)).
Proof.
  revert s. induction actions as [|a rest IH]; intros s F Hl; [exact Hl|].
  cbn [run]. pose proof (step_fresh a s F) as F1.
  pose proof (step_live a s F Hl) as L1.
  destruct (step a s) as [s1 evs1]. specialize (IH s1 F1 L1).
  destruct (run rest s1) as [s2 evs2]. exact IH.
Qed.

Lemma reachable_live (s : Manager) : reachable s -> handlersLive s.
Proof.
  intros Hr. pose proof Hr as (config & actions & ->).
  apply run_live.
  - repeat split; cbn; intros *; rewrite ?lookup_empty; try discriminate; auto.
  - intros id k H. cbn in H. rewrite lookup_empty in H. discriminate.
Qed.

End PromiseFacts.

Section CorrelationFacts.
Import Js Transport Link Samples MoreSamples.

Lemma runHandler_settles (k : nat) (response : RPCResponse) (s : Manager) :
  runHandler k response s
  = settle k (settlementOf response) (set_timers (delete k (timers s)) s).
Proof.
  unfold runHandler, settlementOf.
  destruct (resError response) as [[|c m]|]; reflexivity.
Qed.

Lemma handleMessage_unsolicited (response : RPCResponse) (s : Manager) :
  responseHandlers s !! resId response = None ->
  handleMessage response s
  = (handleNotification response s,
     invoke OnMessage s ++ [Notified (resMethod response)]).
Proof. intros H. unfold handleMessage. now rewrite H. Qed.

Lemma handleNotification_correlation (response : RPCResponse) (s : Manager) :
  correlation (handleNotification response s) = correlation s.
Proof.
  unfold handleNotification. destruct (eqb _ _); [|reflexivity].
  destruct (resAssets response); reflexivity.
Qed.

(** X5. A response whose id has a registered handler settles the
    promise of the call that registered it: resolved with the response,
    or rejected with the error's message ("RPC error" when it has
    none). The handler and the timer of the call are removed, so the
    timer firing later changes nothing, and the same response delivered
    again is handled as a notification that settles no promise. *)
Theorem response_settles_its_request (s : Manager) (response : RPCResponse)
    (k : nat) :
  reachable s ->
  responseHandlers s !! resId response = Some k ->
  let s' := fst (handleMessage response s) in
  snd (handleMessage response s) = invoke OnMessage s
  /\ promises s' !! k = Some (settlementOf response)
  /\ timers s' !! k = None
  /\ responseHandlers s' !! resId response = None
  /\ requestTimerFires k s' = s'
  /\ snd (handleMessage response s')
     = invoke OnMessage s ++ [Notified (resMethod response)]
  /\ promises (fst (handleMessage response s')) = promises s'.
Proof.
  intros Hr Hh s'.
  destruct (reachable_live s Hr _ _ Hh) as [Hp Ht].
  assert (E : s' = set_responseHandlers
                     (delete (resId response) (responseHandlers s))
                     (set_promises (<[k := settlementOf response]> (promises s))
                        (set_timers (delete k (timers s)) s))).
  { unfold s', handleMessage. rewrite Hh. cbn [fst].
    rewrite runHandler_settles. unfold settle. cbn. rewrite Hp. reflexivity. }
  assert (Hnone : responseHandlers s' !! resId response = None)
    by (rewrite E; cbn; apply lookup_delete_eq).
  assert (Htim : timers s' !! k = None)
    by (rewrite E; cbn; apply lookup_delete_eq).
  split; [unfold handleMessage; now rewrite Hh|].
  split; [rewrite E; cbn; apply lookup_insert_eq|].
  split; [exact Htim|]. split; [exact Hnone|].
  split; [unfold requestTimerFires; now rewrite Htim|].
  rewrite (handleMessage_unsolicited response s' Hnone). cbn [fst snd].
  split.
  - unfold invoke, registered. rewrite E. reflexivity.
  - apply correlation_promises, handleNotification_correlation.
Qed.

Lemma response_settles_its_request_witness :
  promises (fst (handleMessage ledgerReply awaitingReply)) !! 0%nat
  = Some (settlementOf ledgerReply).
Proof.
  apply (response_settles_its_request awaitingReply ledgerReply 0).
  - exists defaults. eexists. reflexivity.
  - vm_compute. reflexivity.
Defined.

(** X6. Two requests pending under one id, written on an open socket
    or waiting in the offline queue: the second [send] replaces the
    handler of the first, and when the timer of the first fires it
    removes the handler that now belongs to the second. The first caller
    gets the timeout; the response to the second is then taken for a
    notification and its promise stays pending until its own timer
    fires. *)
Theorem shared_id_timeout_drops_newer_handler (s : Manager)
    (r1 r2 : RPCRequest) (resp : RPCResponse) :
  reachable s ->
  (forall sock, ws s = Some sock -> readyState sock = WS_OPEN ->
                accepts sock r1 = true /\ accepts sock r2 = true) ->
  reqId r2 = reqId r1 ->
  resId resp = reqId r1 ->
  let k1 := sendCalls s in
  let k2 := S (sendCalls s) in
  let s2 := fst (run [Send r1; Send r2] s) in
  let s3 := requestTimerFires k1 s2 in
  let s4 := fst (handleMessage resp s3) in
  snd (run [Send r1; Send r2] s)
  = (if socketOpen s then [Wrote r1; Wrote r2] else [])
  /\ responseHandlers s2 !! reqId r1 = Some k2
  /\ promises s3 !! k1
     = Some (Rejected (timeoutMessage (reqId r1)
                         (requestTimeout (settings s))))
  /\ responseHandlers s3 !! reqId r1 = None
  /\ snd (handleMessage resp s3)
     = invoke OnMessage s ++ [Notified (resMethod resp)]
  /\ promises s4 !! k2 = None
  /\ promises (requestTimerFires k2 s4) !! k2
     = Some (Rejected (timeoutMessage (reqId r1)
                         (requestTimeout (settings s)))).
Proof.
  intros Hr Hacc Hsame Hres k1 k2 s2 s3 s4.
  apply reachable_fresh in Hr as (Hp & _ & _).
  assert (Hk1 : promises s !! sendCalls s = None) by (apply Hp; lia).
  assert (Hk2 : promises s !! S (sendCalls s) = None) by (apply Hp; lia).
  assert (E : exists q,
             run [Send r1; Send r2] s
             = (set_messageQueue q
                  (set_timers
                     (<[S (sendCalls s) := reqId r1]>
                        (<[sendCalls s := reqId r1]> (timers s)))
                     (set_responseHandlers
                        (<[reqId r1 := S (sendCalls s)]>
                           (<[reqId r1 := sendCalls s]>
                              (responseHandlers s)))
                        (set_sendCalls (S (S (sendCalls s))) s))),
                if socketOpen s then [Wrote r1; Wrote r2] else [])).
  { destruct (socketOpen s) eqn:Hopen.
    - unfold socketOpen in Hopen.
      destruct (ws s) as [sock|] eqn:Hws; [|discriminate Hopen].
      destruct (readyState sock) eqn:Hrs; try discriminate Hopen.
      destruct (Hacc sock eq_refl Hrs) as [Ha1 Ha2].
      exists (messageQueue s). cbn [run step].
      rewrite (send_open_accepted r1 s sock Hws Hrs Ha1).
      match goal with
      | |- context [send r2 ?t] =>
          rewrite (send_open_accepted r2 t sock Hws Hrs Ha2)
      end.
      cbn. now rewrite Hsame.
    - exists ((messageQueue s ++ [r1]) ++ [r2]). cbn [run step].
      rewrite (send_offline r1 s Hopen).
      rewrite send_offline by exact Hopen. cbn. now rewrite Hsame. }
  destruct E as [q E].
  assert (E2 : s2 = set_messageQueue q
                      (set_timers
                         (<[S (sendCalls s) := reqId r1]>
                            (<[sendCalls s := reqId r1]> (timers s)))
                         (set_responseHandlers
                            (<[reqId r1 := S (sendCalls s)]>
                               (<[reqId r1 := sendCalls s]>
                                  (responseHandlers s)))
                            (set_sendCalls (S (S (sendCalls s))) s))))
    by (unfold s2; now rewrite E).
  assert (E3 : s3 = set_promises
                      (<[sendCalls s :=
                           Rejected (timeoutMessage (reqId r1)
                                       (requestTimeout (settings s)))]>
                         (promises s))
                      (set_responseHandlers
                         (delete (reqId r1) (responseHandlers s2))
                         (set_timers (delete (sendCalls s) (timers s2)) s2))).
  { unfold s3, k1, requestTimerFires. rewrite E2. cbn.
    rewrite lookup_insert_ne by lia. rewrite lookup_insert_eq.
    unfold settle. cbn. rewrite Hk1. reflexivity. }
  assert (Hnone : responseHandlers s3 !! resId resp = None).
  { rewrite E3, Hres. cbn. apply lookup_delete_eq. }
  assert (E4 : promises s4 = promises s3).
  { unfold s4. rewrite (handleMessage_unsolicited resp s3 Hnone). cbn [fst].
    apply correlation_promises, handleNotification_correlation. }
  split; [now rewrite E|].
  split; [rewrite E2; cbn; apply lookup_insert_eq|].
  split; [rewrite E3; cbn; apply lookup_insert_eq|].
  split; [rewrite <- Hres; exact Hnone|].
  split.
  { rewrite (handleMessage_unsolicited resp s3 Hnone). cbn [snd].
    unfold invoke, registered. rewrite E3, E2. reflexivity. }
  assert (Hp2 : promises s4 !! k2 = None).
  { rewrite E4, E3. cbn. unfold k2. rewrite lookup_insert_ne by lia.
    exact Hk2. }
  split; [exact Hp2|].
  assert (Ht4 : timers s4 !! k2 = Some (reqId r1)).
  { unfold s4. rewrite (handleMessage_unsolicited resp s3 Hnone). cbn [fst].
    pose proof (handleNotification_correlation resp s3) as Hc.
    unfold correlation in Hc. injection Hc as _ Ht _ _. rewrite Ht.
    rewrite E3, E2. cbn. unfold k2.
    rewrite lookup_delete_ne by lia. apply lookup_insert_eq. }
  assert (Hs4 : requestTimeout (settings s4) = requestTimeout (settings s)).
  { unfold s4. rewrite (handleMessage_unsolicited resp s3 Hnone). cbn [fst].
    unfold handleNotification. rewrite E3, E2.
    destruct (eqb _ _); [|reflexivity].
    destruct (resAssets resp); reflexivity. }
  unfold requestTimerFires. rewrite Ht4. unfold settle. cbn.
  rewrite Hp2. cbn. rewrite Hs4. apply lookup_insert_eq.
Qed.

Lemma lostLink_reachable : reachable lostLink.
Proof. exists defaults. eexists. reflexivity. Qed.

Lemma linkUp_reachable : reachable MoreSamples.linkUp.
Proof. exists defaults. eexists. reflexivity. Qed.

Lemma shared_id_timeout_drops_newer_handler_witness :
  snd (run [Send getLedgerBalances; Send retriedBalances] MoreSamples.linkUp)
  = (if socketOpen MoreSamples.linkUp
     then [Wrote getLedgerBalances; Wrote retriedBalances] else [])
  /\ socketOpen MoreSamples.linkUp = true.
Proof.
  split; [|reflexivity].
  refine (proj1 _).
  pose proof (shared_id_timeout_drops_newer_handler MoreSamples.linkUp
                getLedgerBalances retriedBalances ledgerReply) as H.
  cbv zeta in H. apply H.
  - exact linkUp_reachable.
  - intros sock Hws _. injection Hws as <-. split; reflexivity.
  - reflexivity.
  - reflexivity.
Defined.

End CorrelationFacts.

Section CacheAndLink.
Import Js Transport Link Samples MoreSamples.

Lemma settle_cache (k : nat) (r : settlement) (s : Manager) :
  assetsCache (settle k r s) = assetsCache s
  /\ reconnectAttempts (settle k r s) = reconnectAttempts s
  /\ settings (settle k r s) = settings s.
Proof. unfold settle. destruct (promises s !! k); now repeat split. Qed.

Ltac through_settle :=
  cbn [assetsCache settings reconnectAttempts set_responseHandlers];
  match goal with
  | |- context [settle ?k ?r ?t] =>
      let H1 := fresh in
      let H2 := fresh in
      let H3 := fresh in
      destruct (settle_cache k r t) as (H1 & H2 & H3);
      rewrite ?H1, ?H2, ?H3; clear H1 H2 H3
  end.

(** The fields that only the connection life cycle and the catalogue
    notification touch. *)
Lemma send_outside (request : RPCRequest) (s : Manager) :
  let s' := snd (fst (send request s)) in
  assetsCache s' = assetsCache s
  /\ reconnectAttempts s' = reconnectAttempts s
  /\ settings s' = settings s.
Proof.
  unfold send. cbv zeta. destruct (socketOpen _); [|now repeat split].
  destruct (ws _) as [sock|]; [|now repeat split].
  destruct (accepts sock request); [now repeat split|].
  cbn [fst snd].
  through_settle. now repeat split.
Qed.

Lemma flushMessageQueue_cache (s : Manager) :
  assetsCache (fst (flushMessageQueue s)) = assetsCache s.
Proof.
  unfold flushMessageQueue.
  destruct (isConnected s); [|reflexivity].
  destruct (ws s) as [sock|]; [|reflexivity].
  destruct (flushLoop sock (messageQueue s)). reflexivity.
Qed.

Lemma step_cache_other (a : action) (s : Manager) :
  (forall response, a <> SocketMessage (Some response)) ->
  assetsCache (fst (step a s)) = assetsCache s.
Proof.
  intros Ha.
  destruct a as [created| |request| |h| |parsed| |code|k|created|];
    cbn [step].
  - unfold connect. destruct (connectionState s), created; reflexivity.
  - reflexivity.
  - pose proof (send_outside request s) as (H & _).
    destruct (send request s) as [[k s'] evs]. exact H.
  - reflexivity.
  - reflexivity.
  - unfold on_open.
    pose proof (flushMessageQueue_cache
                  (set_reconnectAttempts 0
                     (set_connectionState CONNECTED (markOpen s)))) as H.
    destruct (flushMessageQueue _). cbn [fst] in *. rewrite H.
    unfold markOpen. destruct (ws s); reflexivity.
  - destruct parsed as [response|]; [now destruct (Ha response)|reflexivity].
  - reflexivity.
  - unfold on_close, scheduleReconnect. cbn.
    destruct (negb (code =? 1000) && _).
    + destruct (reconnectTimer s); reflexivity.
    + destruct (_ <=? _); reflexivity.
  - cbn [fst]. unfold requestTimerFires.
    destruct (timers s !! k); [|reflexivity]. through_settle. reflexivity.
  - unfold reconnectTimerFires. destruct (reconnectTimer s); [|reflexivity].
    unfold connect. cbn. destruct (connectionState s), created; reflexivity.
  - unfold connectTimeout. destruct (connectionState s); reflexivity.
Qed.

(** X7. The cached asset catalogue is replaced by exactly one kind of
    event: an incoming message that correlates with no pending request,
    has method [assets] and carries an array of assets; the cache then
    holds that array. Every other call or event, a correlated response
    with the same method included, leaves the cache as it was. *)
Theorem assets_cache_replaced_only_by_push (a : action) (s : Manager) :
  (forall response assets,
      a = SocketMessage (Some response) ->
      responseHandlers s !! resId response = None ->
      eqb (resMethod response) (lit "assets") = true ->
      resAssets response = Some assets ->
      assetsCache (fst (step a s)) = assets)
  /\ ((forall response assets,
          a = SocketMessage (Some response) ->
          responseHandlers s !! resId response = None ->
          eqb (resMethod response) (lit "assets") = true ->
          resAssets response <> Some assets) ->
      assetsCache (fst (step a s)) = assetsCache s).
Proof.
  split.
  - intros response assets -> Hnone Hm Ha. cbn [step on_message].
    rewrite (handleMessage_unsolicited response s Hnone). cbn [fst].
    unfold handleNotification. now rewrite Hm, Ha.
  - intros H.
    destruct a as [created| |request| |h| |[response|]| |code|k|created|];
      try (apply step_cache_other; intros r; discriminate).
    cbn [step on_message]. unfold handleMessage.
    destruct (responseHandlers s !! resId response) as [k|] eqn:Hh; cbn [fst].
    + rewrite runHandler_settles. through_settle. reflexivity.
    + unfold handleNotification.
      destruct (eqb (resMethod response) (lit "assets")) eqn:Hm;
        [|reflexivity].
      destruct (resAssets response) as [assets|] eqn:Ha; [|reflexivity].
      exfalso. apply (H response assets eq_refl Hh Hm). exact Ha.
Qed.

Lemma assets_cache_replaced_only_by_push_witness :
  assetsCache (fst (step (SocketMessage (Some assetsPush)) lostLink))
  = [lit "usdc"; lit "eth"].
Proof.
  apply (proj1 (assets_cache_replaced_only_by_push
                  (SocketMessage (Some assetsPush)) lostLink)
           assetsPush [lit "usdc"; lit "eth"] eq_refl);
    reflexivity.
Defined.

Lemma step_settings (a : action) (s : Manager) :
  settings (fst (step a s)) = settings s.
Proof.
  destruct a as [created| |request| |h| |parsed| |code|k|created|];
    cbn [step].
  - unfold connect. destruct (connectionState s), created; reflexivity.
  - reflexivity.
  - pose proof (send_outside request s) as (_ & _ & H).
    destruct (send request s) as [[k s'] evs]. exact H.
  - reflexivity.
  - reflexivity.
  - apply (open_link s).
  - destruct parsed as [response|]; [|reflexivity].
    cbn [on_message]. unfold handleMessage.
    destruct (responseHandlers s !! resId response) as [k|]; cbn [fst].
    + rewrite runHandler_settles. through_settle. reflexivity.
    + unfold handleNotification. destruct (eqb _ _); [|reflexivity].
      destruct (resAssets response); reflexivity.
  - reflexivity.
  - unfold on_close, scheduleReconnect. cbn.
    destruct (negb (code =? 1000) && _).
    + destruct (reconnectTimer s); reflexivity.
    + destruct (_ <=? _); reflexivity.
  - cbn [fst]. unfold requestTimerFires.
    destruct (timers s !! k); [|reflexivity]. through_settle. reflexivity.
  - unfold reconnectTimerFires. destruct (reconnectTimer s); [|reflexivity].
    unfold connect. cbn. destruct (connectionState s), created; reflexivity.
  - unfold connectTimeout. destruct (connectionState s); reflexivity.
Qed.

Lemma step_attempts (a : action) (s : Manager) :
  attemptsBounded s -> attemptsBounded (fst (step a s)).
Proof.
  intros [H0 Hb]. unfold attemptsBounded. rewrite step_settings.
  destruct a as [created| |request| |h| |parsed| |code|k|created|];
    cbn [step].
  - unfold connect. destruct (connectionState s), created; now split.
  - now split.
  - pose proof (send_outside request s) as (_ & H & _).
    destruct (send request s) as [[k s'] evs]. cbn [fst snd] in *.
    rewrite H. now split.
  - now split.
  - now split.
  - pose proof (open_link s) as (_ & H & _). cbn [step] in H.
    rewrite H. lia.
  - destruct parsed as [response|]; [|now split].
    cbn [on_message]. unfold handleMessage.
    destruct (responseHandlers s !! resId response) as [k|]; cbn [fst].
    + rewrite runHandler_settles. through_settle. now split.
    + unfold handleNotification. destruct (eqb _ _); [|now split].
      destruct (resAssets response); now split.
  - now split.
  - unfold on_close, scheduleReconnect. cbn.
    destruct (Z.eqb_spec code 1000); cbn.
    + destruct (_ <=? _); now split.
    + destruct (Z.ltb_spec (reconnectAttempts s)
                  (maxReconnectAttempts (settings s))); cbn.
      * destruct (reconnectTimer s); cbn; [now split | lia].
      * destruct (_ <=? _); now split.
  - cbn [fst]. unfold requestTimerFires.
    destruct (timers s !! k); [|now split].
    through_settle. now split.
  - unfold reconnectTimerFires. destruct (reconnectTimer s); [|now split].
    unfold connect. cbn. destruct (connectionState s), created; now split.
  - unfold connectTimeout. destruct (connectionState s); now split.
Qed.

(** X8. In every state an execution reaches, the settings are those the
    manager was constructed with and the attempt counter lies between 0
    and the reconnection budget (it is 0 when the budget is negative):
    the manager never starts more reconnection attempts in a row than
    configured. *)
Theorem attempts_stay_within_budget (config : WebSocketConfig)
    (actions : list action) :
  let s := fst (run actions (new config)) in
  settings s = settings (new config)
  /\ 0 <= reconnectAttempts s
  /\ (reconnectAttempts s <= maxReconnectAttempts (settings s)
      \/ reconnectAttempts s = 0).
Proof.
  assert (G : forall acts s0,
             attemptsBounded s0 ->
             settings (fst (run acts s0)) = settings s0
             /\ attemptsBounded (fst (run acts s0))).
  { induction acts as [|a rest IH]; intros s0 Hb; [now split|].
    cbn [run]. pose proof (step_settings a s0) as Hs.
    pose proof (step_attempts a s0 Hb) as Hb1.
    destruct (step a s0) as [s1 evs1]. cbn [fst] in *.
    specialize (IH s1 Hb1). destruct (run rest s1) as [s2 evs2].
    cbn [fst] in *. now rewrite <- Hs. }
  intros s. destruct (G actions (new config)) as [Hs [H0 Hb]].
  - split; cbn; [lia | now right].
  - now repeat split.
Qed.

(** X9. [disconnect] cancels a pending reconnection and leaves what is
    queued or awaiting a response untouched: afterwards the state is
    DISCONNECTED with no socket and no reconnect timer, the callback of
    the cancelled timer does nothing, and the clean close that follows
    (code 1000) arms no timer; it ends in FAILED when the budget was
    already used up and in DISCONNECTED otherwise. *)
Theorem disconnect_cancels_reconnect (s : Manager)
    (created : option (RPCRequest -> bool)) :
  let s' := fst (disconnect s) in
  (connectionState s' = DISCONNECTED /\ ws s' = None
   /\ reconnectTimer s' = None)
  /\ (messageQueue s' = messageQueue s
      /\ responseHandlers s' = responseHandlers s
      /\ timers s' = timers s /\ promises s' = promises s)
  /\ reconnectTimerFires created s' = (s', [])
  /\ snd (step (SocketClose 1000) s') = invoke OnDisconnect s
  /\ reconnectTimer (fst (step (SocketClose 1000) s')) = None
  /\ connectionState (fst (step (SocketClose 1000) s'))
     = if maxReconnectAttempts (settings s) <=? reconnectAttempts s
       then FAILED else DISCONNECTED.
Proof.
  cbn [step]. unfold disconnect, reconnectTimerFires, on_close. cbn.
  repeat split.
  - destruct (_ <=? _); reflexivity.
  - destruct (_ <=? _); reflexivity.
  - destruct (_ <=? _); reflexivity.
Qed.

End CacheAndLink.

Section SendPathFacts.
Import Js Wallet Samples.

Lemma outerCatch_http (e : exn) :
  (exists m, outerCatch e = BadRequestException m)
  \/ (exists m, outerCatch e = UnprocessableEntityException m)
  \/ (exists m, outerCatch e = ServiceUnavailableException m).
Proof. destruct e; cbn; eauto. Qed.

(** X10. Whatever the signer and the indexer do, a failure of
    [sendCrypto] reaches the caller as one of the three HTTP exceptions
    (bad request, unprocessable entity, service unavailable), never as
    a raw error; and a blank recipient is refused as a bad request
    before the balance is looked up or any call is made on the
    signer. *)
Theorem sendCrypto_failures_are_http (account : Account) (indexer : Indexer)
    (chain recipient amount : str) (tokenAddress : option str)
    (tokenDecimals : nat) :
  (forall e,
      snd (sendCrypto account indexer chain recipient amount tokenAddress
             tokenDecimals) = Throws e ->
      (exists m, e = BadRequestException m)
      \/ (exists m, e = UnprocessableEntityException m)
      \/ (exists m, e = ServiceUnavailableException m))
  /\ (trim recipient = [] ->
      sendCrypto account indexer chain recipient amount tokenAddress
        tokenDecimals
      = ([], Throws (BadRequestException (lit "Recipient address is required")))).
Proof.
  split.
  - unfold sendCrypto. cbv zeta.
    destruct (trim recipient) as [|c r].
    + cbn. intros e [= <-]. eauto.
    + destruct (balancePrecheck _ _) as [[]|e0].
      * destruct (transferBlock _ _ _ _ _) as [cs [h|e1]]; cbn;
          intros e; [discriminate|].
        intros [= <-]. apply outerCatch_http.
      * cbn. intros e [= <-]. apply outerCatch_http.
  - intros H. unfold sendCrypto. now rewrite H.
Qed.

Lemma sendCrypto_failures_are_http_witness :
  sendCrypto fundedAccount noPositions (lit "base") (lit "  ") (lit "1")
    (Some usdt) 6
  = ([], Throws (BadRequestException (lit "Recipient address is required"))).
Proof.
  apply (proj2 (sendCrypto_failures_are_http fundedAccount noPositions
                  (lit "base") (lit "  ") (lit "1") (Some usdt) 6)).
  reflexivity.
Defined.

Ltac native_done :=
  cbn [fst snd calls length notStarted];
  repeat split; intros; cbn in *;
  try discriminate; try lia; try congruence; try (intuition discriminate).

(** X11. A native send makes at most one call on the signer: [send]
    with the amount as a string when the account has it, otherwise
    [transfer] with the amount as an integer; an account with neither
    is refused as a bad request without any call. None of the token
    entry points is used. *)
Theorem native_send_makes_one_call (account : Account)
    (chain recipient requested : str) (tokenAddress : option str) :
  tokenOf tokenAddress = None ->
  let done := transferBlock account chain recipient tokenAddress requested in
  (hasSend account = true ->
   fst done = [Send_native recipient requested])
  /\ (hasSend account = false -> hasTransfer account = true ->
      forall a, BigInt requested = Some a ->
                fst done = [Transfer_native recipient a])
  /\ (hasSend account = false -> hasTransfer account = false ->
      done = ([], Throws (BadRequestException
                            (lit "Chain " ++ chain
                             ++ lit " does not support send operation"))))
  /\ (length (fst done) <= 1)%nat
  /\ forall token to a, ~ In (Transfer_token_recipient token to a) (fst done)
                        /\ ~ In (Transfer_token_to token to a) (fst done)
                        /\ ~ In (SendToken token to a) (fst done)
                        /\ ~ In (TransferToken token to a) (fst done)
                        /\ ~ In (Send_with_tokenAddress to a token) (fst done).
Proof.
  intros Ht done. unfold done, transferBlock, nativeTransfer. rewrite Ht.
  destruct (hasSend account).
  - destruct (respond account (Send_native recipient requested)) as [r|e];
      [destruct (hashOfResultStrict r) as [[|[|c h]|b]|e]|]; native_done.
  - destruct (hasTransfer account).
    + destruct (BigInt requested) as [a|].
      * destruct (respond account (Transfer_native recipient a)) as [r|e];
          [destruct (hashOfResultStrict r) as [[|[|c h]|b]|e]|]; native_done.
      * native_done.
    + native_done.
Qed.

Lemma native_send_makes_one_call_witness :
  fst (transferBlock fundedAccount (lit "base") bob None (lit "1500000"))
  = [Send_native bob (lit "1500000")].
Proof.
  apply (proj1 (native_send_makes_one_call fundedAccount (lit "base") bob
                  (lit "1500000") None eq_refl)).
  reflexivity.
Defined.

End SendPathFacts.

Section BalanceSources.
Import Js Wallet Samples.

(** X12. The signer's own token balance takes precedence: when
    [getTokenBalance] (or, on an account without it, [balanceOf])
    reports a non-zero string of digits, that is the balance the
    pre-check uses, labelled with its source, and neither the provider
    nor the indexer is consulted. [balanceOf] is not tried on an account
    that has [getTokenBalance], even when the latter throws. *)
Theorem signer_balance_takes_precedence (account : Account)
    (indexer : Indexer) (chain token : str) :
  token <> [] ->
  (forall f bal,
      getTokenBalance account = Some f ->
      f token = Returns bal ->
      numericNonZero bal = true ->
      determineBalance account indexer chain (Some token)
      = {| availableSmallest := bal;
           balanceSource := lit "wdk-getTokenBalance" |})
  /\ (forall g bal,
         getTokenBalance account = None ->
         balanceOf account = Some g ->
         g token = Returns bal ->
         numericNonZero bal = true ->
         determineBalance account indexer chain (Some token)
         = {| availableSmallest := bal;
              balanceSource := lit "wdk-balanceOf" |})
  /\ (forall f e,
         getTokenBalance account = Some f ->
         f token = Throws e ->
         wdkTokenBalance account token
           {| availableSmallest := lit "0"; balanceSource := lit "unknown" |}
         = {| availableSmallest := lit "0"; balanceSource := lit "unknown" |}).
Proof.
  intros Ht.
  assert (N : forall bal src,
             numericNonZero bal = true ->
             needsFallback {| availableSmallest := bal; balanceSource := src |}
             = false).
  { intros bal src H. unfold numericNonZero in H. unfold needsFallback.
    cbn [availableSmallest].
    apply andb_prop in H as [H1 H2]. rewrite H1.
    destruct (eqb bal (lit "0")); [discriminate H2 | reflexivity]. }
  split; [|split].
  - intros f bal Hf Hb Hn. unfold determineBalance.
    rewrite (tokenOf_some token Ht). cbv zeta.
    unfold wdkTokenBalance. rewrite Hf, Hb. unfold fromWdk. rewrite Hn.
    now rewrite !N.
  - intros g bal Hf Hg Hb Hn. unfold determineBalance.
    rewrite (tokenOf_some token Ht). cbv zeta.
    unfold wdkTokenBalance. rewrite Hf, Hg, Hb. unfold fromWdk. rewrite Hn.
    now rewrite !N.
  - intros f e Hf He. unfold wdkTokenBalance. now rewrite Hf, He.
Qed.

Lemma signer_balance_takes_precedence_witness :
  determineBalance fundedAccount noPositions (lit "base") (Some usdt)
  = {| availableSmallest := lit "50000000";
       balanceSource := lit "wdk-getTokenBalance" |}.
Proof.
  apply (proj1 (signer_balance_takes_precedence fundedAccount noPositions
                  (lit "base") usdt ltac:(discriminate))
           (fun _ => Returns (lit "50000000")));
    reflexivity.
Defined.

End BalanceSources.

Section AmountFacts.
Import Js Wallet Samples.

Lemma strip_head (s : str) :
  match orZero (stripLeadingZeros s) with
  | [] => False
  | [c] => True
  | c :: _ :: _ => isZeroChar c = false
  end.
Proof.
  induction s as [|c r IH]; [exact I|].
  unfold stripLeadingZeros in *. cbn [dropWhile].
  destruct (isZeroChar c) eqn:E; [exact IH|].
  cbn. destruct r; [exact I | exact E].
Qed.

(** X13. Whatever string it is given, well-formed or not, [toSmallest]
    returns a non-empty string that does not start with the digit 0
    unless it is the single character 0. *)
Theorem toSmallest_never_empty (val : str) (decimals : nat) :
  toSmallest val decimals <> []
  /\ (toSmallest val decimals = lit "0"
      \/ exists c rest, toSmallest val decimals = c :: rest
                        /\ isZeroChar c = false).
Proof.
  unfold toSmallest. cbv zeta.
  match goal with
  | |- context [orZero (stripLeadingZeros ?x)] =>
      lazymatch x with
      | context [orZero] => pose proof (strip_head x) as H; revert H;
                            generalize (orZero (stripLeadingZeros x))
      end
  end.
  intros [|c [|d r]] H; [contradiction| |].
  - split; [discriminate|].
    destruct (isZeroChar c) eqn:E.
    + left. apply Ascii.eqb_eq in E. now subst.
    + right. now exists c, [].
  - split; [discriminate|]. right. now exists c, (d :: r).
Qed.

Lemma toSmallest_value (a : decimal) (d : nat) :
  wellFormed a = true ->
  testDigits (toSmallest (render a) d) = true
  /\ digitsValue (toSmallest (render a) d) = Qfloor (amountValue a * pow10 d).
Proof.
  intros H. pose proof (toSmallest_shape a d H) as Hshape.
  unfold wellFormed in H. apply andb_prop in H as [Hw Hf].
  assert (Hall : allDigits (orZero (stripLeadingZeros (intDigits a))
                            ++ padOrTruncate (fracOf a) d) = true).
  { rewrite allDigits_app, allDigits_orZero, padOrTruncate_digits;
      auto using allDigits_strip. }
  split.
  - rewrite Hshape. pose proof (canonical_strip _ Hall) as Hc.
    unfold canonical in Hc. now apply andb_prop in Hc as [Hc _].
  - rewrite Hshape, digitsValue_orZero, digitsValue_strip, digitsValue_app.
    rewrite digitsValue_orZero, digitsValue_strip, padOrTruncate_length.
    rewrite padOrTruncate_value by exact Hf.
    symmetry. apply floor_amount.
Qed.

Lemma transferBlock_calls (account : Account) (chain recipient token : str)
    (requested : str) :
  token <> [] ->
  fst (transferBlock account chain recipient (Some token) requested)
  = calls (fst (tokenTransfer account token recipient requested)).
Proof.
  intros Ht. unfold transferBlock. rewrite (tokenOf_some token Ht).
  destruct (tokenTransfer account token recipient requested) as [p [e|]];
    [reflexivity|].
  cbn. destruct (txHash p) as [|[|c r]|b]; reflexivity.
Qed.

(** X14. The amount that reaches the signer is the converted one: for a
    well-formed decimal amount and the decimals in use, every call that
    a token send makes is one of the five entry points applied to the
    token, the recipient and the integer floor(amount * 10^decimals). *)
Theorem token_calls_carry_floor_amount (account : Account)
    (chain recipient token : str) (a : decimal) (d : nat) :
  wellFormed a = true ->
  token <> [] ->
  forall c,
    In c (fst (transferBlock account chain recipient (Some token)
                 (toSmallest (render a) d))) ->
    In c (entryPoints token recipient (Qfloor (amountValue a * pow10 d))).
Proof.
  intros Hw Ht c Hin.
  destruct (toSmallest_value a d Hw) as [Hdig Hval].
  pose proof (BigInt_digits _ Hdig) as HB. rewrite Hval in HB.
  rewrite (transferBlock_calls account chain recipient token _ Ht) in Hin.
  destruct (tokenTransfer_attempts account token recipient _ _ HB)
    as [Hcalls _].
  rewrite Hcalls in Hin.
  destruct (attempts_prefix account
              (List.filter (supported account)
                 (entryPoints token recipient
                    (Qfloor (amountValue a * pow10 d))))) as [rest Hrest].
  assert (Hf : In c (List.filter (supported account)
                       (entryPoints token recipient
                          (Qfloor (amountValue a * pow10 d)))))
    by (rewrite Hrest; apply in_or_app; now left).
  apply filter_In in Hf. tauto.
Qed.

Lemma token_calls_carry_floor_amount_witness :
  In (Transfer_token_recipient usdt bob 1234)
     (entryPoints usdt bob (Qfloor (amountValue sampleAmount * pow10 2))).
Proof.
  apply (token_calls_carry_floor_amount fundedAccount (lit "base") bob usdt
           sampleAmount 2 eq_refl ltac:(discriminate)).
  vm_compute. left. reflexivity.
Defined.

End AmountFacts.

Section DispatchErrors.
Import Js Wallet Samples MoreSamples.

(** X15. Errors of the first four token entry points are swallowed:
    when every one of them that the account supports throws, the
    outcome is decided by the generic [send] alone. Its error is the one
    that is classified and raised; without a generic [send] the caller
    gets "Token transfer method not supported by this account" as a
    service-unavailable failure, whatever the earlier errors were. *)
Theorem token_send_surfaces_last_error (account : Account)
    (chain recipient token requested : str) (amount : Z) :
  token <> [] ->
  BigInt requested = Some amount ->
  (hasTransfer account = true ->
   (exists e, respond account
                (Transfer_token_recipient token recipient amount) = Throws e)
   /\ (exists e, respond account
                   (Transfer_token_to token recipient amount) = Throws e)) ->
  (hasSendToken account = true ->
   exists e, respond account (SendToken token recipient amount) = Throws e) ->
  (hasTransferToken account = true ->
   exists e, respond account (TransferToken token recipient amount)
             = Throws e) ->
  let done := transferBlock account chain recipient (Some token) requested in
  (hasSend account = false ->
   snd done
   = Throws (ServiceUnavailableException
               (lit "Transaction failed: Token transfer method not supported by this account")))
  /\ (forall e,
         hasSend account = true ->
         respond account (Send_with_tokenAddress recipient amount token)
         = Throws e ->
         snd done = Throws (classify e)).
Proof.
  intros Ht HB H1 H2 H3 done. unfold done, transferBlock, tokenTransfer.
  rewrite (tokenOf_some token Ht), HB. unfold tryCall.
  destruct (hasTransfer account);
    [destruct (H1 eq_refl) as [[e1 ->] [e2 ->]]|];
    (destruct (hasSendToken account); [destruct (H2 eq_refl) as [e3 ->]|]);
    (destruct (hasTransferToken account); [destruct (H3 eq_refl) as [e4 ->]|]);
    cbn [fst snd sent negb andb notStarted];
    (split; [intros ->; reflexivity | intros e -> ->; reflexivity]).
Qed.

Lemma token_send_surfaces_last_error_witness :
  snd (transferBlock brokenAccount (lit "base") Samples.bob (Some Samples.usdt)
         (lit "1500000"))
  = Throws (ServiceUnavailableException
              (lit "Transaction failed: Token transfer method not supported by this account")).
Proof.
  apply (token_send_surfaces_last_error brokenAccount (lit "base") Samples.bob
           Samples.usdt (lit "1500000") 1500000 ltac:(discriminate) eq_refl).
  - intros _. split; eexists; reflexivity.
  - discriminate.
  - discriminate.
  - reflexivity.
Defined.

(** X16. A token entry point that resolves to [null] or [undefined]
    counts as a success: no further entry point is tried and the text
    "null" or "undefined" is returned as the transaction hash. On the
    native path the same result makes the send fail as service
    unavailable. *)
Theorem nullish_result_is_taken_for_a_hash (account : Account)
    (chain recipient token requested : str) (amount : Z) (isNull : bool) :
  token <> [] ->
  BigInt requested = Some amount ->
  hasTransfer account = true ->
  respond account (Transfer_token_recipient token recipient amount)
  = Returns (ResNullish isNull) ->
  transferBlock account chain recipient (Some token) requested
  = ([Transfer_token_recipient token recipient amount],
     Returns (if isNull then lit "null" else lit "undefined"))
  /\ (hasSend account = true ->
      respond account (Send_native recipient requested)
      = Returns (ResNullish isNull) ->
      exists m,
        transferBlock account chain recipient None requested
        = ([Send_native recipient requested],
           Throws (ServiceUnavailableException m))).
Proof.
  intros Ht HB Hhas Hres. split.
  - unfold transferBlock, tokenTransfer.
    rewrite (tokenOf_some token Ht), HB, Hhas. unfold tryCall.
    rewrite Hres. cbn [fst snd sent negb andb notStarted hashOfResult].
    destruct isNull; reflexivity.
  - intros Hsend Hnative. unfold transferBlock, nativeTransfer.
    cbn [tokenOf]. rewrite Hsend, Hnative.
    destruct isNull; cbn; eexists; reflexivity.
Qed.

Lemma nullish_result_is_taken_for_a_hash_witness :
  transferBlock silentAccount (lit "base") Samples.bob (Some Samples.usdt)
    (lit "1500000")
  = ([Transfer_token_recipient Samples.usdt Samples.bob 1500000],
     Returns (lit "undefined")).
Proof.
  apply (nullish_result_is_taken_for_a_hash silentAccount (lit "base")
           Samples.bob Samples.usdt (lit "1500000") 1500000 false
           ltac:(discriminate) eq_refl eq_refl eq_refl).
Defined.

End DispatchErrors.

Section CustodyFacts.
Import Js Channels Samples.

Variable keccak256 : str -> str.
Variable isAddress : str -> bool.

(** X17. Without a custody contract for the chain (no entry, or an
    empty address) none of the three channel operations reaches the
    contract: each fails, and when the clearing node's answer parses,
    [resizeChannel] and [closeChannel] fail with "Custody address not
    found for chain <id>". *)
Theorem missing_custody_blocks_submission (custodyAddresses : gmap Z str)
    (chain : Z) :
  custodyAddresses !! chain = None \/ custodyAddresses !! chain = Some [] ->
  (forall initialDeposit channelData,
      exists m,
        createChannel keccak256 isAddress custodyAddresses chain
          initialDeposit channelData = Fail m)
  /\ (forall id answer,
         (exists m, resizeChannel custodyAddresses id chain answer = Fail m)
         /\ (exists m, closeChannel custodyAddresses id chain answer = Fail m))
  /\ (forall id answer v allocs,
         sdVersion answer = Some v ->
         sdAllocations answer = Some allocs ->
         resizeChannel custodyAddresses id chain answer
         = Fail (lit "Custody address not found for chain "
                 ++ bigintToString chain)
         /\ closeChannel custodyAddresses id chain answer
            = Fail (lit "Custody address not found for chain "
                    ++ bigintToString chain)).
Proof.
  intros Hc.
  assert (Hf : custodyFor custodyAddresses chain
               = Fail (lit "Custody address not found for chain "
                       ++ bigintToString chain)).
  { unfold custodyFor. destruct Hc as [-> | ->]; reflexivity. }
  split; [|split].
  - intros initialDeposit channelData. unfold createChannel.
    destruct (cdChallenge channelData); cbn [orFail bind]; [|eauto].
    destruct (cdNonce channelData); cbn [orFail bind]; [|eauto].
    destruct (computeChannelId _ _ _); cbn [orFail bind]; [|eauto].
    rewrite Hf. cbn [bind]. eauto.
  - intros id answer. unfold resizeChannel, closeChannel.
    destruct (sdVersion answer); cbn [orFail bind]; [|eauto].
    destruct (sdAllocations answer); cbn [orFail bind]; [|eauto].
    rewrite Hf. cbn [bind]. eauto.
  - intros id answer v allocs Hv Ha. unfold resizeChannel, closeChannel.
    rewrite Hv, Ha. cbn [orFail bind]. rewrite Hf. now split.
Qed.

End CustodyFacts.

Section CustodyExample.
Import Js Channels Samples.

Lemma missing_custody_blocks_submission_witness :
  exists m,
    createChannel plainHash anyAddress custodyOnBase 1 None createAnswer
    = Fail m.
Proof.
  apply (proj1 (missing_custody_blocks_submission plainHash anyAddress
                  custodyOnBase 1 (or_introl eq_refl))).
Defined.

End CustodyExample.

Section TextFacts.
Import Js Portfolio.

Lemma eqb_eq (a b : str) : eqb a b = true <-> a = b.
Proof.
  revert b. induction a as [|x a IH]; intros [|y b]; simpl;
    try (split; [discriminate | discriminate]); [tauto|].
  rewrite andb_true_iff, Ascii.eqb_eq, IH. split.
  - intros [-> ->]. reflexivity.
  - intros E. injection E as -> ->. now split.
Qed.

Lemma eqb_neq (a b : str) : eqb a b = false <-> a <> b.
Proof.
  rewrite <- eqb_eq. destruct (eqb a b); split; congruence.
Qed.

Lemma startsWith_app (p s : str) :
  startsWith p s = true <-> exists r, s = p ++ r.
Proof.
  revert s. induction p as [|x p IH]; intros s; simpl.
  - split; [intros _; now exists s | trivial].
  - destruct s as [|y s].
    + split; [discriminate | intros [r E]; discriminate E].
    + rewrite andb_true_iff, Ascii.eqb_eq, IH. split.
      * intros [-> [r ->]]. now exists r.
      * intros [r E]. injection E as -> ->. split; [reflexivity | now exists r].
Qed.

Lemma lowerChar_idempotent (c : ascii) :
  lowerChar (lowerChar c) = lowerChar c.
Proof.
  destruct c as [[] [] [] [] [] [] [] []]; reflexivity.
Qed.

Lemma lower_idempotent (s : str) : lower (lower s) = lower s.
Proof.
  unfold lower. rewrite map_map. apply map_ext.
  intros c. apply lowerChar_idempotent.
Qed.

Lemma lower_nil (s : str) : lower s = [] <-> s = [].
Proof. destruct s; simpl; split; congruence. Qed.

End TextFacts.

Section AmountsOfTheIndexer.
Import Js Portfolio.

(** X18. An indexer amount of [d] decimals is brought to 18 decimals by
    appending zeros: for [d <= 18] the value is multiplied by
    10^(18-d). An amount of more than 18 decimals is left as it is, so
    it is not scaled down. *)
Theorem normalize18_scales_up_only (i : str) (d : Z) :
  testDigits i = true ->
  let v := normalize18 {| quantityInt := Some i; quantityDecimals := Some d |} in
  testDigits v = true
  /\ (d <= 18 -> digitsValue v = digitsValue i * 10 ^ (18 - d))
  /\ (18 <= d -> v = i).
Proof.
  intros Hi v. subst v. unfold normalize18. cbn [quantityInt quantityDecimals].
  destruct i as [|c r]; [discriminate Hi|]. cbn [orText default].
  unfold id. split; [|split].
  - cbn [testDigits app]. cbn [testDigits] in Hi.
    change (c :: r ++ ?z) with ((c :: r) ++ z).
    rewrite allDigits_app, Hi, allDigits_zeros. reflexivity.
  - intros Hd. rewrite digitsValue_app, digitsValue_zeros.
    unfold zeros. rewrite repeat_length.
    rewrite Z.max_r by lia. rewrite Z2Nat.id by lia. lia.
  - intros Hd. rewrite Z.max_l by lia. cbn. now rewrite app_nil_r.
Qed.

Lemma normalize18_scales_up_only_witness :
  let v := normalize18 {| quantityInt := Some (lit "1500000");
                          quantityDecimals := Some 6 |} in
  testDigits v = true
  /\ (6 <= 18 -> digitsValue v = digitsValue (lit "1500000") * 10 ^ (18 - 6))
  /\ (18 <= 6 -> v = lit "1500000").
Proof.
  apply (normalize18_scales_up_only (lit "1500000") 6). reflexivity.
Defined.

End AmountsOfTheIndexer.

Section StatusFacts.
Import Js Portfolio.

(** X19. An explicit status of a transaction decides alone and without
    regard to letter case: two transactions whose statuses agree up to
    case get the same status whatever their confirmations; it is
    success exactly for confirmed and success, failed exactly for failed
    and error, and so pending for anything else, confirmed blocks or
    not. *)
Theorem explicit_status_decides (a b : Attributes) (s t : str) :
  status a = Some s -> status b = Some t -> s <> [] ->
  lower s = lower t ->
  statusOf a = statusOf b
  /\ (statusOf a = success
      <-> lower s = lit "confirmed" \/ lower s = lit "success")
  /\ (statusOf a = failed
      <-> lower s = lit "failed" \/ lower s = lit "error").
Proof.
  intros Ha Hb Hs Hl.
  assert (Ht : t <> []).
  { intros ->. apply Hs. now apply lower_nil. }
  assert (shape : forall x u, status x = Some u -> u <> [] ->
            statusOf x
            = if eqb (lower u) (lit "confirmed") || eqb (lower u) (lit "success")
              then success
              else if eqb (lower u) (lit "failed") || eqb (lower u) (lit "error")
                   then failed else pending).
  { intros x u Hx Hu. unfold statusOf. rewrite Hx.
    destruct u; [contradiction|reflexivity]. }
  rewrite (shape a s Ha Hs), (shape b t Hb Ht), <- Hl.
  split; [reflexivity|].
  rewrite <- !eqb_eq.
  destruct (eqb (lower s) (lit "confirmed")) eqn:E1;
    destruct (eqb (lower s) (lit "success")) eqn:E2;
    destruct (eqb (lower s) (lit "failed")) eqn:E3;
    destruct (eqb (lower s) (lit "error")) eqn:E4;
    cbn [orb];
    try (exfalso;
         match goal with
         | H1 : eqb ?x _ = true, H2 : eqb ?x _ = true |- _ =>
             apply eqb_eq in H1; apply eqb_eq in H2;
             rewrite H1 in H2; vm_compute in H2; discriminate H2
         end);
    (split; split; intros H;
     try discriminate H; try reflexivity; auto;
     destruct H as [H | H]; discriminate H).
Qed.

Lemma explicit_status_decides_witness :
  statusOf {| hash := None; status := Some (lit "Mined");
              block_confirmations := Some 12; mined_at := None;
              sent_at := None; block_number := None; transfers := None;
              feeValue := None |}
  = statusOf {| hash := None; status := Some (lit "MINED");
                block_confirmations := None; mined_at := None;
                sent_at := None; block_number := None; transfers := None;
                feeValue := None |}
  /\ (statusOf {| hash := None; status := Some (lit "Mined");
                  block_confirmations := Some 12; mined_at := None;
                  sent_at := None; block_number := None; transfers := None;
                  feeValue := None |} = success
      <-> lower (lit "Mined") = lit "confirmed"
          \/ lower (lit "Mined") = lit "success")
  /\ (statusOf {| hash := None; status := Some (lit "Mined");
                  block_confirmations := Some 12; mined_at := None;
                  sent_at := None; block_number := None; transfers := None;
                  feeValue := None |} = failed
      <-> lower (lit "Mined") = lit "failed"
          \/ lower (lit "Mined") = lit "error").
Proof.
  apply (explicit_status_decides _ _ (lit "Mined") (lit "MINED"));
    [reflexivity | reflexivity | discriminate | reflexivity].
Defined.

(** X20. Without a status (missing or empty), a transaction is never
    failed: it is success exactly when it has a positive number of
    confirmations, else pending. *)
Theorem implicit_status_never_failed (a : Attributes) :
  Portfolio.nonEmpty (status a) = None ->
  statusOf a <> failed
  /\ (statusOf a = success
      <-> exists n, block_confirmations a = Some n /\ 0 < n).
Proof.
  intros H. unfold statusOf.
  destruct (status a) as [[|c r]|]; try discriminate H.
  all: destruct (block_confirmations a) as [n|].
  all: try (destruct (0 <? n) eqn:E;
            [apply Z.ltb_lt in E | apply Z.ltb_ge in E]).
  all: split; [discriminate|]; split.
  all: try (intros S; try discriminate S; eauto; fail).
  all: intros (m & Hm & Hp); try discriminate Hm.
  all: try reflexivity.
  all: injection Hm as <-; lia.
Qed.

Lemma implicit_status_never_failed_witness :
  statusOf {| hash := None; status := Some []; block_confirmations := Some 3;
              mined_at := None; sent_at := None; block_number := None;
              transfers := None; feeValue := None |} <> failed
  /\ (statusOf {| hash := None; status := Some [];
                  block_confirmations := Some 3; mined_at := None;
                  sent_at := None; block_number := None; transfers := None;
                  feeValue := None |} = success
      <-> exists n, Some 3 = Some n /\ 0 < n).
Proof.
  apply (implicit_status_never_failed
           {| hash := None; status := Some []; block_confirmations := Some 3;
              mined_at := None; sent_at := None; block_number := None;
              transfers := None; feeValue := None |}).
  reflexivity.
Defined.

End StatusFacts.

Section MergeFacts.
Import Js Portfolio.

Lemma has_In {V : Type} (k : str) (m : list (str * V)) :
  has k m = true <-> exists v, In (k, v) m.
Proof.
  unfold has. rewrite existsb_exists. split.
  - intros ([k' v] & Hin & E). apply eqb_eq in E. simpl in E. subst k'.
    now exists v.
  - intros (v & Hin). exists (k, v). split; [assumption|]. now apply eqb_eq.
Qed.

Lemma has_keys {V : Type} (k : str) (m : list (str * V)) :
  has k m = false <-> ~ In k (map fst m).
Proof.
  split.
  - intros H Hin. apply in_map_iff in Hin as ([k' v] & E & Hin).
    simpl in E. subst k'.
    assert (T : has k m = true) by (apply has_In; eauto). congruence.
  - intros H. destruct (has k m) eqn:E; [|reflexivity].
    apply has_In in E as (v & Hin). exfalso. apply H.
    apply in_map_iff. now exists (k, v).
Qed.

Lemma has_snoc {V : Type} (k : str) (m : list (str * V)) (kv : str * V) :
  has k (m ++ [kv]) = has k m || eqb (fst kv) k.
Proof.
  unfold has. rewrite existsb_app. simpl. now rewrite orb_false_r.
Qed.

Lemma NoDup_snoc {A : Type} (l : list A) (x : A) :
  List.NoDup l -> ~ In x l -> List.NoDup (l ++ [x]).
Proof.
  induction l as [|y l IH]; intros Hnd Hx; simpl.
  - constructor; [intros [] | constructor].
  - inversion Hnd as [|? ? Hy Hl]; subst. constructor.
    + rewrite in_app_iff. intros [H | [H | []]]; [contradiction|].
      subst. apply Hx. now left.
    + apply IH; [assumption|]. intros H. apply Hx. now right.
Qed.

(** What the loop of [getTransactionsAny] leaves in the map: the keys
    stay distinct, and an entry is there either from the start or as the
    first transaction of its key. *)
Lemma merge_first (txs : list ZerionTx) (acc : list (str * Transaction)) :
  List.NoDup (map fst acc) ->
  List.NoDup (map fst (fold_left mergeStep txs acc))
  /\ forall k v,
       In (k, v) (fold_left mergeStep txs acc)
       <-> In (k, v) acc
           \/ (has k acc = false
               /\ exists pre tx post,
                    txs = pre ++ tx :: post
                    /\ anyEntry tx = Some (k, v)
                    /\ forall tx' v', In tx' pre ->
                                      anyEntry tx' <> Some (k, v')).
Proof.
  revert acc. induction txs as [|tx txs IH]; intros acc Hnd.
  - split; [assumption|]. intros k v. split; [now left|].
    intros [H | (_ & pre & tx & post & E & _)]; [assumption|].
    destruct pre; discriminate E.
  - cbn [fold_left].
    assert (Hnd' : List.NoDup (map fst (mergeStep acc tx))).
    { unfold mergeStep. destruct (anyEntry tx) as [[k0 v0]|]; [|assumption].
      unfold setIfAbsent. cbn [fst].
      destruct (has k0 acc) eqn:E; [assumption|].
      rewrite map_app. cbn [map fst].
      apply NoDup_snoc; [assumption|]. now apply has_keys in E. }
    destruct (IH _ Hnd') as [IH1 IH2]. split; [assumption|].
    intros k v. rewrite IH2. clear IH IH1 IH2 Hnd'.
    unfold mergeStep. destruct (anyEntry tx) as [[k0 v0]|] eqn:Etx.
    + unfold setIfAbsent. cbn [fst]. destruct (has k0 acc) eqn:E0.
      * split.
        -- intros [H | (Hk & pre & tx0 & post & E & Ht & Hp)]; [now left|].
           right. split; [assumption|].
           exists (tx :: pre), tx0, post. repeat split.
           ++ now rewrite E.
           ++ assumption.
           ++ intros tx' v' [<- | Hin]; [|now apply Hp].
              rewrite Etx. intros F. injection F as -> _. congruence.
        -- intros [H | (Hk & pre & tx0 & post & E & Ht & Hp)]; [now left|].
           destruct pre as [|p pre].
           ++ injection E as -> ->. rewrite Etx in Ht.
              injection Ht as -> _. congruence.
           ++ injection E as -> ->. right. split; [assumption|].
              exists pre, tx0, post. repeat split; [assumption|].
              intros tx' v' Hin. apply Hp. now right.
      * rewrite in_app_iff, has_snoc. cbn [fst In]. split.
        -- intros [[H | [H | []]] | (Hk & pre & tx0 & post & E & Ht & Hp)].
           ++ now left.
           ++ injection H as -> ->. right. split; [assumption|].
              exists [], tx, txs. repeat split; [assumption|].
              intros tx' v' [].
           ++ apply orb_false_iff in Hk as [Hk Hne]. right.
              split; [assumption|].
              exists (tx :: pre), tx0, post. repeat split.
              ** now rewrite E.
              ** assumption.
              ** intros tx' v' [<- | Hin]; [|now apply Hp].
                 rewrite Etx. intros F. injection F as -> _.
                 apply eqb_neq in Hne. congruence.
        -- intros [H | (Hk & pre & tx0 & post & E & Ht & Hp)];
             [now left; left|].
           destruct pre as [|p pre].
           ++ injection E as -> ->. rewrite Etx in Ht.
              injection Ht as -> ->. left. right. now left.
           ++ injection E as -> ->. right. split.
              ** rewrite Hk. cbn [orb]. apply eqb_neq. intros ->.
                 apply (Hp p v0); [now left | assumption].
              ** exists pre, tx0, post. repeat split; [assumption|].
                 intros tx' v' Hin. apply Hp. now right.
    + split.
      * intros [H | (Hk & pre & tx0 & post & E & Ht & Hp)]; [now left|].
        right. split; [assumption|].
        exists (tx :: pre), tx0, post. repeat split.
        -- now rewrite E.
        -- assumption.
        -- intros tx' v' [<- | Hin]; [|now apply Hp].
           rewrite Etx. discriminate.
      * intros [H | (Hk & pre & tx0 & post & E & Ht & Hp)]; [now left|].
        destruct pre as [|p pre].
        -- injection E as -> ->. congruence.
        -- injection E as -> ->. right. split; [assumption|].
           exists pre, tx0, post. repeat split; [assumption|].
           intros tx' v' Hin. apply Hp. now right.
Qed.

Lemma anyEntry_key (tx : ZerionTx) (k : str) (t : Transaction) :
  anyEntry tx = Some (k, t) ->
  k = keyOf t /\ txHash t <> [] /\ lower (txHash t) = txHash t.
Proof.
  unfold anyEntry.
  set (h := orText (hash (attributesOf tx)) (orText (txId tx) [])).
  destruct (lower h) as [|c r] eqn:E; [discriminate|].
  destruct (match default [] (transfers (attributesOf tx)) with
            | [] => _ | tr :: _ => _ end) as [[symbol value] toAddress].
  intros H. injection H as <- <-. unfold keyOf. cbn [chain txHash].
  repeat split; [discriminate|].
  rewrite <- E. apply lower_idempotent.
Qed.

Lemma merged_keys (txs : list ZerionTx) (acc : list (str * Transaction)) :
  (forall k t, In (k, t) acc -> k = keyOf t) ->
  forall k t, In (k, t) (fold_left mergeStep txs acc) -> k = keyOf t.
Proof.
  revert acc. induction txs as [|tx txs IH]; intros acc Hacc; [assumption|].
  cbn [fold_left]. apply IH. intros k t.
  unfold mergeStep. destruct (anyEntry tx) as [[k0 v0]|] eqn:E; [|apply Hacc].
  unfold setIfAbsent. destruct (has (fst (k0, v0)) acc); [apply Hacc|].
  rewrite in_app_iff. intros [H | [H | []]]; [now apply Hacc|].
  injection H as -> ->. now apply anyEntry_key in E.
Qed.

(** X21. [getTransactionsAny] keeps one entry per key chain:hash, the
    first one met in the order of the addresses; a later transaction of
    the same key is dropped, as is one without hash. The hashes of the
    entries are non-empty and in lower case. *)
Theorem transactions_merged_first_wins (perAddr : list (list ZerionTx)) :
  List.NoDup (map keyOf (getTransactionsAny perAddr))
  /\ (forall t, In t (getTransactionsAny perAddr) ->
                txHash t <> [] /\ lower (txHash t) = txHash t)
  /\ (forall t,
        In t (getTransactionsAny perAddr)
        <-> exists pre tx post,
              concat perAddr = pre ++ tx :: post
              /\ anyEntry tx = Some (keyOf t, t)
              /\ forall tx' t', In tx' pre ->
                                anyEntry tx' <> Some (keyOf t, t')).
Proof.
  unfold getTransactionsAny.
  destruct (merge_first (concat perAddr) [] (List.NoDup_nil _)) as [Hnd Hin].
  assert (Hkey : forall k t,
             In (k, t) (fold_left mergeStep (concat perAddr) []) ->
             k = keyOf t).
  { apply merged_keys. intros k t []. }
  assert (Hmem : forall t,
             In t (map snd (fold_left mergeStep (concat perAddr) []))
             <-> In (keyOf t, t) (fold_left mergeStep (concat perAddr) [])).
  { intros t. rewrite in_map_iff. split.
    - intros ([k t'] & E & H). simpl in E. subst t'.
      now rewrite <- (Hkey _ _ H).
    - intros H. now exists (keyOf t, t). }
  split; [|split].
  - rewrite map_map.
    erewrite map_ext_in; [exact Hnd|].
    intros [k t] H. simpl. symmetry. now apply Hkey.
  - intros t Ht. apply Hmem, Hin in Ht as [[] | (_ & pre & tx & post & _ & E & _)].
    now apply anyEntry_key in E.
  - intros t. rewrite Hmem, Hin. split.
    + intros [[] | (_ & H)]. exact H.
    + intros H. right. split; [reflexivity | exact H].
Qed.

Lemma transactions_merged_first_wins_witness :
  length (getTransactionsAny NodeSamples.fetchedLists) = 1%nat
  /\ exists t, In t (getTransactionsAny NodeSamples.fetchedLists)
               /\ txHash t <> [] /\ lower (txHash t) = txHash t.
Proof.
  split; [reflexivity|].
  destruct (getTransactionsAny NodeSamples.fetchedLists) as [|t rest] eqn:E;
    [discriminate E|].
  exists t. split; [now left|].
  apply (proj1 (proj2 (transactions_merged_first_wins
                         NodeSamples.fetchedLists))).
  rewrite E. now left.
Defined.

End MergeFacts.

Section WalletConnectFacts.
Import Js Wallet Portfolio.

Variable numberToString : Z -> str.

Lemma chainIdMatch_shape (chainId digits : str) :
  chainIdMatch chainId = Some digits
  <-> chainId = lit "eip155:" ++ digits /\ testDigits digits = true.
Proof.
  unfold chainIdMatch. split.
  - destruct (startsWith (lit "eip155:") chainId) eqn:E; [|discriminate].
    apply startsWith_app in E as [r ->].
    change (skipn 7 (lit "eip155:" ++ r)) with r.
    destruct (testDigits r) eqn:D; [|discriminate].
    intros H. injection H as ->. now split.
  - intros [-> D].
    replace (startsWith (lit "eip155:") (lit "eip155:" ++ digits)) with true
      by (symmetry; apply startsWith_app; now exists digits).
    change (skipn 7 (lit "eip155:" ++ digits)) with digits.
    now rewrite D.
Qed.

Lemma testDigits_zeros_app (n : nat) (digits : str) :
  testDigits digits = true -> testDigits (zeros n ++ digits) = true.
Proof.
  intros D. destruct digits as [|c r]; [discriminate D|].
  assert (A : allDigits (zeros n ++ c :: r) = true).
  { rewrite allDigits_app, allDigits_zeros. exact D. }
  destruct (zeros n ++ c :: r) eqn:E; [|exact A].
  destruct n; discriminate E.
Qed.

(** X22. A WalletConnect chain is served only when its identifier is
    eip155: followed by decimal digits whose value is 1, 8453, 42161 or
    137, and then as the ERC-4337 wallet of that chain; the digits are
    read as a number, so leading zeros change nothing. Every refusal is
    a [BadRequestException]. *)
Theorem walletconnect_chain_resolution (chainId : str) :
  (forall name,
      internalChain numberToString chainId = Returns name ->
      exists digits,
        chainId = lit "eip155:" ++ digits
        /\ testDigits digits = true
        /\ ((digitsValue digits = 1 /\ name = lit "ethereumErc4337")
            \/ (digitsValue digits = 8453 /\ name = lit "baseErc4337")
            \/ (digitsValue digits = 42161 /\ name = lit "arbitrumErc4337")
            \/ (digitsValue digits = 137 /\ name = lit "polygonErc4337")))
  /\ (forall e,
         internalChain numberToString chainId = Throws e ->
         exists message, e = BadRequestException message)
  /\ (forall digits n,
         chainId = lit "eip155:" ++ digits ->
         testDigits digits = true ->
         internalChain numberToString (lit "eip155:" ++ zeros n ++ digits)
         = internalChain numberToString chainId).
Proof.
  split; [|split].
  - intros name. unfold internalChain.
    destruct (chainIdMatch chainId) as [digits|] eqn:M; [|discriminate].
    apply chainIdMatch_shape in M as [-> D].
    destruct (chainIdMap (digitsValue digits)) as [found|] eqn:C;
      [|discriminate].
    intros H. injection H as ->. exists digits.
    split; [reflexivity|]. split; [assumption|].
    unfold chainIdMap in C.
    destruct (digitsValue digits =? 1) eqn:E1;
      [apply Z.eqb_eq in E1; injection C as <-; tauto|].
    destruct (digitsValue digits =? 8453) eqn:E2;
      [apply Z.eqb_eq in E2; injection C as <-; tauto|].
    destruct (digitsValue digits =? 42161) eqn:E3;
      [apply Z.eqb_eq in E3; injection C as <-; tauto|].
    destruct (digitsValue digits =? 137) eqn:E4;
      [apply Z.eqb_eq in E4; injection C as <-; tauto|].
    discriminate C.
  - intros e. unfold internalChain.
    destruct (chainIdMatch chainId) as [digits|].
    + destruct (chainIdMap (digitsValue digits)); [discriminate|].
      intros H. injection H as <-. eauto.
    + intros H. injection H as <-. eauto.
  - intros digits n -> D. unfold internalChain.
    assert (M1 : chainIdMatch (lit "eip155:" ++ zeros n ++ digits)
                 = Some (zeros n ++ digits)).
    { apply chainIdMatch_shape. split; [reflexivity|].
      now apply testDigits_zeros_app. }
    assert (M2 : chainIdMatch (lit "eip155:" ++ digits) = Some digits).
    { apply chainIdMatch_shape. now split. }
    rewrite M1, M2.
    assert (V : digitsValue (zeros n ++ digits) = digitsValue digits).
    { rewrite digitsValue_app, digitsValue_zeros. lia. }
    rewrite V. reflexivity.
Qed.

End WalletConnectFacts.

Section WalletConnectExample.
Import Js Wallet Portfolio.

Lemma walletconnect_chain_resolution_witness :
  internalChain bigintToString (lit "eip155:" ++ zeros 2 ++ lit "8453")
  = internalChain bigintToString (lit "eip155:8453").
Proof.
  apply (proj2 (proj2 (walletconnect_chain_resolution bigintToString
                         (lit "eip155:8453"))) (lit "8453") 2%nat);
    reflexivity.
Defined.

End WalletConnectExample.

Section DecodeFacts.
Import Js Portfolio.

Lemma skipn_length_app {A : Type} (a r : list A) :
  skipn (length a) (a ++ r) = r.
Proof. induction a as [|x a IH]; [reflexivity | exact IH]. Qed.

Lemma firstn_length_app {A : Type} (b r : list A) :
  firstn (length b) (b ++ r) = b.
Proof. induction b as [|x b IH]; [reflexivity | simpl; now rewrite IH]. Qed.

Lemma slice_middle (a b c : str) :
  slice (a ++ b ++ c) (Z.of_nat (length a))
        (Z.of_nat (length a) + Z.of_nat (length b)) = b.
Proof.
  unfold slice. rewrite !length_app.
  destruct (Z.ltb_spec (Z.of_nat (length a)) 0) as [H|_]; [lia|].
  destruct (Z.ltb_spec (Z.of_nat (length a) + Z.of_nat (length b)) 0)
    as [H|_]; [lia|].
  rewrite !Z.min_l by lia.
  replace (Z.of_nat (length a) + Z.of_nat (length b) - Z.of_nat (length a))
    with (Z.of_nat (length b)) by lia.
  rewrite !Nat2Z.id, skipn_length_app. apply firstn_length_app.
Qed.

Lemma byte_decoded (c : ascii) :
  charOf (parseInt16 (byteHex c)) = if isNul c then [] else [c].
Proof.
  destruct c as [[] [] [] [] [] [] [] []]; vm_compute; reflexivity.
Qed.

Lemma byteHex_length (c : ascii) : length (byteHex c) = 2%nat.
Proof. reflexivity. Qed.

Lemma bytes_length (bytes : list ascii) :
  Z.of_nat (length (concat (map byteHex bytes)))
  = Z.of_nat (length bytes) * 2.
Proof.
  induction bytes as [|c r IH]; [reflexivity|].
  cbn [map concat]. rewrite length_app, byteHex_length. cbn [length]. lia.
Qed.

Lemma decodeChars_bytes (bytes : list ascii) :
  decodeChars (concat (map byteHex bytes))
  = List.filter (fun c => negb (isNul c)) bytes.
Proof.
  induction bytes as [|c r IH]; [reflexivity|].
  cbn [map concat List.filter].
  change (byteHex c ++ concat (map byteHex r))
    with (Channels.hexChar (Z.of_nat (nat_of_ascii c) / 16)
          :: Channels.hexChar (Z.of_nat (nat_of_ascii c) mod 16)
          :: concat (map byteHex r)).
  cbn [decodeChars]. rewrite IH.
  change [Channels.hexChar (Z.of_nat (nat_of_ascii c) / 16);
          Channels.hexChar (Z.of_nat (nat_of_ascii c) mod 16)]
    with (byteHex c).
  rewrite byte_decoded. now destruct (isNul c).
Qed.

Lemma decode_body (offsetWord lengthWord : str) (bytes : list ascii)
    (padding : str) :
  length offsetWord = 64%nat ->
  length lengthWord = 64%nat ->
  parseInt16 lengthWord = Some (Z.of_nat (length bytes)) ->
  let h := offsetWord ++ lengthWord ++ concat (map byteHex bytes) ++ padding in
  orText (Some (decodeChars
                  (match parseInt16 (slice h 64 128) with
                   | Some n => slice h 128 (128 + n * 2)
                   | None => slice h 128 0
                   end)))
         (lit "UNKNOWN")
  = orText (Some (List.filter (fun c => negb (isNul c)) bytes))
           (lit "UNKNOWN").
Proof.
  intros Ho Hl Hp h. subst h.
  assert (S1 : slice (offsetWord ++ lengthWord
                      ++ concat (map byteHex bytes) ++ padding) 64 128
               = lengthWord).
  { replace 64 with (Z.of_nat (length offsetWord)) by (rewrite Ho; reflexivity).
    replace 128 with (Z.of_nat (length offsetWord)
                      + Z.of_nat (length lengthWord))
      by (rewrite Ho, Hl; reflexivity).
    apply slice_middle. }
  rewrite S1, Hp.
  assert (S2 : slice (offsetWord ++ lengthWord
                      ++ concat (map byteHex bytes) ++ padding)
                     128 (128 + Z.of_nat (length bytes) * 2)
               = concat (map byteHex bytes)).
  { rewrite (app_assoc offsetWord lengthWord).
    rewrite <- bytes_length.
    replace 128 with (Z.of_nat (length (offsetWord ++ lengthWord)))
      by (rewrite length_app, Ho, Hl; reflexivity).
    apply slice_middle. }
  rewrite S2, decodeChars_bytes. reflexivity.
Qed.

(** X23. [decodeStringFromHex] reads the second 32-byte word as the
    length and the bytes that follow it as the characters, with or
    without the prefix 0x: the first word and whatever comes after the
    declared bytes are ignored, NUL bytes are dropped, and a string left
    empty is returned as UNKNOWN. *)
Theorem decode_reads_declared_bytes (offsetWord lengthWord : str)
    (bytes : list ascii) (padding : str) :
  length offsetWord = 64%nat ->
  length lengthWord = 64%nat ->
  parseInt16 lengthWord = Some (Z.of_nat (length bytes)) ->
  decodeStringFromHex
    (lit "0x" ++ offsetWord ++ lengthWord
     ++ concat (map byteHex bytes) ++ padding)
  = orText (Some (List.filter (fun c => negb (isNul c)) bytes))
           (lit "UNKNOWN")
  /\ (startsWith (lit "0x") offsetWord = false ->
      decodeStringFromHex
        (offsetWord ++ lengthWord ++ concat (map byteHex bytes) ++ padding)
      = orText (Some (List.filter (fun c => negb (isNul c)) bytes))
               (lit "UNKNOWN")).
Proof.
  intros Ho Hl Hp. split.
  - unfold decodeStringFromHex.
    change (strip0x (lit "0x" ++ ?w)) with w.
    now apply decode_body.
  - intros Hx. unfold decodeStringFromHex, strip0x.
    destruct offsetWord as [|c0 [|c1 w]]; [discriminate Ho | discriminate Ho|].
    change (startsWith (lit "0x") ((c0 :: c1 :: w) ++ ?r))
      with (startsWith (lit "0x") (c0 :: c1 :: w)).
    rewrite Hx. now apply (decode_body (c0 :: c1 :: w)).
Qed.

Lemma decode_reads_declared_bytes_witness :
  decodeStringFromHex
    (lit "0x" ++ Channels.hexDigits 64 32 ++ Channels.hexDigits 64 4
     ++ concat (map byteHex (lit "USDC")) ++ zeros 56)
  = orText (Some (List.filter (fun c => negb (isNul c)) (lit "USDC")))
           (lit "UNKNOWN")
  /\ (startsWith (lit "0x") (Channels.hexDigits 64 32) = false ->
      decodeStringFromHex
        (Channels.hexDigits 64 32 ++ Channels.hexDigits 64 4
         ++ concat (map byteHex (lit "USDC")) ++ zeros 56)
      = orText (Some (List.filter (fun c => negb (isNul c)) (lit "USDC")))
               (lit "UNKNOWN")).
Proof.
  apply (decode_reads_declared_bytes (Channels.hexDigits 64 32)
           (Channels.hexDigits 64 4) (lit "USDC") (zeros 56));
    reflexivity.
Defined.

End DecodeFacts.

Section QueryFacts.
Import Js Wallet Transport Queries.

Variable signRequest : RPCRequest -> RPCRequest.
Variable sessionsReply : RPCRequest -> outcome (list RawSession).
Variable definitionReply : RPCRequest -> outcome RawDefinition.

Lemma find_first {A : Type} (p : A -> bool) (pre post : list A) (x : A) :
  (forall y, In y pre -> p y = false) -> p x = true ->
  find p (pre ++ x :: post) = Some x.
Proof.
  intros Hpre Hx. induction pre as [|y pre IH]; cbn.
  - now rewrite Hx.
  - rewrite (Hpre y (or_introl eq_refl)). apply IH.
    intros z Hz. apply Hpre. now right.
Qed.


End QueryFacts.

Section QueryExample.
Import Js Wallet Transport Queries NodeSamples.


End QueryExample.

Section DecimalsFacts.
Import Js Wallet Decimals.

Lemma plausible_range (d : Z) : plausible d = true <-> 0 <= d <= 36.
Proof. unfold plausible. rewrite andb_true_iff, Z.leb_le, Z.leb_le. tauto. Qed.

Lemma rpcDecimals_range (account : Account) (token : str) (d : Z) :
  rpcDecimals account token = Some d -> 0 <= d <= 36.
Proof.
  unfold rpcDecimals.
  destruct (ethCall account) as [request|]; [|discriminate].
  destruct (request token (lit "0x313ce567")) as [[result|]|];
    try discriminate.
  destruct (negb (eqb result (lit "0x")) && negb (eqb result (lit "0x0")));
    [|discriminate].
  destruct (Portfolio.parseInt16 result) as [parsed|]; [|discriminate].
  destruct (plausible parsed) eqn:P; [|discriminate].
  intros H. injection H as <-. now apply plausible_range.
Qed.

Lemma zerionDecimals_range (account : Account) (metadata : Metadata)
    (chain token : str) (d : Z) :
  zerionDecimals account metadata chain token = Some d -> 0 <= d <= 36.
Proof.
  unfold zerionDecimals.
  destruct (getAddress account) as [addr|]; [|discriminate].
  destruct (metadata addr) as [[positions|]|]; try discriminate.
  destruct (find _ positions) as [found|]; [|discriminate].
  destruct (fungibleDecimals found) as [d'|]; [|discriminate].
  destruct (plausible d') eqn:P; [|discriminate].
  intros H. injection H as <-. now apply plausible_range.
Qed.

(** X25. Whatever the provider and the indexer answer, the decimals
    [sendCrypto] converts the amount with lie between 0 and 36, and
    they are 18 whenever no source was accepted. *)
Theorem resolved_decimals_within_36 (account : Account)
    (metadata : Metadata) (chain : str) (tokenAddress : option str) :
  0 <= fst (resolveDecimals account metadata chain tokenAddress) <= 36
  /\ (snd (resolveDecimals account metadata chain tokenAddress)
      = lit "fallback-18" ->
      fst (resolveDecimals account metadata chain tokenAddress) = 18).
Proof.
  unfold resolveDecimals.
  destruct (tokenOf tokenAddress) as [token|].
  - destruct (rpcDecimals account token) as [d|] eqn:R.
    + split; [exact (rpcDecimals_range _ _ _ R) | discriminate].
    + destruct (zerionDecimals account metadata chain token) as [d|] eqn:Z0.
      * split; [exact (zerionDecimals_range _ _ _ _ _ Z0) | discriminate].
      * cbn. split; [lia | reflexivity].
  - cbn [fst snd]. split; [|discriminate].
    unfold getNativeTokenDecimals.
    destruct (eqb chain (lit "tron")); [cbn; lia|].
    destruct (eqb chain (lit "bitcoin")); [cbn; lia|].
    destruct (eqb chain (lit "solana")); cbn; lia.
Qed.

Lemma resolved_decimals_within_36_witness :
  fst (resolveDecimals (NodeSamples.answering (lit "0x"))
         NodeSamples.noMetadata (lit "base") (Some Samples.usdt)) = 18.
Proof.
  apply (proj2 (resolved_decimals_within_36
                  (NodeSamples.answering (lit "0x"))
                  NodeSamples.noMetadata (lit "base") (Some Samples.usdt))).
  reflexivity.
Defined.

(** X26. The provider's answer 0x0 is not read as zero decimals: the
    token is then resolved as if the signer had no provider, so with 18
    decimals when the indexer does not know it. The same zero written
    with two digits, 0x00, is accepted from the provider. *)
Theorem unpadded_zero_decimals_refused (account bare : Account)
    (metadata : Metadata) (chain token : str)
    (request : str -> str -> outcome (option str)) :
  token <> [] ->
  ethCall account = Some request ->
  ethCall bare = None ->
  getAddress bare = getAddress account ->
  (request token (lit "0x313ce567") = Returns (Some (lit "0x0")) ->
   resolveDecimals account metadata chain (Some token)
   = resolveDecimals bare metadata chain (Some token))
  /\ (request token (lit "0x313ce567") = Returns (Some (lit "0x00")) ->
      resolveDecimals account metadata chain (Some token)
      = (0, lit "rpc-decimals()")).
Proof.
  intros Ht Hreq Hbare Haddr.
  destruct token as [|c r]; [contradiction|].
  unfold resolveDecimals, rpcDecimals, zerionDecimals. cbn [tokenOf].
  rewrite Hreq, Hbare, Haddr. split; intros ->; reflexivity.
Qed.

Lemma unpadded_zero_decimals_refused_witness :
  resolveDecimals (NodeSamples.answering (lit "0x0")) NodeSamples.noMetadata
                  (lit "base") (Some Samples.usdt)
  = resolveDecimals Samples.fundedAccount NodeSamples.noMetadata
                    (lit "base") (Some Samples.usdt).
Proof.
  apply (proj1 (unpadded_zero_decimals_refused
                  (NodeSamples.answering (lit "0x0")) Samples.fundedAccount
                  NodeSamples.noMetadata (lit "base") Samples.usdt
                  (fun _ _ => Returns (Some (lit "0x0")))
                  ltac:(discriminate) eq_refl eq_refl eq_refl));
    reflexivity.
Defined.

End DecimalsFacts.

Section ListingFacts.
Import Js Wallet Portfolio.

(** X27. Every fetched transaction is in the history of an address,
    under that address and chain, with or without a hash; one without
    hash or id is listed there with an empty hash and is left out of the
    any-chain listing. On a transaction that has a hash the two
    listings agree: the history reports the same status, recipient,
    times and token symbol as the any-chain listing, and the same hash
    up to letter case. The values agree when the transaction has a
    transfer; without one the any-chain listing says 0 where the
    history reports the fee. *)
Theorem listings_agree_on_a_transaction (address chainName : str)
    (tx : ZerionTx) :
  let h := historyEntry address chainName tx in
  (txFrom h = address /\ chain h = chainName)
  /\ (forall l,
        In tx l -> address <> [] ->
        exists r,
          getTransactionHistory (Returns (Some address)) (Returns (Some l))
                                chainName = Returns r
          /\ In h r /\ length r = length l)
  /\ (anyEntry tx = None -> txHash h = [])
  /\ (forall k t,
        anyEntry tx = Some (k, t) ->
        (lower (txHash h) = txHash t
         /\ txStatus h = txStatus t
         /\ txTo h = txTo t
         /\ timestamp h = timestamp t
         /\ blockNumber h = blockNumber t
         /\ tokenSymbol h = tokenSymbol t)
        /\ (default [] (transfers (attributesOf tx)) <> [] ->
            txValue h = txValue t)
        /\ (default [] (transfers (attributesOf tx)) = [] ->
            txValue t = lit "0"
            /\ txValue h = orText (feeValue (attributesOf tx)) (lit "0"))).
Proof.
  intros h. split; [|split; [|split]].
  - subst h. unfold historyEntry.
    destruct (match default [] (transfers (attributesOf tx)) with
              | [] => _ | tr :: _ => _ end) as [[symbol value] toAddress].
    now split.
  - intros l Hin Ha. destruct address as [|a0 a]; [contradiction|].
    eexists. split; [reflexivity|]. split.
    + apply in_map_iff. now exists tx.
    + apply length_map.
  - subst h. unfold anyEntry, historyEntry.
    destruct (lower (orText (hash (attributesOf tx)) (orText (txId tx) [])))
      as [|c r] eqn:L.
    + intros _. apply (proj1 (lower_nil _)) in L.
      destruct (match default [] (transfers (attributesOf tx)) with
                | [] => _ | tr :: _ => _ end) as [[symbol value] toAddress].
      exact L.
    + destruct (match default [] (transfers (attributesOf tx)) with
                | [] => _ | tr :: _ => _ end) as [[symbol value] toAddress].
      discriminate.
  - intros k t E. subst h. unfold anyEntry in E. unfold historyEntry.
    destruct (lower (orText (hash (attributesOf tx)) (orText (txId tx) [])))
      as [|c r] eqn:L; [discriminate E|].
    destruct (default [] (transfers (attributesOf tx))) as [|tr rest] eqn:T.
    + injection E as <- <-. cbn [txHash txStatus txTo timestamp blockNumber
                                   tokenSymbol txValue txFrom chain].
      split; [|split].
      * repeat split; assumption.
      * intros Hx. now contradiction Hx.
      * intros _. now split.
    + destruct (firstTransfer tr) as [[symbol value] toAddress] eqn:F.
      injection E as <- <-. cbn [txHash txStatus txTo timestamp blockNumber
                                   tokenSymbol txValue txFrom chain].
      split; [|split].
      * repeat split; assumption.
      * intros _. reflexivity.
      * intros Hx. discriminate Hx.
Qed.

Lemma listings_agree_on_a_transaction_witness :
  lower (txHash (historyEntry Samples.alice (lit "base")
                   (NodeSamples.reported (Some (lit "0xABC1")))))
  = lit "0xabc1"
  /\ txHash (historyEntry Samples.alice (lit "base")
               (NodeSamples.reported None)) = [].
Proof.
  split.
  - apply (proj1 (proj1 (proj2 (proj2 (proj2
             (listings_agree_on_a_transaction
                Samples.alice (lit "base")
                (NodeSamples.reported (Some (lit "0xABC1"))))))
             _ _ eq_refl))).
  - apply (proj1 (proj2 (proj2
             (listings_agree_on_a_transaction
                Samples.alice (lit "base") (NodeSamples.reported None))))).
    reflexivity.
Defined.

End ListingFacts.
